(** * HQQ quantizer core: a shallow embedding of [hqq/core/quantize.py]

    The development follows the source file top to bottom:
    the tensor runtime the code calls into, the [Quantizer] class
    (its dispatch tables, [quantize], [dequantize], [to_inplace]) and the
    [HQQLinear] wrapper ([__init__], [initialize], [quantize], [cuda]).

    Tensors hold exact rationals: every arithmetic step of the runtime is
    taken without rounding error, so the statements below are about the
    algorithm on real numbers, not about IEEE rounding. *)

From Stdlib Require Import String Ascii.
From Stdlib Require Import ZArith QArith Qround Qabs Qminmax Qfield.
From Stdlib Require Import List Bool Lia Lra Reals.
From Stdlib Require Lqa.
Import ListNotations.

Local Open Scope string_scope.
Local Open Scope Z_scope.
Local Open Scope nat_scope.
Local Open Scope Q_scope.
Local Open Scope list_scope.

(** ** Exceptions and the result monad *)

Inductive exn : Type :=
| AssertionError (msg : string)
| RuntimeError (msg : string)
| KeyError (key : string)
| TypeError (msg : string)
| IndexError (msg : string)
| ValueError (msg : string)
| ZeroDivisionError
| AttributeError (msg : string).

Inductive result (A : Type) : Type :=
| Ok (a : A)
| Raise (e : exn).
Arguments Ok {A} a.
Arguments Raise {A} e.

Definition bind {A B} (r : result A) (k : A -> result B) : result B :=
  match r with
  | Ok a => k a
  | Raise e => Raise e
  end.

Declare Scope result_scope.
Delimit Scope result_scope with result.
Notation "x <- r ;; k" := (bind r (fun x => k))
  (at level 61, r at next level, right associativity) : result_scope.
Notation "' p <- r ;; k" := (bind r (fun p => k))
  (at level 61, p pattern, r at next level, right associativity) : result_scope.
Local Open Scope result_scope.

Definition assert (b : bool) (msg : string) : result unit :=
  if b then Ok tt else Raise (AssertionError msg).

Definition is_ok {A} (r : result A) : bool :=
  match r with Ok _ => true | Raise _ => false end.

(** ** Element types of the tensor runtime *)

Inductive dtype : Type :=
| float32 | float16 | bfloat16
| uint8 | int8 | int16 | int32
| bool_.

Definition dtype_eqb (a b : dtype) : bool :=
  match a, b with
  | float32, float32 | float16, float16 | bfloat16, bfloat16
  | uint8, uint8 | int8, int8 | int16, int16 | int32, int32
  | bool_, bool_ => true
  | _, _ => false
  end.

(** Width of one element in bits ([torch.dtype.itemsize * 8]). *)
Definition bit_width (d : dtype) : nat :=
  match d with
  | float32 | int32 => 32
  | float16 | bfloat16 | int16 => 16
  | uint8 | int8 | bool_ => 8
  end%nat.

Definition is_floating_point (d : dtype) : bool :=
  match d with
  | float32 | float16 | bfloat16 => true
  | _ => false
  end.

(** [torch.promote_types] on the element types above. *)
Definition promote_types (a b : dtype) : dtype :=
  match a, b with
  | float32, _ | _, float32 => float32
  | float16, bfloat16 | bfloat16, float16 => float32
  | float16, _ | _, float16 => float16
  | bfloat16, _ | _, bfloat16 => bfloat16
  | int32, _ | _, int32 => int32
  | int16, _ | _, int16 => int16
  | uint8, int8 | int8, uint8 => int16
  | uint8, _ | _, uint8 => uint8
  | int8, _ | _, int8 => int8
  | bool_, bool_ => bool_
  end.

(** ** Tensors

    The weights of a linear layer are matrices; the model keeps a tensor as
    its list of rows.  A 0-dim tensor (the result of a full reduction) is a
    one by one matrix flagged [t_scalar].

    [t_store] is the element type the storage was written in and [t_dtype]
    the element type the tensor is viewed as.  They differ only after
    [view_dtype]: the rows are then still the container's elements, the same
    storage under another type tag. *)

Record Tensor : Type := mkTensor {
  t_dtype : dtype;
  t_store : dtype;
  t_scalar : bool;
  t_rows : list (list Q)
}.

Definition fresh (d : dtype) (sc : bool) (rows : list (list Q)) : Tensor :=
  mkTensor d d sc rows.

Definition n_rows (t : Tensor) : nat := length (t_rows t).
Definition row_len (t : Tensor) : nat := length (hd [] (t_rows t)).

Definition numel (t : Tensor) : nat := length (concat (t_rows t)).

(** [tensor.shape]: empty for a 0-dim tensor; the last dimension counts
    elements of the viewed type. *)
Definition shape (t : Tensor) : list nat :=
  if t_scalar t then []
  else [n_rows t; (row_len t * bit_width (t_store t) / bit_width (t_dtype t))%nat].

(** The values of a tensor can be read when it is viewed as the type it was
    written in. *)
Definition readable (t : Tensor) : bool := dtype_eqb (t_dtype t) (t_store t).

Definition rect (c : nat) (rows : list (list Q)) : Prop :=
  Forall (fun r => length r = c) rows.

(** *** Lists of rows *)

Fixpoint chunks (r c : nat) (l : list Q) : list (list Q) :=
  match r with
  | O => []
  | S r' => firstn c l :: chunks r' c (skipn c l)
  end.

Fixpoint map2 {A B C} (f : A -> B -> C) (la : list A) (lb : list B) : list C :=
  match la, lb with
  | a :: la', b :: lb' => f a b :: map2 f la' lb'
  | _, _ => []
  end.

(** Broadcasting along one dimension: sizes agree or one of them is 1. *)
Definition bzip1 {A B C} (f : A -> B -> C) (la : list A) (lb : list B)
  : option (list C) :=
  if Nat.eqb (length la) (length lb) then Some (map2 f la lb)
  else match la, lb with
       | _, [b] => Some (map (fun a => f a b) la)
       | [a], _ => Some (map (f a) lb)
       | _, _ => None
       end.

Fixpoint sequence {A} (l : list (option A)) : option (list A) :=
  match l with
  | [] => Some []
  | Some a :: l' =>
      match sequence l' with Some r => Some (a :: r) | None => None end
  | None :: _ => None
  end.

Definition bzip2 {A B C} (f : A -> B -> C)
  (ma : list (list A)) (mb : list (list B)) : option (list (list C)) :=
  match bzip1 (bzip1 f) ma mb with
  | Some rows => sequence rows
  | None => None
  end.

(** ** The tensor runtime

    The operations of the runtime that [quantize.py] calls, on the tensors
    above.  Device placement ([.to(device)], [.cpu()], [.contiguous()],
    [.pin_memory()]) does not change a tensor of the model.

    Arithmetic is exact.  What is proved below about element types, shapes,
    meta-data, control flow and errors is proved of the code; what is proved
    about the value of an element is proved of the real number that the
    code's float approximates, and holds of the float only as far as no
    rounding and no overflow occurs. *)

Module Torch.

(** Reading the elements of a tensor that is viewed as another type than it
    was written in would need the bit patterns of floating-point numbers,
    which the model does not have. *)
Definition values (t : Tensor) : result (list (list Q)) :=
  if readable t then Ok (t_rows t)
  else Raise (RuntimeError "value of a reinterpreted tensor").

(** *** Casts

    A cast to an integer type truncates and wraps around.  A cast to a
    floating type keeps the number: the elements of a tensor are the
    rationals that its floats stand for, and rounding to the precision of the
    type, overflow to infinity and NaN are outside the model. *)

Definition truncate (q : Q) : Z := Z.quot (Qnum q) (Zpos (Qden q)).

Definition wrap (d : dtype) (z : Z) : Z :=
  match d with
  | uint8 => z mod 256
  | int8 => (z + 128) mod 256 - 128
  | int16 => (z + 32768) mod 65536 - 32768
  | int32 => (z + 2147483648) mod 4294967296 - 2147483648
  | _ => z
  end%Z.

Definition cast (d : dtype) (q : Q) : Q :=
  match d with
  | float32 | float16 | bfloat16 => q
  | bool_ => if Qeq_bool q 0 then 0 else 1
  | _ => inject_Z (wrap d (truncate q))
  end.

(** [t.to(dtype)] *)
Definition to (d : dtype) (t : Tensor) : result Tensor :=
  rows <- values t ;;
  Ok (fresh d (t_scalar t) (map (map (cast d)) rows)).

(** [t.float()] *)
Definition float (t : Tensor) : result Tensor := to float32 t.

(** [t.view(dtype)]: the same storage under another element type.  The last
    dimension is rescaled by the ratio of the element sizes and has to stay
    integral. *)
Definition view_dtype (d : dtype) (t : Tensor) : result Tensor :=
  if Nat.eqb ((row_len t * bit_width (t_store t)) mod bit_width d) 0
  then Ok (mkTensor d (t_store t) (t_scalar t) (t_rows t))
  else Raise (RuntimeError "view: size of the last dimension not divisible").

(** *** Elementwise operations *)

(** A Python number combined with a tensor keeps a floating tensor's type
    and turns an integer tensor into the default float type. *)
Definition scalar_dtype (d : dtype) : dtype :=
  if is_floating_point d then d else float32.

(** [f(t)] for a unary elementwise [f], or [t op c] for a Python float [c]. *)
Definition pointwise (f : Q -> Q) (t : Tensor) : result Tensor :=
  rows <- values t ;;
  Ok (fresh (scalar_dtype (t_dtype t)) (t_scalar t) (map (map f) rows)).

(** Result type of a binary operation between tensors: a 0-dim operand does
    not take part in the promotion against a dimensioned one of the same
    category. *)
Definition result_type (a b : Tensor) : dtype :=
  let da := t_dtype a in
  let db := t_dtype b in
  if Bool.eqb (t_scalar a) (t_scalar b) then promote_types da db
  else if t_scalar b
       then (if is_floating_point db && negb (is_floating_point da)
             then db else da)
       else (if is_floating_point da && negb (is_floating_point db)
             then da else db).

(** [a op b] with broadcasting, in exact arithmetic: the result carries
    the promoted type, but it is neither rounded to the precision of a
    floating type nor wrapped around for an integer type. *)
Definition binary (f : Q -> Q -> Q) (a b : Tensor) : result Tensor :=
  ra <- values a ;;
  rb <- values b ;;
  match bzip2 f ra rb with
  | Some rows =>
      Ok (fresh (result_type a b) (t_scalar a && t_scalar b) rows)
  | None => Raise (RuntimeError "shapes cannot be broadcast")
  end.

Definition sub := binary Qminus.
Definition mul := binary Qmult.
Definition add := binary Qplus.

(** [c / t] for a Python number [c]; the runtime divides by zero without an
    exception (the quotient is infinite there), and so does [Qdiv], whose
    quotient by zero is [0]. *)
Definition rdiv (c : Q) (t : Tensor) : result Tensor :=
  pointwise (fun x => c / x) t.

Definition neg : Tensor -> result Tensor := pointwise Qopp.
Definition abs : Tensor -> result Tensor := pointwise Qabs.
Definition mul_scalar (c : Q) : Tensor -> result Tensor :=
  pointwise (fun x => x * c).

(** [torch.round]: to the nearest integer, halves to the even one. *)
Definition round_half_even (q : Q) : Z :=
  let f := Qfloor q in
  let d := q - inject_Z f in
  match Qcompare d (1 # 2) with
  | Lt => f
  | Gt => (f + 1)%Z
  | Eq => if Z.even f then f else (f + 1)%Z
  end.

Definition round : Tensor -> result Tensor :=
  pointwise (fun x => inject_Z (round_half_even x)).

(** [t.clamp(lo, hi)] is [min(max(t, lo), hi)]; [t.clamp(max=hi)] has no
    lower bound. *)
Definition clamp (lo hi : Q) : Tensor -> result Tensor :=
  pointwise (fun x => Qmin (Qmax x lo) hi).
Definition clamp_max (hi : Q) : Tensor -> result Tensor :=
  pointwise (fun x => Qmin x hi).

(** [t <= c] *)
Definition le_scalar (c : Q) (t : Tensor) : result Tensor :=
  rows <- values t ;;
  Ok (fresh bool_ (t_scalar t)
        (map (map (fun x => if Qle_bool x c then 1 else 0)) rows)).

(** [torch.full_like(t, c)] *)
Definition full_like (t : Tensor) (c : Q) : Tensor :=
  fresh (t_dtype t) (t_scalar t) (map (map (fun _ => c)) (t_rows t)).

(** [torch.where(cond, a, b)] *)
Definition where_ (cond a b : Tensor) : result Tensor :=
  rc <- values cond ;;
  ra <- values a ;;
  rb <- values b ;;
  match bzip2 (@pair Q Q) ra rb with
  | Some pairs =>
      match bzip2 (fun c (p : Q * Q) => if Qeq_bool c 0 then snd p else fst p)
                  rc pairs with
      | Some rows =>
          Ok (fresh (result_type a b)
                (t_scalar cond && t_scalar a && t_scalar b) rows)
      | None => Raise (RuntimeError "shapes cannot be broadcast")
      end
  | None => Raise (RuntimeError "shapes cannot be broadcast")
  end.

(** *** Reductions *)

Definition reduce1 (f : Q -> Q -> Q) (l : list Q) : option Q :=
  match l with
  | [] => None
  | x :: l' => Some (fold_left f l' x)
  end.

Fixpoint reduce_cols (f : Q -> Q -> Q) (rows : list (list Q))
  : option (list Q) :=
  match rows with
  | [] => None
  | [r] => Some r
  | r :: rs =>
      match reduce_cols f rs with
      | Some acc => Some (map2 f r acc)
      | None => None
      end
  end.

(** [t.min()] and [t.max()]: a 0-dim tensor. *)
Definition reduce_all (f : Q -> Q -> Q) (t : Tensor) : result Tensor :=
  rows <- values t ;;
  match reduce1 f (concat rows) with
  | Some x => Ok (fresh (t_dtype t) true [[x]])
  | None => Raise (RuntimeError "reduction of an empty tensor")
  end.

(** [t.min(axis=axis, keepdim=True)[0]] and the same for [max]; a reduced
    dimension without elements raises [IndexError]. *)
Definition reduce_axis (f : Q -> Q -> Q) (axis : Z) (t : Tensor)
  : result Tensor :=
  rows <- values t ;;
  if t_scalar t then
    (if Z.eqb axis 0 then Ok t
     else Raise (IndexError "dimension out of range"))
  else if Z.eqb axis 0 then
    match reduce_cols f rows with
    | Some r => Ok (fresh (t_dtype t) false [r])
    | None => Raise (IndexError "Expected reduction dim to have non-zero size")
    end
  else
    match sequence (map (reduce1 f) rows) with
    | Some col => Ok (fresh (t_dtype t) false (map (fun x => [x]) col))
    | None => Raise (IndexError "Expected reduction dim to have non-zero size")
    end.

Definition min_all := reduce_all Qmin.
Definition max_all := reduce_all Qmax.
Definition min_axis := reduce_axis Qmin.
Definition max_axis := reduce_axis Qmax.

(** *** Shapes *)

(** [t.reshape([r, c])] *)
Definition reshape2 (r c : nat) (t : Tensor) : result Tensor :=
  if Nat.eqb (numel t) (r * c)
  then Ok (mkTensor (t_dtype t) (t_store t) false
             (chunks r c (concat (t_rows t))))
  else Raise (RuntimeError "reshape: number of elements differs").

(** [t.reshape([-1, c])]: the free dimension is inferred. *)
Definition reshape_rows_of (c : nat) (t : Tensor) : result Tensor :=
  if Nat.eqb c 0 then Raise (RuntimeError "reshape: cannot infer -1")
  else if Nat.eqb (numel t mod c) 0 then reshape2 (numel t / c) c t
  else Raise (RuntimeError "reshape: number of elements differs").

(** [t.reshape([r, -1])] *)
Definition reshape_cols_of (r : nat) (t : Tensor) : result Tensor :=
  if Nat.eqb r 0 then Raise (RuntimeError "reshape: cannot infer -1")
  else if Nat.eqb (numel t mod r) 0 then reshape2 r (numel t / r) t
  else Raise (RuntimeError "reshape: number of elements differs").

(** [t.reshape(shape)] for a recorded shape. *)
Definition reshape (shp : list nat) (t : Tensor) : result Tensor :=
  match shp with
  | [r; c] => reshape2 r c t
  | [] =>
      if Nat.eqb (numel t) 1
      then Ok (mkTensor (t_dtype t) (t_store t) true (t_rows t))
      else Raise (RuntimeError "reshape: number of elements differs")
  | _ => Raise (RuntimeError "reshape: not a matrix shape")
  end.

(** [t[:n]]: the first [n] rows, counted from the end for a negative [n];
    [t[:None]] is the whole tensor. *)
Definition take_rows (n : option Z) (t : Tensor) : result Tensor :=
  if t_scalar t then Raise (IndexError "slice of a 0-dim tensor")
  else match n with
       | Some k =>
           let k' := if Z.leb 0 k then Z.to_nat k
                     else (n_rows t - Z.to_nat (- k))%nat in
           Ok (mkTensor (t_dtype t) (t_store t) false (firstn k' (t_rows t)))
       | None => Ok t
       end.

End Torch.

(** ** Collaborators of [quantize.py]

    [quantize.py] imports [is_divisible] from [utils], [BitPack] from
    [bitpack] and [optimize_weights_proximal] from [optimize]. *)

(** Modelled from the spec: [utils.is_divisible], which is not part of the
    sources at hand; the spec asks that [group_size] divides [numel(W)]. *)
Definition is_divisible (val1 val2 : nat) : bool := Nat.eqb (val1 mod val2) 0.

Module BitPack.

Definition matrix := list (list Z).

Definition ints (d : dtype) (rows : list (list Q)) : matrix :=
  map (map (fun q => Torch.wrap d (Torch.truncate q))) rows.

Definition of_ints (d : dtype) (m : matrix) : list (list Q) :=
  map (map (fun z => Torch.cast d (inject_Z z))) m.

Definition zeros (n c : nat) : matrix := repeat (repeat 0%Z c) n.

(** The code rows padded with zero rows up to [r] stripes of [n] rows. *)
Definition pad (r n c : nat) (m : matrix) : matrix :=
  m ++ zeros (r * n - length m) c.

Fixpoint stripes (r n : nat) (m : matrix) : list matrix :=
  match r with
  | O => []
  | S r' => firstn n m :: stripes r' n (skipn n m)
  end.

Definition shift_left (s : nat) (m : matrix) : matrix :=
  map (map (fun z => Z.shiftl z (Z.of_nat s))) m.

(** Sum over the stripes [k] of [stripe k << (b * (r - 1 - k))]. *)
Fixpoint pack_sum (b n c : nat) (ss : list matrix) : matrix :=
  match ss with
  | [] => zeros n c
  | s :: rest =>
      map2 (map2 Z.add) (shift_left (b * length rest) s) (pack_sum b n c rest)
  end.

(** Stripe [k] of a packed array: shift right by [b * e] and mask [b] bits. *)
Definition extract (b e : nat) (p : matrix) : matrix :=
  map (map (fun z => Z.land (Z.shiftr z (Z.of_nat (b * e)))
                            (Z.ones (Z.of_nat b)))) p.

Definition unpack_all (b r : nat) (p : matrix) : matrix :=
  concat (map (fun k => extract b (r - 1 - k) p) (seq 0 r)).

(** Modelled from the spec: the codecs of [BitPack] (§4.1), which are not
    part of the sources at hand.  A code array of [L] rows is cut into [r]
    stripes of [ceil(L / r)] rows along the leading axis, the axis the
    Quantizer trims on; missing rows are zero padding.  The packed value at a
    position is the sum over [k] of the code of stripe [k] shifted left by
    [b * (r - 1 - k)], held in the container type. *)
Definition pack_stripes (b r : nat) (container : dtype) (t : Tensor)
  : result Tensor :=
  rows <- Torch.values t ;;
  if t_scalar t then Raise (TypeError "a 0-dim tensor has no rows")
  else
    let c := row_len t in
    let n := ((length rows + r - 1) / r)%nat in
    let codes := pad r n c (ints container rows) in
    let packed := pack_sum b n c (stripes r n codes) in
    Ok (fresh container false
          (map (map (fun z => inject_Z (Torch.wrap container z))) packed)).

(** Modelled from the spec: unpack inverts the layout by masking and
    shifting and returns the padded buffer, in the requested type. *)
Definition unpack_stripes (b r : nat) (container : dtype)
  (t : Tensor) (d : dtype) : result Tensor :=
  rows <- Torch.values t ;;
  if t_scalar t then Raise (TypeError "a 0-dim tensor has no rows")
  else if is_floating_point (t_dtype t)
  then Raise (RuntimeError "bit operations on a floating tensor")
  else Ok (fresh d false
             (of_ints d (unpack_all b r (ints (t_dtype t) rows)))).

Definition pack_8bit_u8 (t : Tensor) : result Tensor := Torch.to uint8 t.
Definition unpack_8bit_u8 (t : Tensor) (d : dtype) : result Tensor :=
  Torch.to d t.

Definition pack_4bit_u8 := pack_stripes 4 2 uint8.
Definition unpack_4bit_u8 := unpack_stripes 4 2 uint8.
Definition pack_3bit_32 := pack_stripes 3 10 int32.
Definition unpack_3bit_32 := unpack_stripes 3 10 int32.
Definition pack_2bit_u8 := pack_stripes 2 4 uint8.
Definition unpack_2bit_u8 := unpack_stripes 2 4 uint8.
Definition pack_1bit_u8 := pack_stripes 1 8 uint8.
Definition unpack_1bit_u8 := unpack_stripes 1 8 uint8.

End BitPack.

Module Optimize.

Section Proximal.

(** The shrinkage operator [shrink_p(e, beta)] of the solver; its closed
    form takes a real power and is kept abstract. *)
Variable shrink : Q -> Q -> Q.

Definition beta0 : Q := 10.
Definition kappa : Q := 105 # 100.
Definition iters : nat := 20.

Definition mean_axis (axis : Z) (t : Tensor) : result Tensor :=
  s <- Torch.reduce_axis Qplus axis t ;;
  let count := if Z.eqb axis 0 then n_rows t else row_len t in
  Torch.pointwise (fun x => x / inject_Z (Z.of_nat count)) s.

Definition mean_all (t : Tensor) : result Q :=
  rows <- Torch.values t ;;
  Ok (fold_left Qplus (concat rows) 0 / inject_Z (Z.of_nat (numel t))).

Record state : Type := mkState {
  st_zero : Tensor;
  st_beta : Q;
  st_err : option Q;
  st_best : option (Tensor * Tensor * Tensor)
}.

(** One round of step 2: [None] when the divergence guard stops the loop. *)
Definition step (W scale : Tensor) (min_v max_v : Q) (axis : Z) (st : state)
  : result (option state) :=
  ws <- Torch.mul W scale ;;
  a <- Torch.add ws (st_zero st) ;;
  r <- Torch.round a ;;
  W_q <- Torch.clamp min_v max_v r ;;
  e <- Torch.sub a W_q ;;
  e_bar <- Torch.pointwise (fun x => shrink x (st_beta st)) e ;;
  d <- Torch.sub W_q ws ;;
  d' <- Torch.add d e_bar ;;
  zero <- mean_axis axis d' ;;
  let beta := st_beta st * kappa in
  diff <- Torch.sub e e_bar ;;
  adiff <- Torch.abs diff ;;
  err <- mean_all adiff ;;
  match st_err st with
  | Some prev =>
      if Qle_bool err prev
      then Ok (Some (mkState zero beta (Some err) (Some (W_q, scale, zero))))
      else Ok None
  | None => Ok (Some (mkState zero beta (Some err) (Some (W_q, scale, zero))))
  end.

Fixpoint iterate (n : nat) (W scale : Tensor) (min_v max_v : Q) (axis : Z)
  (st : state) : result (option (Tensor * Tensor * Tensor)) :=
  match n with
  | O => Ok (st_best st)
  | S n' =>
      next <- step W scale min_v max_v axis st ;;
      match next with
      | Some st' => iterate n' W scale min_v max_v axis st'
      | None => Ok (st_best st)
      end
  end.

(** Modelled from the spec: [optimize.optimize_weights_proximal] (§4.2),
    which is not part of the sources at hand: at most [T_max = 20] rounds
    of codes, residual, shrinkage, offset update and growth of [beta],
    stopped when the error grows; the best codes, scale and zero are
    returned. *)
Definition optimize_weights_proximal (tensor scale zero : Tensor)
  (min_max : Q * Q) (axis : Z) : result (Tensor * Tensor * Tensor) :=
  best <- iterate iters tensor scale (fst min_max) (snd min_max) axis
            (mkState zero beta0 None None) ;;
  match best with
  | Some b => Ok b
  | None => Raise (RuntimeError "no round of the solver completed")
  end.

End Proximal.

End Optimize.

(** ** Python values and dictionaries

    [meta] and [quant_config] are string-keyed dictionaries of mixed values;
    they are kept in insertion order. *)

#[warnings="-register-all"]
Inductive value : Type :=
| VNone
| VBool (b : bool)
| VInt (z : Z)
| VNum (q : Q)
| VStr (s : string)
| VDtype (d : dtype)
| VShape (s : list nat)
| VTensor (t : Tensor)
| VStack (a b : Tensor)
| VDict (d : list (string * value)).

Definition dict := list (string * value).

Module Dict.

Fixpoint get (k : string) (d : dict) : option value :=
  match d with
  | [] => None
  | (k', v) :: d' => if String.eqb k k' then Some v else get k d'
  end.

Definition mem (k : string) (d : dict) : bool :=
  match get k d with Some _ => true | None => false end.

(** [d[k] = v]: an existing key keeps its place. *)
Fixpoint set (k : string) (v : value) (d : dict) : dict :=
  match d with
  | [] => [(k, v)]
  | (k', v') :: d' =>
      if String.eqb k k' then (k, v) :: d' else (k', v') :: set k v d'
  end.

(** [del d[k]] *)
Fixpoint remove (k : string) (d : dict) : dict :=
  match d with
  | [] => []
  | (k', v') :: d' =>
      if String.eqb k k' then d' else (k', v') :: remove k d'
  end.

(** [d[k]] *)
Definition item (k : string) (d : dict) : result value :=
  match get k d with
  | Some v => Ok v
  | None => Raise (KeyError k)
  end.

Definition tensor (k : string) (d : dict) : result Tensor :=
  v <- item k d ;;
  match v with
  | VTensor t => Ok t
  | _ => Raise (TypeError "a tensor is expected")
  end.

End Dict.

(** Truth value of a Python object in a condition. *)
Definition truthy (v : value) : result bool :=
  match v with
  | VNone => Ok false
  | VBool b => Ok b
  | VInt z => Ok (negb (Z.eqb z 0))
  | VNum q => Ok (negb (Qeq_bool q 0))
  | VStr s => Ok (negb (String.eqb s ""))
  | VDtype _ => Ok true
  | VShape s => Ok (negb (Nat.eqb (length s) 0))
  | VTensor t =>
      match concat (t_rows t) with
      | [x] => Ok (negb (Qeq_bool x 0))
      | _ => Raise (RuntimeError "truth value of a tensor is ambiguous")
      end
  | VStack _ _ => Raise (RuntimeError "truth value of a tensor is ambiguous")
  | VDict d => Ok (negb (Nat.eqb (length d) 0))
  end.

(** [v == n] for a Python number [n]. *)
Definition eq_num (v : value) (n : Q) : bool :=
  match v with
  | VInt z => Qeq_bool (inject_Z z) n
  | VNum q => Qeq_bool q n
  | VBool b => Qeq_bool (if b then 1 else 0) n
  | _ => false
  end.

(** ** The Quantizer *)

Module Quantizer.

Definition SUPPORTED_BITS : list Q := [8; 6; 5; 4; 3; 2; 158 # 100; 1].

Fixpoint lookup_num {V} (k : Q) (tbl : list (Q * V)) : option V :=
  match tbl with
  | [] => None
  | (k', v) :: tbl' => if Qeq_bool k k' then Some v else lookup_num k tbl'
  end.

Fixpoint lookup_str {V} (k : string) (tbl : list (string * V)) : option V :=
  match tbl with
  | [] => None
  | (k', v) :: tbl' => if String.eqb k k' then Some v else lookup_str k tbl'
  end.

Definition bit_to_packing : list (Q * string) :=
  [ (8, "8bit_u8");
    (6, "8bit_u8");
    (5, "8bit_u8");
    (4, "4bit_u8");
    (3, "3bit_32");
    (2, "2bit_u8");
    (158 # 100, "2bit_u8");
    (1, "1bit_u8") ].

Definition pack : list (string * (Tensor -> result Tensor)) :=
  [ ("8bit_u8", BitPack.pack_8bit_u8);
    ("4bit_u8", BitPack.pack_4bit_u8);
    ("3bit_32", BitPack.pack_3bit_32);
    ("2bit_u8", BitPack.pack_2bit_u8);
    ("1bit_u8", BitPack.pack_1bit_u8) ].

Definition unpack : list (string * (Tensor -> dtype -> result Tensor)) :=
  [ ("8bit_u8", BitPack.unpack_8bit_u8);
    ("4bit_u8", BitPack.unpack_4bit_u8);
    ("3bit_32", BitPack.unpack_3bit_32);
    ("2bit_u8", BitPack.unpack_2bit_u8);
    ("1bit_u8", BitPack.unpack_1bit_u8) ].

Definition unpack_view_dtype : list (string * dtype) :=
  [ ("8bit_u8", uint8);
    ("4bit_u8", uint8);
    ("3bit_32", int32);
    ("2bit_u8", uint8);
    ("1bit_u8", uint8) ].

Definition table_num {V} (k : Q) (tbl : list (Q * V)) : result V :=
  match lookup_num k tbl with
  | Some v => Ok v
  | None => Raise (KeyError "nbits")
  end.

Definition table_str {V} (k : string) (tbl : list (string * V)) : result V :=
  match lookup_str k tbl with
  | Some v => Ok v
  | None => Raise (KeyError k)
  end.

(** The arguments of [quantize] after [tensor]; [device] only names where the
    tensors are placed and is left out. *)
Record Args : Type := mkArgs {
  nbits : Q;
  channel_wise : bool;
  group_size : option nat;
  optimize : bool;
  round_zero : bool;
  axis : Z;
  bitpack : bool;
  compute_dtype : option dtype;
  view_as_float : bool
}.

Definition default_args : Args :=
  mkArgs 4 true (Some 64%nat) true false 0%Z true None false.

(** [round(2**nbits - 1)] without rounding error.  For [nbits = p / q] the
    integer nearest to [2**nbits] is the largest [n] with
    [(2n - 1)^q <= 2^(p + q)]; no power of two with a rational exponent lies
    halfway between two integers. *)
Fixpoint nearest_pow2 (fuel : nat) (p : Z) (q : positive) (n : Z) : Z :=
  match fuel with
  | O => n
  | S fuel' =>
      if Z.leb ((2 * (n + 1) - 1) ^ Zpos q) (2 ^ (p + Zpos q))
      then nearest_pow2 fuel' p q (n + 1)%Z
      else n
  end.

Definition max_value (nbits : Q) : Z :=
  (nearest_pow2 (S (Z.to_nat (2 ^ Qceiling nbits))) (Qnum nbits) (Qden nbits) 0
   - 1)%Z.

Definition py_opt_nat (g : option nat) : value :=
  match g with
  | Some n => VInt (Z.of_nat n)
  | None => VNone
  end.

Section WithOptimizer.

(** The class attribute [Quantizer.optimize_weights]. *)
Variable optimize_weights :
  Tensor -> Tensor -> Tensor -> Q * Q -> Z ->
  result (Tensor * Tensor * Tensor).

(** Lines 104-110: reshape for grouping. *)
Definition regroup (a : Args) (W : Tensor) : result Tensor :=
  match group_size a with
  | Some g =>
      if channel_wise a
      then (if Z.eqb (axis a) 1
            then Torch.reshape_rows_of g W
            else Torch.reshape_cols_of g W)
      else Ok W
  | None => Ok W
  end.

(** Lines 112-118: minimum, maximum, and whether the solver still runs. *)
Definition min_max (a : Args) (W : Tensor)
  : result (Tensor * Tensor * bool) :=
  if negb (channel_wise a) then
    mn <- Torch.min_all W ;;
    mx <- Torch.max_all W ;;
    Ok (mn, mx, false)
  else
    mn <- Torch.min_axis (axis a) W ;;
    mx <- Torch.max_axis (axis a) W ;;
    Ok (mn, mx, optimize a).

(** Lines 125-129: the inverse scale and the zero-point. *)
Definition scale_zero (max_v : Z) (_min _max : Tensor)
  : result (Tensor * Tensor) :=
  denom <- Torch.sub _max _min ;;
  scale <- Torch.rdiv (inject_Z max_v) denom ;;
  adenom <- Torch.abs denom ;;
  small <- Torch.le_scalar (1 # 10000) adenom ;;
  scale <- Torch.where_ small (Torch.full_like scale 1) scale ;;
  scale <- Torch.clamp_max 20000 scale ;;
  nmin <- Torch.neg _min ;;
  zero <- Torch.mul nmin scale ;;
  Ok (scale, zero).

(** Lines 131-146: the codes, with the scale and zero they belong to. *)
Definition codes (a : Args) (opt : bool) (max_v : Z) (W scale zero : Tensor)
  : result (Tensor * Tensor * Tensor) :=
  zero <- (if round_zero a then Torch.round zero else Ok zero) ;;
  if opt then
    optimize_weights W scale zero (0, inject_Z max_v) (axis a)
  else
    ws <- Torch.mul W scale ;;
    y <- Torch.add ws zero ;;
    r <- Torch.round y ;;
    W_q <- Torch.clamp 0 (inject_Z max_v) r ;;
    Ok (W_q, scale, zero).

Definition check_args (tensor : Tensor) (a : Args) : result unit :=
  _ <- assert (existsb (Qeq_bool (nbits a)) SUPPORTED_BITS)
         "nbits not supported." ;;
  _ <- assert (Z.eqb (axis a) 0 || Z.eqb (axis a) 1)
         "axis should be either 0 or 1" ;;
  match group_size a with
  | Some g =>
      assert (is_divisible (numel tensor) g)
        "group_size should be divisble by the total tensor dimensions."
  | None => Ok tt
  end.

(** Lines 89-110: the tensor the minimum and maximum are taken of. *)
Definition grouped (tensor : Tensor) (a : Args) : result Tensor :=
  _ <- check_args tensor a ;;
  W <- Torch.float tensor ;;
  regroup a W.

(** Lines 89-146: the internal code tensor [W_q] before packing, with the
    inverse scale and the zero. *)
Definition internal (tensor : Tensor) (a : Args)
  : result (Tensor * Tensor * Tensor) :=
  W <- grouped tensor a ;;
  '(_min, _max, opt) <- min_max a W ;;
  let max_v := max_value (nbits a) in
  '(scale, zero) <- scale_zero max_v _min _max ;;
  codes a opt max_v W scale zero.

Definition quantize (tensor : Tensor) (a : Args) : result (Tensor * dict) :=
  '(W_q, scale, zero) <- internal tensor a ;;
  scale <- Torch.rdiv 1 scale ;;
  packing <- table_num (nbits a) bit_to_packing ;;
  let meta :=
    [ ("nbits", VNum (nbits a));
      ("group_size", py_opt_nat (group_size a));
      ("shape", VShape (shape tensor));
      ("scale", VTensor scale);
      ("zero", VTensor zero);
      ("axis", VInt (axis a));
      ("packing", VStr packing) ] in
  view_dtype <- table_str packing unpack_view_dtype ;;
  let meta := Dict.set "unpack_view_dtype" (VDtype view_dtype) meta in
  let meta := Dict.set "view_as_float" (VBool (view_as_float a)) meta in
  if bitpack a then
    packer <- table_str packing pack ;;
    W_q <- packer W_q ;;
    W_q <- (if view_as_float a
            then Torch.view_dtype
                   (match compute_dtype a with
                    | None => float32
                    | Some d => d
                    end) W_q
            else Ok W_q) ;;
    Ok (W_q, meta)
  else
    W_q <- Torch.to (t_dtype tensor) W_q ;;
    Ok (W_q, Dict.set "packing" VNone meta).

End WithOptimizer.

Definition dtype_of (v : value) : result dtype :=
  match v with
  | VDtype d => Ok d
  | _ => Raise (TypeError "a dtype is expected")
  end.

Definition shape_of (v : value) : result (list nat) :=
  match v with
  | VShape s => Ok s
  | _ => Raise (TypeError "a shape is expected")
  end.

(** [s[i]] *)
Definition dim (s : list nat) (i : nat) : result Z :=
  match nth_error s i with
  | Some n => Ok (Z.of_nat n)
  | None => Raise (IndexError "tuple index out of range")
  end.

(** The bound of the slice on line 190-194. *)
Definition trim_bound (meta : dict) : result (option Z) :=
  ax <- Dict.item "axis" meta ;;
  if eq_num ax 0 then
    g <- Dict.item "group_size" meta ;;
    match g with
    | VInt z => Ok (Some z)
    | VNone => Ok None
    | _ => Raise (TypeError "slice indices must be integers or None")
    end
  else
    sv <- Dict.item "shape" meta ;;
    s <- shape_of sv ;;
    s0 <- dim s 0 ;;
    s1 <- dim s 1 ;;
    g <- Dict.item "group_size" meta ;;
    match g with
    | VInt z =>
        if Z.eqb z 0 then Raise ZeroDivisionError
        else Ok (Some ((s0 * s1) / z)%Z)
    | _ => Raise (TypeError "unsupported operand type(s) for //")
    end.

Definition get_compute_dtype (meta : dict) : result dtype :=
  if Dict.mem "compute_dtype" meta
  then (v <- Dict.item "compute_dtype" meta ;; dtype_of v)
  else Ok float16.

(** Lines 184-196: the code tensor [W_r] the reconstruction starts from. *)
Definition unpacked (W_q : Tensor) (meta : dict) : result Tensor :=
  compute_dtype <- get_compute_dtype meta ;;
  packing <- Dict.item "packing" meta ;;
  packed <- truthy packing ;;
  if packed then
    vf <- Dict.item "view_as_float" meta ;;
    viewed <- truthy vf ;;
    W_q <- (if viewed
            then (v <- Dict.item "unpack_view_dtype" meta ;;
                  d <- dtype_of v ;;
                  Torch.view_dtype d W_q)
            else Ok W_q) ;;
    unpacker <- match packing with
                | VStr p => table_str p unpack
                | _ => Raise (KeyError "packing")
                end ;;
    W_r <- unpacker W_q compute_dtype ;;
    nb <- Dict.item "nbits" meta ;;
    if eq_num nb 3 then
      bound <- trim_bound meta ;;
      Torch.take_rows bound W_r
    else Ok W_r
  else
    Torch.to compute_dtype W_q.

(** Line 183-198.  Main dequantization:
    bit_unpacking > (W_q - z)*s > reshape. *)
Definition dequantize (W_q : Tensor) (meta : dict) : result Tensor :=
  W_r <- unpacked W_q meta ;;
  zero <- Dict.tensor "zero" meta ;;
  d <- Torch.sub W_r zero ;;
  scale <- Dict.tensor "scale" meta ;;
  m <- Torch.mul d scale ;;
  sv <- Dict.item "shape" meta ;;
  s <- shape_of sv ;;
  Torch.reshape s m.

Definition convert (compute_dtype : dtype) (t : Tensor) : result Tensor :=
  if is_floating_point (t_dtype t) then Torch.to compute_dtype t else Ok t.

(** The loop over the keys of [meta] in [to_inplace] and [to_ooplace]. *)
Fixpoint convert_all (compute_dtype : dtype) (meta : dict) : result dict :=
  match meta with
  | [] => Ok []
  | (k, v) :: meta' =>
      v' <- match v with
            | VTensor t =>
                t' <- convert compute_dtype t ;; Ok (VTensor t')
            | VStack a b =>
                a' <- convert compute_dtype a ;;
                b' <- convert compute_dtype b ;;
                Ok (VStack a' b')
            | _ => Ok v
            end ;;
      rest <- convert_all compute_dtype meta' ;;
      Ok ((k, v') :: rest)
  end.

Definition to_inplace (W_q : option Tensor) (meta : dict)
  : result (option Tensor * dict) :=
  compute_dtype <- get_compute_dtype meta ;;
  meta' <- convert_all compute_dtype meta ;;
  Ok (W_q, meta').

Definition to_ooplace (W_q : option Tensor) (meta : dict)
  : result (option Tensor * dict) :=
  compute_dtype <- get_compute_dtype meta ;;
  meta_c <- convert_all compute_dtype meta ;;
  Ok (W_q, meta_c).

Definition cuda := to_inplace.
Definition cpu := to_ooplace.

End Quantizer.

(** ** The linear layer *)

Module HQQLinear.

Inductive HQQBackend : Type :=
| PYTORCH
| PYTORCH_COMPILE
| ATEN
| PYTORCH_FORWARD
| PYTORCH_FORWARD_COMPILE
| ATEN_FORWARD
| ATEN_FORWARD_INT8.

Definition backend_value (b : HQQBackend) : string :=
  match b with
  | PYTORCH => "forward_pytorch_backprop"
  | PYTORCH_COMPILE => "forward_pytorch_backprop_compile"
  | ATEN => "forward_aten_backprop"
  | PYTORCH_FORWARD => "forward_pytorch"
  | PYTORCH_FORWARD_COMPILE => "forward_pytorch_compile"
  | ATEN_FORWARD => "forward_aten"
  | ATEN_FORWARD_INT8 => "forward_aten_int8"
  end.

(** Aliases kept for backward compatibility. *)
Definition PYTORCH_BACKPROP := PYTORCH.
Definition PYTORCH_BACKPROP_COMPILE := PYTORCH_COMPILE.
Definition ATEN_BACKPROP := ATEN.

(** [sub in s] *)
Definition contains (sub s : string) : bool :=
  match String.index 0 sub s with
  | Some _ => true
  | None => false
  end.

(** The module-level variables, the class attributes of [HQQLinear] and what
    was printed so far. *)
Record Process : Type := mkProcess {
  PRINT_ZERO_SCALE_DEPRECATED : bool;
  PRINT_ATEN_WARNING : bool;
  hqq_aten_is_available : bool;
  backend : HQQBackend;
  forward : option string;
  stdout : list string
}.

Definition start (aten : bool) : Process :=
  mkProcess true true aten PYTORCH None [].

(** Computations that read and write the process state and may raise. *)
Definition proc (A : Type) : Type := Process -> result A * Process.

Definition ret {A} (a : A) : proc A := fun p => (Ok a, p).

Definition pbind {A B} (m : proc A) (k : A -> proc B) : proc B :=
  fun p =>
    match m p with
    | (Ok a, p') => k a p'
    | (Raise e, p') => (Raise e, p')
    end.

Definition lift {A} (r : result A) : proc A := fun p => (r, p).

Declare Scope proc_scope.
Delimit Scope proc_scope with proc.
Notation "x <~ m ;; k" := (pbind m (fun x => k))
  (at level 61, m at next level, right associativity) : proc_scope.
Local Open Scope proc_scope.

(** [print(colored(text, 'yellow'))]; the colour codes are left out. *)
Definition print (text : string) : proc unit :=
  fun p =>
    (Ok tt,
     mkProcess (PRINT_ZERO_SCALE_DEPRECATED p) (PRINT_ATEN_WARNING p)
       (hqq_aten_is_available p) (backend p) (forward p)
       (stdout p ++ [text])).

Definition set_PRINT_ZERO_SCALE_DEPRECATED (b : bool) : proc unit :=
  fun p =>
    (Ok tt,
     mkProcess b (PRINT_ATEN_WARNING p) (hqq_aten_is_available p)
       (backend p) (forward p) (stdout p)).

Definition set_PRINT_ATEN_WARNING (b : bool) : proc unit :=
  fun p =>
    (Ok tt,
     mkProcess (PRINT_ZERO_SCALE_DEPRECATED p) b (hqq_aten_is_available p)
       (backend p) (forward p) (stdout p)).

Definition select_backend (b : HQQBackend) : proc unit :=
  fun p =>
    (Ok tt,
     mkProcess (PRINT_ZERO_SCALE_DEPRECATED p) (PRINT_ATEN_WARNING p)
       (hqq_aten_is_available p) b (Some (backend_value b)) (stdout p)).

Definition zero_scale_warning : string :=
  "Warning: Quantizing zeros/scales is deprecated. This setting will be ignored.".

Definition aten_missing_warning : string :=
  "ATEN/CUDA backend not availabe. Make sure you install the hqq_aten library.".

Definition aten_warning : string :=
  "Warning: the ATEN/CUDA backend only supports axis=0 and GPU runtime.".

Definition set_backend (b : HQQBackend) : proc unit :=
  fun p =>
    if contains "aten" (backend_value b) && PRINT_ATEN_WARNING p then
      if negb (hqq_aten_is_available p) then print aten_missing_warning p
      else (_ <~ print aten_warning ;;
            _ <~ set_PRINT_ATEN_WARNING false ;;
            select_backend b) p
    else select_backend b p.

(** The dense layer that is replaced: [torch.nn.Linear]. *)
Record Linear : Type := mkLinear {
  in_features : nat;
  out_features : nat;
  weight : Tensor;
  linear_bias : option Tensor
}.

(** The attributes of an [HQQLinear] object.  [axis] and [channel_wise] are
    set to [None] by the constructor and never written again; they are left
    out. *)
Record Layer : Type := mkLayer {
  ready : bool;
  in_gpu : bool;
  bias : option Tensor;
  device : string;
  compute_dtype : dtype;
  quant_config : value;
  del_orig : bool;
  offload_meta : value;
  linear_layer : option Linear;
  W_q : option Tensor;
  meta : option dict;
  encoded_state_dict : bool;
  features : option (nat * nat)
}.

Definition with_quant_config (v : value) (l : Layer) : Layer :=
  mkLayer (ready l) (in_gpu l) (bias l) (device l) (compute_dtype l) v
    (del_orig l) (offload_meta l) (linear_layer l) (W_q l) (meta l)
    (encoded_state_dict l) (features l).

Definition with_bias (b : option Tensor) (l : Layer) : Layer :=
  mkLayer (ready l) (in_gpu l) b (device l) (compute_dtype l) (quant_config l)
    (del_orig l) (offload_meta l) (linear_layer l) (W_q l) (meta l)
    (encoded_state_dict l) (features l).

Definition with_linear_layer (x : option Linear) (l : Layer) : Layer :=
  mkLayer (ready l) (in_gpu l) (bias l) (device l) (compute_dtype l)
    (quant_config l) (del_orig l) (offload_meta l) x (W_q l) (meta l)
    (encoded_state_dict l) (features l).

Definition with_features (f : nat * nat) (l : Layer) : Layer :=
  mkLayer (ready l) (in_gpu l) (bias l) (device l) (compute_dtype l)
    (quant_config l) (del_orig l) (offload_meta l) (linear_layer l) (W_q l)
    (meta l) (encoded_state_dict l) (Some f).

Definition with_quantized (w : option Tensor) (m : option dict) (l : Layer)
  : Layer :=
  mkLayer (ready l) (in_gpu l) (bias l) (device l) (compute_dtype l)
    (quant_config l) (del_orig l) (offload_meta l) (linear_layer l) w m
    (encoded_state_dict l) (features l).

Definition with_ready (b : bool) (l : Layer) : Layer :=
  mkLayer b (in_gpu l) (bias l) (device l) (compute_dtype l) (quant_config l)
    (del_orig l) (offload_meta l) (linear_layer l) (W_q l) (meta l)
    (encoded_state_dict l) (features l).

Definition on_device (dev : string) (l : Layer) : Layer :=
  mkLayer (ready l) true (bias l) dev (compute_dtype l) (quant_config l)
    (del_orig l) (offload_meta l) (linear_layer l) (W_q l) (meta l)
    (encoded_state_dict l) (features l).

Definition dict_of (v : value) : result dict :=
  match v with
  | VDict d => Ok d
  | VNone => Raise (TypeError "'NoneType' object is not subscriptable")
  | _ => Raise (TypeError "a dict is expected")
  end.

Definition is_none (v : value) : bool :=
  match v with VNone => true | _ => false end.

(** *** Keyword arguments

    [Quantizer.quantize(W, ..., **params)]: every key of [params] has to name
    a parameter that was not given already.  A value of another type than the
    parameter's annotation is not modelled and raises [TypeError]. *)

Definition with_arg (k : string) (v : value) (a : Quantizer.Args)
  : result Quantizer.Args :=
  let '(Quantizer.mkArgs nb cw gs op rz ax bp cd vf) := a in
  if String.eqb k "nbits" then
    match v with
    | VInt z => Ok (Quantizer.mkArgs (inject_Z z) cw gs op rz ax bp cd vf)
    | VNum q => Ok (Quantizer.mkArgs q cw gs op rz ax bp cd vf)
    | _ => Raise (TypeError "nbits: a number is expected")
    end
  else if String.eqb k "channel_wise" then
    match v with
    | VBool b => Ok (Quantizer.mkArgs nb b gs op rz ax bp cd vf)
    | _ => Raise (TypeError "channel_wise: a bool is expected")
    end
  else if String.eqb k "group_size" then
    match v with
    | VNone => Ok (Quantizer.mkArgs nb cw None op rz ax bp cd vf)
    | VInt z =>
        if Z.leb 0 z
        then Ok (Quantizer.mkArgs nb cw (Some (Z.to_nat z)) op rz ax bp cd vf)
        else Raise (TypeError "group_size: a size is expected")
    | _ => Raise (TypeError "group_size: a size is expected")
    end
  else if String.eqb k "optimize" then
    match v with
    | VBool b => Ok (Quantizer.mkArgs nb cw gs b rz ax bp cd vf)
    | _ => Raise (TypeError "optimize: a bool is expected")
    end
  else if String.eqb k "round_zero" then
    match v with
    | VBool b => Ok (Quantizer.mkArgs nb cw gs op b ax bp cd vf)
    | _ => Raise (TypeError "round_zero: a bool is expected")
    end
  else if String.eqb k "axis" then
    match v with
    | VInt z => Ok (Quantizer.mkArgs nb cw gs op rz z bp cd vf)
    | _ => Raise (TypeError "axis: an int is expected")
    end
  else if String.eqb k "bitpack" then
    match v with
    | VBool b => Ok (Quantizer.mkArgs nb cw gs op rz ax b cd vf)
    | _ => Raise (TypeError "bitpack: a bool is expected")
    end
  else if String.eqb k "view_as_float" then
    match v with
    | VBool b => Ok (Quantizer.mkArgs nb cw gs op rz ax bp cd b)
    | _ => Raise (TypeError "view_as_float: a bool is expected")
    end
  else if String.eqb k "compute_dtype" || String.eqb k "device"
          || String.eqb k "tensor" then
    Raise (TypeError "got multiple values for keyword argument")
  else Raise (TypeError "got an unexpected keyword argument").

Fixpoint with_kwargs (given : list string) (kw : dict) (a : Quantizer.Args)
  : result Quantizer.Args :=
  match kw with
  | [] => Ok a
  | (k, v) :: kw' =>
      if existsb (String.eqb k) given
      then Raise (TypeError "got multiple values for keyword argument")
      else (a' <- with_arg k v a ;; with_kwargs given kw' a')%result
  end.

Section WithOptimizer.

Variable optimize_weights :
  Tensor -> Tensor -> Tensor -> Q * Q -> Z ->
  result (Tensor * Tensor * Tensor).

Local Open Scope result_scope.

(** [torch.stack((a, b))] *)
Definition stack (a b : Tensor) : result value :=
  if list_eq_dec Nat.eq_dec (shape a) (shape b)
  then Ok (VStack a b)
  else Raise (RuntimeError "stack expects each tensor to be equal size").

(** [Quantizer.quantize(t, device=..., <given>, **params)] followed by the
    two assignments [meta[q_key], meta[meta_key] = ...], [del meta[key]]
    and [meta[meta_key]["compute_dtype"] = compute_dtype] of lines
    809-827. *)
Definition quantize_meta_tensor (compute_dtype : dtype)
  (key q_key meta_key : string) (params : value) (meta : dict)
  : result dict :=
  t <- Dict.tensor key meta ;;
  kw <- dict_of params ;;
  a <- with_kwargs ["view_as_float"; "device"; "tensor"] kw
         (Quantizer.mkArgs 4 true (Some 64%nat) true false 0%Z true None
            false) ;;
  '(t_q, t_meta) <- Quantizer.quantize optimize_weights t a ;;
  let meta := Dict.set q_key (VTensor t_q) meta in
  let meta := Dict.remove key meta in
  Ok (Dict.set meta_key
        (VDict (Dict.set "compute_dtype" (VDtype compute_dtype) t_meta))
        meta).

(** One of the two symmetric parts of lines 522-544 of [cuda]. *)
Definition cuda_meta_tensor (flag key q_key meta_key : string) (meta : dict)
  : result dict :=
  fv <- Dict.item flag meta ;;
  quantized <- truthy fv ;;
  if quantized then
    if Dict.mem q_key meta then
      qv <- Dict.tensor q_key meta ;;
      mv <- Dict.item meta_key meta ;;
      m <- dict_of mv ;;
      '(q', m') <- Quantizer.cuda (Some qv) m ;;
      let meta := match q' with
                  | Some t => Dict.set q_key (VTensor t) meta
                  | None => Dict.set q_key VNone meta
                  end in
      Ok (Dict.set meta_key (VDict m') meta)
    else
      mv <- Dict.item meta_key meta ;;
      m <- dict_of mv ;;
      '(_, m') <- Quantizer.cuda None m ;;
      Ok (Dict.set meta_key (VDict m') meta)
  else if Dict.mem key meta then
    t <- Dict.tensor key meta ;;
    Ok (Dict.set key (VTensor t) meta)
  else Ok meta.

(** Lines 551-566 of [cuda]: zero and scale packed together. *)
Definition offload (compute_dtype : dtype) (meta : dict) : result dict :=
  meta <-
    (if negb (Dict.mem "zero_scale" meta) then
       qs <- Dict.item "quant_scale" meta ;;
       bs <- truthy qs ;;
       both <- (if bs
                then (qz <- Dict.item "quant_zero" meta ;; truthy qz)
                else Ok false) ;;
       if both then
         z <- Dict.tensor "zero_q" meta ;;
         s <- Dict.tensor "scale_q" meta ;;
         zs <- stack z s ;;
         let meta := Dict.set "zero_scale" zs meta in
         Ok (Dict.remove "zero_q" (Dict.remove "scale_q" meta))
       else
         z <- Dict.tensor "zero" meta ;;
         s <- Dict.tensor "scale" meta ;;
         _ <- stack z s ;;
         z' <- Torch.to compute_dtype z ;;
         s' <- Torch.to compute_dtype s ;;
         let meta := Dict.set "zero_scale" (VStack z' s') meta in
         Ok (Dict.remove "zero" (Dict.remove "scale" meta))
     else Ok meta) ;;
  zs <- Dict.item "zero_scale" meta ;;
  Ok (Dict.set "zero_scale" zs meta).

(** Lines 514-582. *)
Definition cuda (self : Layer) (dev : string) : result Layer :=
  meta <- match meta self with
          | Some m => Ok m
          | None =>
              Raise (TypeError
                       "'NoneType' object does not support item assignment")
          end ;;
  let meta := Dict.set "compute_dtype" (VDtype (compute_dtype self)) meta in
  '(W_q, meta) <- Quantizer.cuda (W_q self) meta ;;
  meta <- cuda_meta_tensor "quant_zero" "zero" "zero_q" "meta_zero" meta ;;
  meta <- cuda_meta_tensor "quant_scale" "scale" "scale_q" "meta_scale"
            meta ;;
  off <- truthy (offload_meta self) ;;
  meta <- (if off then offload (compute_dtype self) meta else Ok meta) ;;
  b <- match bias self with
       | Some t => (t' <- Torch.to (compute_dtype self) t ;; Ok (Some t'))
       | None => Ok None
       end ;;
  Ok (on_device dev (with_bias b (with_quantized W_q (Some meta) self))).

(** [W.t().shape] unpacked into two names. *)
Definition transposed_shape (W : Tensor) : result (nat * nat) :=
  match shape W with
  | [r; c] => Ok (c, r)
  | _ => Raise (ValueError "not enough values to unpack")
  end.

(** Lines 788-832. *)
Definition quantize (self : Layer) (W : Tensor)
  (weight_quant_params scale_quant_params zero_quant_params : value)
  : result Layer :=
  let quant_scale := negb (is_none scale_quant_params) in
  let quant_zero := negb (is_none zero_quant_params) in
  f <- transposed_shape W ;;
  let self := with_features f self in
  kw <- dict_of weight_quant_params ;;
  a <- with_kwargs ["compute_dtype"; "device"; "tensor"] kw
         (Quantizer.mkArgs 4 true (Some 64%nat) true false 0%Z true
            (Some (compute_dtype self)) false) ;;
  '(W_q, meta) <- Quantizer.quantize optimize_weights W a ;;
  let meta := Dict.set "quant_scale" (VBool quant_scale) meta in
  let meta := Dict.set "quant_zero" (VBool quant_zero) meta in
  meta <- (if quant_zero
           then quantize_meta_tensor (compute_dtype self)
                  "zero" "zero_q" "meta_zero" zero_quant_params meta
           else Ok meta) ;;
  meta <- (if quant_scale
           then quantize_meta_tensor (compute_dtype self)
                  "scale" "scale_q" "meta_scale" scale_quant_params meta
           else Ok meta) ;;
  self <- cuda (with_quantized (Some W_q) (Some meta) self) (device self) ;;
  Ok (with_ready true self).

(** [self.quantize(W, **self.quant_config)]: the three parameters are
    required and no other keyword is accepted. *)
Definition quantize_kwargs (self : Layer) (W : Tensor) (quant_config : dict)
  : result Layer :=
  let names :=
    ["weight_quant_params"; "scale_quant_params"; "zero_quant_params"] in
  if negb (forallb (fun kv => existsb (String.eqb (fst kv)) names)
             quant_config)
  then Raise (TypeError "got an unexpected keyword argument")
  else
    match Dict.get "weight_quant_params" quant_config,
          Dict.get "scale_quant_params" quant_config,
          Dict.get "zero_quant_params" quant_config with
    | Some w, Some s, Some z => quantize self W w s z
    | _, _, _ => Raise (TypeError "missing required positional argument")
    end.

Local Open Scope proc_scope.

(** Lines 434-438: the deprecated settings are reported once per process
    and overwritten with [None]. *)
Definition drop_deprecated (quant_config : dict) : proc dict :=
  _ <~ (fun p =>
          if PRINT_ZERO_SCALE_DEPRECATED p
          then (_ <~ print zero_scale_warning ;;
                set_PRINT_ZERO_SCALE_DEPRECATED false) p
          else (Ok tt, p)) ;;
  ret (Dict.set "zero_quant_params" VNone
         (Dict.set "scale_quant_params" VNone quant_config)).

(** Lines 440-446: [group_size == None] is replaced by the layer's width
    along the axis. *)
Definition default_group_size (lin : Linear) (quant_config : dict)
  : result dict :=
  (wv <- Dict.item "weight_quant_params" quant_config ;;
   w <- dict_of wv ;;
   g <- Dict.item "group_size" w ;;
   if is_none g then
     ax <- Dict.item "axis" w ;;
     let n := if eq_num ax 1 then in_features lin else out_features lin in
     Ok (Dict.set "weight_quant_params"
           (VDict (Dict.set "group_size" (VInt (Z.of_nat n)) w))
           quant_config)
   else Ok quant_config)%result.

(** Lines 440-462: the layer is quantized with the settings that are left. *)
Definition quantize_linear (self : Layer) (lin : Linear) (quant_config : dict)
: result Layer :=
(qc <- default_group_size lin quant_config ;;
let self := with_quant_config (VDict qc) self in
self <- quantize_kwargs self (weight lin) qc ;;
b <- match linear_bias lin with
| None => Ok None
| Some t => (t' <- Torch.to (compute_dtype self) t ;; Ok (Some t'))
end ;;
let self := with_bias b self in
Ok (if del_orig self then with_linear_layer None self else self))%result.

(** Lines 430-462. *)
Definition initialize (self : Layer) : proc Layer :=
match linear_layer self with
| None => ret self
| Some lin =>
qc <~ lift (dict_of (quant_config self)) ;;
sq <~ lift (Dict.item "scale_quant_params" qc) ;;
deprecated <~
(if negb (is_none sq) then ret true
else (zq <~ lift (Dict.item "zero_quant_params" qc) ;;
ret (negb (is_none zq)))) ;;
qc <~ (if deprecated then drop_deprecated qc else ret qc) ;;
lift (quantize_linear self lin qc)
end.

(** Lines 390-425.  [quant_config] is deep-copied: the caller's dictionary
    is not touched. *)
Definition __init__ (linear_layer : option Linear) (quant_config : value)
  (del_orig : bool) (compute_dtype : dtype) (device : string)
  (init : bool) : proc Layer :=
  popped <~ lift (match quant_config with
                  | VNone => Ok (VNone, VNone)
                  | VDict d =>
                      match Dict.get "offload_meta" d with
                      | Some v => Ok (VDict (Dict.remove "offload_meta" d), v)
                      | None => Raise (KeyError "offload_meta")
                      end
                  | _ => Raise (TypeError "a dict is expected")
                  end) ;;
  _ <~ (fun p => set_backend (backend p) p) ;;
  let self :=
    mkLayer false false None device compute_dtype (fst popped) del_orig
      (snd popped) linear_layer None None true None in
  if init then initialize self else ret self.

End WithOptimizer.

(** Lines 427-428. *)
Definition is_initialized (self : Layer) : bool :=
  match W_q self, meta self with
  | Some _, Some _ => true
  | _, _ => false
  end.

(** *** Dequantization of a layer (lines 843-877)

    [dequantize] writes into [self.meta] and deletes what it wrote before it
    returns; an exception in between leaves the entries written so far.  The
    functions below return the dictionary next to the result. *)

(** Lines 849-858: zero and scale that were packed together are written back
    under their own keys; the keys written are returned.  A packed value that
    is not the stack of two tensors is not modelled and raises
    [TypeError]. *)
Definition unpack_zero_scale (meta : dict) : result (dict * list string) :=
  (if Dict.mem "zero_scale" meta then
     zs <- Dict.item "zero_scale" meta ;;
     match zs with
     | VStack a b =>
         if dtype_eqb (promote_types (t_dtype a) (t_dtype b)) uint8
         then Ok (Dict.set "scale_q" (VTensor b)
                    (Dict.set "zero_q" (VTensor a) meta),
                  ["zero_q"; "scale_q"])
         else Ok (Dict.set "scale" (VTensor b)
                    (Dict.set "zero" (VTensor a) meta),
                  ["zero"; "scale"])
     | _ => Raise (TypeError "a stack of two tensors is expected")
     end
   else Ok (meta, []))%result.

(** The right-hand side of lines 861-863 and 867-869:
    [Quantizer.dequantize(meta[q_key], meta[meta_key])] if [meta[flag]]. *)
Definition dequantize_quantized (flag q_key meta_key : string) (meta : dict)
  : result (option Tensor) :=
  (fv <- Dict.item flag meta ;;
   quantized <- truthy fv ;;
   if quantized then
     q <- Dict.tensor q_key meta ;;
     mv <- Dict.item meta_key meta ;;
     m <- dict_of mv ;;
     t <- Quantizer.dequantize q m ;;
     Ok (Some t)
   else Ok None)%result.

(** [del_keys.add(k)] on a set kept as a list. *)
Definition add_key (k : string) (keys : list string) : list string :=
  if existsb (String.eqb k) keys then keys else keys ++ [k].

(** Lines 849-877 on [W_q] and [meta]. *)
Definition dequantize_with (W_q : Tensor) (meta : dict)
  : result Tensor * dict :=
  match unpack_zero_scale meta with
  | Raise e => (Raise e, meta)
  | Ok (meta, del_keys) =>
      match dequantize_quantized "quant_zero" "zero_q" "meta_zero" meta with
      | Raise e => (Raise e, meta)
      | Ok zero =>
          let meta := match zero with
                      | Some t => Dict.set "zero" (VTensor t) meta
                      | None => meta
                      end in
          let del_keys := match zero with
                          | Some _ => add_key "zero" del_keys
                          | None => del_keys
                          end in
          match dequantize_quantized "quant_scale" "scale_q" "meta_scale"
                  meta with
          | Raise e => (Raise e, meta)
          | Ok scale =>
              let meta := match scale with
                          | Some t => Dict.set "scale" (VTensor t) meta
                          | None => meta
                          end in
              let del_keys := match scale with
                              | Some _ => add_key "scale" del_keys
                              | None => del_keys
                              end in
              match Quantizer.dequantize W_q meta with
              | Raise e => (Raise e, meta)
              | Ok W_est =>
                  (Ok W_est, fold_left (fun m k => Dict.remove k m)
                               del_keys meta)
              end
          end
      end
  end.

(** Lines 843-877. *)
Definition dequantize (self : Layer) : result Tensor * Layer :=
  if negb (ready self)
  then (Raise (AssertionError "model was not quantized"), self)
  else
    match W_q self, meta self with
    | None, _ =>
        (Raise (AttributeError
                  "'NoneType' object has no attribute 'device'"), self)
    | Some _, None =>
        (Raise (TypeError "argument of type 'NoneType' is not iterable"),
         self)
    | Some w, Some m =>
        let '(r, m') := dequantize_with w m in
        (r, with_quantized (Some w) (Some m') self)
    end.

End HQQLinear.

(** ** The configuration builder (lines 1075-1150) *)

Definition quantized_meta_warning : string :=
  "Warning: Quantized meta-data is deprecated and will be removed. It is not supported for quantized model serialization.".

Definition offload_meta_warning : string :=
  "Warning: Meta-data offloading is deprecated and will be removed. It is not supported for quantized model serialization.".

(** The settings for a quantized scale or zero. *)
Definition meta_quant_params (channel_wise : bool) (group_size : value)
  : value :=
  VDict [ ("nbits", VInt 8);
          ("channel_wise", VBool channel_wise);
          ("group_size", group_size);
          ("optimize", VBool false) ].

Definition hqq_base_quant_config (nbits : Q) (group_size : option nat)
  (quant_zero quant_scale offload_meta view_as_float : bool) (axis : Z)
  : HQQLinear.proc dict :=
  HQQLinear.pbind
    (HQQLinear.lift
       (assert (existsb (Qeq_bool nbits) Quantizer.SUPPORTED_BITS)
          "nbits value not supported. Check Quantizer.SUPPORTED_BITS."))
    (fun _ =>
  HQQLinear.pbind
    (HQQLinear.lift
       (match group_size with
        | Some g =>
            assert (is_divisible g 8)
              "Invalid group_size param: the value should be a multiple of 8."
        | None => Ok tt
        end))
    (fun _ =>
  let weight_quant_params :=
    VDict [ ("nbits", VNum nbits);
            ("channel_wise", VBool true);
            ("group_size", Quantizer.py_opt_nat group_size);
            ("optimize", VBool true);
            ("round_zero", VBool (Qeq_bool nbits 4));
            ("axis", VInt axis);
            ("view_as_float", VBool view_as_float) ] in
  HQQLinear.pbind
    (if quant_zero || quant_scale
     then HQQLinear.print quantized_meta_warning
     else HQQLinear.ret tt)
    (fun _ =>
  HQQLinear.pbind
    (if offload_meta
     then HQQLinear.print offload_meta_warning
     else HQQLinear.ret tt)
    (fun _ =>
  let quant_scale := if offload_meta then quant_zero else quant_scale in
  let scale_quant_params :=
    if quant_scale then meta_quant_params true (VInt 128) else VNone in
  let zero_quant_params :=
    if quant_zero
    then (if offload_meta then meta_quant_params true (VInt 128)
          else meta_quant_params false VNone)
    else VNone in
  HQQLinear.ret
    [ ("weight_quant_params", weight_quant_params);
      ("scale_quant_params", scale_quant_params);
      ("zero_quant_params", zero_quant_params);
      ("offload_meta", VBool offload_meta) ])))).

(** ** Definitions used in the statements *)

(** The dictionary [quantize] builds on lines 154-166. *)
Definition meta_of (a : Quantizer.Args) (tensor scale zero : Tensor)
  (packing : value) (view_dtype : dtype) : dict :=
  [ ("nbits", VNum (Quantizer.nbits a));
    ("group_size", Quantizer.py_opt_nat (Quantizer.group_size a));
    ("shape", VShape (shape tensor));
    ("scale", VTensor scale);
    ("zero", VTensor zero);
    ("axis", VInt (Quantizer.axis a));
    ("packing", packing);
    ("unpack_view_dtype", VDtype view_dtype);
    ("view_as_float", VBool (Quantizer.view_as_float a)) ].

Definition float_view (a : Quantizer.Args) : dtype :=
  match Quantizer.compute_dtype a with
  | None => float32
  | Some d => d
  end.

(** An optimizer that is never reached when [optimize] is off. *)
Definition no_optimizer (W scale zero : Tensor) (min_max : Q * Q) (axis : Z)
  : result (Tensor * Tensor * Tensor) :=
  Raise (RuntimeError "no optimizer").

(** Scenario 4 of the spec: a four by eight tensor of ones, four bits, groups
    of eight along axis 1. *)
Definition ones_4x8 : Tensor := fresh float16 false (repeat (repeat 1 8) 4).

Definition args_4bit : Quantizer.Args :=
  Quantizer.mkArgs 4 true (Some 8%nat) false false 1%Z true None false.

Definition out_of {A} (r : result A) (default : A) : A :=
  match r with
  | Ok x => x
  | Raise _ => default
  end.

Definition ones_4x8_quantized : Tensor * dict :=
  Eval vm_compute in
    out_of (Quantizer.quantize no_optimizer ones_4x8 args_4bit) (ones_4x8, []).

(** The table of C3: the packing [p] and the container type [d] of the width
    [n]. *)
Definition packing_of (n : Q) (p : string) (d : dtype) : Prop :=
  (n == 3 /\ p = "3bit_32" /\ d = int32)
  \/ ((n == 8 \/ n == 6 \/ n == 5) /\ p = "8bit_u8" /\ d = uint8)
  \/ (n == 4 /\ p = "4bit_u8" /\ d = uint8)
  \/ ((n == 2 \/ n == 158 # 100) /\ p = "2bit_u8" /\ d = uint8)
  \/ (n == 1 /\ p = "1bit_u8" /\ d = uint8).

(** Scenario 4 at every width: the four by eight tensor of ones quantized
    with bit-packing in groups of eight along axis 1. *)
Definition args_packed (n : Q) : Quantizer.Args :=
  Quantizer.mkArgs n true (Some 8%nat) false false 1%Z true None false.

Definition ones_4x8_packed (n : Q) : Tensor * dict :=
  out_of (Quantizer.quantize no_optimizer ones_4x8 (args_packed n))
    (ones_4x8, []).

(** The reading of the grouping rule without the [channel_wise] guard: a
    given [group_size] alone brings the tensor into groups. *)
Definition regroups_whenever_group_size_given : Prop :=
  forall tensor a g Wg,
    Quantizer.group_size a = Some g ->
    Quantizer.grouped tensor a = Ok Wg ->
    exists W,
      Torch.float tensor = Ok W
      /\ ((Quantizer.axis a = 0%Z -> Torch.reshape_cols_of g W = Ok Wg)
          /\ (Quantizer.axis a = 1%Z -> Torch.reshape_rows_of g W = Ok Wg)).

Definition row_0123 : Tensor := fresh float32 false [[0; 1; 2; 3]].

Definition args_global : Quantizer.Args :=
  Quantizer.mkArgs 4 false (Some 2%nat) false false 0%Z true None false.

Definition ones_4x8_internal : Tensor * Tensor * Tensor :=
  Eval vm_compute in
    out_of (Quantizer.internal no_optimizer ones_4x8 args_4bit)
      (ones_4x8, ones_4x8, ones_4x8).

(** Dequantization that skips unpacking: [W_q] is cast to the compute type
    and rescaled. *)
Definition cast_and_rescale (W_q : Tensor) (meta : dict) : result Tensor :=
  compute_dtype <- Quantizer.get_compute_dtype meta ;;
  W_r <- Torch.to compute_dtype W_q ;;
  zero <- Dict.tensor "zero" meta ;;
  d <- Torch.sub W_r zero ;;
  scale <- Dict.tensor "scale" meta ;;
  m <- Torch.mul d scale ;;
  sv <- Dict.item "shape" meta ;;
  s <- Quantizer.shape_of sv ;;
  Torch.reshape s m.

Definition args_unpacked : Quantizer.Args :=
  Quantizer.mkArgs 4 true (Some 8%nat) false false 1%Z false None false.

Definition ones_4x8_unpacked : Tensor * dict :=
  Eval vm_compute in
    out_of (Quantizer.quantize no_optimizer ones_4x8 args_unpacked)
      (ones_4x8, []).

(** The reading of the default compute type under which the reconstruction
    itself comes out in float16. *)
Definition reconstruction_in_float16_by_default : Prop :=
  forall W_q meta W_r W,
    Dict.mem "compute_dtype" meta = false ->
    Quantizer.unpacked W_q meta = Ok W_r ->
    Quantizer.dequantize W_q meta = Ok W ->
    t_dtype W_r = float16 /\ t_dtype W = float16.

(** The reading of [view_as_float] under which the float type is as wide as
    the container type. *)
Definition float_view_as_wide_as_container : Prop :=
  forall opt tensor a W_q meta,
    Quantizer.bitpack a = true ->
    Quantizer.view_as_float a = true ->
    Quantizer.quantize opt tensor a = Ok (W_q, meta) ->
    is_floating_point (t_dtype W_q) = true
    /\ bit_width (t_dtype W_q) = bit_width (t_store W_q).

Definition args_4bit_view : Quantizer.Args :=
  Quantizer.mkArgs 4 true (Some 8%nat) false false 1%Z true None true.

Definition ones_4x8_viewed : Tensor * dict :=
  Eval vm_compute in
    out_of (Quantizer.quantize no_optimizer ones_4x8 args_4bit_view)
      (ones_4x8, []).

(** The inverse scale and the zero-point of one group with minimum [mn] and
    maximum [mx], as lines 125-129 compute them. *)
Definition inv_scale (max_v : Z) (mn mx : Q) : Q :=
  let denom := mx - mn in
  let s := inject_Z max_v / denom in
  let s := if Qle_bool (Qabs denom) (1 # 10000) then 1 else s in
  Qmin s 20000.

Definition zero_point (max_v : Z) (mn mx : Q) : Q :=
  - mn * inv_scale max_v mn mx.

Definition same_dims (a b : Tensor) : Prop :=
  Forall2 (fun r r' => length r = length r') (t_rows a) (t_rows b).

(** The inverse scale with [2^nbits - 1] itself as the numerator, over the
    reals. *)
Definition inv_scale_unrounded (nbits : Q) (mn mx : Q) : R :=
  let denom := (Q2R mx - Q2R mn)%R in
  let s := ((Rpower 2 (Q2R nbits) - 1) / denom)%R in
  let s := if Rle_dec (Rabs denom) (1 / 10000) then 1%R else s in
  Rmin s 20000.

Definition scalar_tensor (q : Q) : Tensor := fresh float32 true [[q]].

(** The reading of the scale rule with [2^nbits - 1] not rounded. *)
Definition scale_numerator_is_pow2_minus_1 : Prop :=
  forall nbits mn mx s z x,
    existsb (Qeq_bool nbits) Quantizer.SUPPORTED_BITS = true ->
    Quantizer.scale_zero (Quantizer.max_value nbits)
      (scalar_tensor mn) (scalar_tensor mx) = Ok (s, z) ->
    t_rows s = [[x]] ->
    Q2R x = inv_scale_unrounded nbits mn mx.

Definition ternary_scale_zero : Tensor * Tensor :=
  Eval vm_compute in
    out_of (Quantizer.scale_zero (Quantizer.max_value (158 # 100))
              (scalar_tensor 0) (scalar_tensor 1))
      (scalar_tensor 0, scalar_tensor 0).

(** Every element of [t] lies between [lo] and [hi]. *)
Definition in_range (lo hi : Q) (t : Tensor) : Prop :=
  Forall (Forall (fun q => lo <= q /\ q <= hi)) (t_rows t).

(** The reading of the code range with [2^nbits - 1] not rounded. *)
Definition codes_bounded_by_pow2_minus_1 : Prop :=
  forall shrink tensor a codes s z,
    Quantizer.internal (Optimize.optimize_weights_proximal shrink) tensor a
    = Ok (codes, s, z) ->
    Forall (Forall (fun q =>
                      (0 <= Q2R q
                       /\ Q2R q <= Rpower 2 (Q2R (Quantizer.nbits a)) - 1)%R))
      (t_rows codes).

Definition column_012 : Tensor := fresh float32 false [[0]; [1]; [2]].

Definition args_ternary : Quantizer.Args :=
  Quantizer.mkArgs (158 # 100) true (Some 3%nat) false false 0%Z true None
    false.

Definition keep (e beta : Q) : Q := e.

Definition column_012_internal : Tensor * Tensor * Tensor :=
  Eval vm_compute in
    out_of (Quantizer.internal (Optimize.optimize_weights_proximal keep)
              column_012 args_ternary)
      (column_012, column_012, column_012).

(** *** Statements about the deprecated settings *)

Definition warnings (p : HQQLinear.Process) : nat :=
  count_occ string_dec (HQQLinear.stdout p) HQQLinear.zero_scale_warning.

(** The process after the deprecation warning was printed. *)
Definition warned (p : HQQLinear.Process) : HQQLinear.Process :=
  HQQLinear.mkProcess false (HQQLinear.PRINT_ATEN_WARNING p)
    (HQQLinear.hqq_aten_is_available p) (HQQLinear.backend p)
    (HQQLinear.forward p)
    (HQQLinear.stdout p ++ [HQQLinear.zero_scale_warning]).

Definition without_deprecated (d : dict) : dict :=
  Dict.set "zero_quant_params" VNone (Dict.set "scale_quant_params" VNone d).

(** The arguments of one construction of a layer. *)
Record Call : Type := mkCall {
  c_linear_layer : option HQQLinear.Linear;
  c_quant_config : value;
  c_del_orig : bool;
  c_compute_dtype : dtype;
  c_device : string;
  c_initialize : bool
}.

Definition construct opt (c : Call) : HQQLinear.proc HQQLinear.Layer :=
  HQQLinear.__init__ opt (c_linear_layer c) (c_quant_config c) (c_del_orig c)
    (c_compute_dtype c) (c_device c) (c_initialize c).

(** The process after a sequence of constructions, failed or not. *)
Fixpoint run_calls opt (cs : list Call) (p : HQQLinear.Process)
  : HQQLinear.Process :=
  match cs with
  | [] => p
  | c :: cs' => run_calls opt cs' (snd (construct opt c p))
  end.

(** What a construction leaves to dequantize from. *)
Definition quantized_state (r : result HQQLinear.Layer)
  : option (option Tensor * option dict * option Tensor) :=
  match r with
  | Ok l => Some (HQQLinear.W_q l, HQQLinear.meta l, HQQLinear.bias l)
  | Raise _ => None
  end.

(** The reading under which [offload_meta] is dropped like the two
    quantization settings. *)
Definition deprecated_settings_all_ignored : Prop :=
  forall opt lin d del_orig compute_dtype device p,
    quantized_state
      (fst (HQQLinear.__init__ opt (Some lin) (VDict d) del_orig
              compute_dtype device true p))
    = quantized_state
        (fst (HQQLinear.__init__ opt (Some lin)
                (VDict (Dict.set "offload_meta" VNone (without_deprecated d)))
                del_orig compute_dtype device true p)).

Definition linear_ones : HQQLinear.Linear :=
  HQQLinear.mkLinear 8 4 ones_4x8 None.

Definition weight_params : value :=
  VDict [ ("nbits", VInt 4); ("channel_wise", VBool true);
          ("group_size", VNone); ("optimize", VBool false);
          ("round_zero", VBool true); ("axis", VInt 1);
          ("view_as_float", VBool false) ].

Definition config (scale_params offload : value) : dict :=
  [ ("weight_quant_params", weight_params);
    ("scale_quant_params", scale_params);
    ("zero_quant_params", VNone);
    ("offload_meta", offload) ].

Definition meta_params : value :=
  VDict [ ("nbits", VInt 8); ("channel_wise", VBool true);
          ("group_size", VInt 128); ("optimize", VBool false) ].

(** How one step may change the deprecation flag and the count of printed
    deprecation warnings: not at all, or the flag goes from set to cleared
    and one warning is added. *)
Definition at_most_once (p p' : HQQLinear.Process) : Prop :=
  (HQQLinear.PRINT_ZERO_SCALE_DEPRECATED p'
   = HQQLinear.PRINT_ZERO_SCALE_DEPRECATED p
   /\ warnings p' = warnings p)
  \/ (HQQLinear.PRINT_ZERO_SCALE_DEPRECATED p = true
      /\ HQQLinear.PRINT_ZERO_SCALE_DEPRECATED p' = false
      /\ warnings p' = S (warnings p)).

Definition respects {A} (m : HQQLinear.proc A) : Prop :=
  forall p, at_most_once p (snd (m p)).

Definition layer_of (r : result HQQLinear.Layer * HQQLinear.Process)
  : HQQLinear.Layer :=
  out_of (fst r)
    (HQQLinear.mkLayer false false None "" float16 VNone false VNone None None
       None false None).

(** *** Statements about the codecs *)

Definition is_digit (b : nat) (z : Z) : Prop :=
  (0 <= z < 2 ^ Z.of_nat b)%Z.

(** A matrix of [n] rows of [c] elements. *)
Definition mrect {A} (n c : nat) (m : list (list A)) : Prop :=
  length m = n /\ Forall (fun r => length r = c) m.

Definition mall {A} (P : A -> Prop) (m : list (list A)) : Prop :=
  Forall (Forall P) m.

(** The rows hold codes of [b] bits. *)
Definition code_rows (b : nat) (rows : list (list Q)) : Prop :=
  mall (fun q => exists k, q = inject_Z k /\ is_digit b k) rows.

(** Modelled from the spec: the table of §4.1, bits per code and codes per
    container element of every packing. *)
Definition layout : list (string * (nat * nat)) :=
  [ ("8bit_u8", (8, 1));
    ("4bit_u8", (4, 2));
    ("3bit_32", (3, 10));
    ("2bit_u8", (2, 4));
    ("1bit_u8", (1, 8)) ]%nat.

(** Rows of padding that packing [rows] rows into [r] stripes adds. *)
Definition padding (r rows : nat) : nat := (r * ((rows + r - 1) / r) - rows)%nat.

Definition padded (r : nat) (t : Tensor) : list (list Q) :=
  t_rows t ++ repeat (repeat 0 (row_len t)) (padding r (n_rows t)).

(** [Y] is a scalar, a row or a column that broadcasts against the rows [W];
    [Zf] pairs every element of [W] with the element of [Y] it meets. *)
Definition broadcasts {T} (W : list (list Q)) (Y : list (list T))
  (Zf : list (list (Q * T))) : Prop :=
  (exists y, Y = [[y]] /\ Zf = map (map (fun w => (w, y))) W)
  \/ (exists yr,
         Y = [yr]
         /\ Forall (fun a => length a = length yr) W
         /\ Zf = map (fun a => map2 pair a yr) W)
  \/ (exists ys,
         Y = map (fun y => [y]) ys
         /\ length ys = length W
         /\ Zf = map2 (fun a y => map (fun w => (w, y)) a) W ys).

(** *** Statements about reconstruction *)

Definition same_values (a b : Tensor) : Prop :=
  Forall2 (Forall2 Qeq) (t_rows a) (t_rows b).

(** *** Statements about the backend switch *)

(** The test [["aten" in backend.value]] of [set_backend]. *)
Definition is_aten (b : HQQLinear.HQQBackend) : bool :=
  HQQLinear.contains "aten" (HQQLinear.backend_value b).

(** [HQQLinear.set_backend(b)] for every [b] of [bs], in order. *)
Fixpoint set_backends (bs : list HQQLinear.HQQBackend) (p : HQQLinear.Process)
  : HQQLinear.Process :=
  match bs with
  | [] => p
  | b :: bs' => set_backends bs' (snd (HQQLinear.set_backend b p))
  end.

(** *** Statements about the constructed layer *)

(** Values that are no tensors: [to_inplace] leaves them as they are. *)
Definition plain (v : value) : bool :=
  match v with
  | VTensor _ | VStack _ _ => false
  | _ => true
  end.

(** The keys of [meta] that [HQQLinear.cuda] does not write. *)
Definition untouched_by_cuda (k : string) : Prop :=
  ~ In k ["compute_dtype"; "zero"; "zero_q"; "meta_zero"; "scale"; "scale_q";
          "meta_scale"; "zero_scale"].

(** *** Statements about the dequantization of a layer *)

(** The meta of a layer after [HQQLinear.quantize] and [cuda], without
    offloading: the dictionary of [Quantizer.quantize], the two flags of line
    807 and the compute type of line 515. *)
Definition layer_meta (a : Quantizer.Args) (W scale zero : Tensor)
  (packing : value) (view_dtype cd : dtype) : dict :=
  Dict.set "compute_dtype" (VDtype cd)
    (Dict.set "quant_zero" (VBool false)
       (Dict.set "quant_scale" (VBool false)
          (meta_of a W scale zero packing view_dtype))).

(** The same with offloading: ["scale"] and ["zero"] are deleted and their
    stack is kept under ["zero_scale"] (lines 559-566). *)
Definition offloaded_meta (a : Quantizer.Args) (W zero_scale_0 zero_scale_1
  : Tensor) (packing : value) (view_dtype cd : dtype) : dict :=
  [ ("nbits", VNum (Quantizer.nbits a));
    ("group_size", Quantizer.py_opt_nat (Quantizer.group_size a));
    ("shape", VShape (shape W));
    ("axis", VInt (Quantizer.axis a));
    ("packing", packing);
    ("unpack_view_dtype", VDtype view_dtype);
    ("view_as_float", VBool (Quantizer.view_as_float a));
    ("quant_scale", VBool false);
    ("quant_zero", VBool false);
    ("compute_dtype", VDtype cd);
    ("zero_scale", VStack zero_scale_0 zero_scale_1) ].

(** The meta that [HQQLinear.quantize] hands to [cuda] (line 807). *)
Definition quantized_meta (a : Quantizer.Args) (W scale zero : Tensor)
  (packing : value) (view_dtype : dtype) : dict :=
  Dict.set "quant_zero" (VBool false)
    (Dict.set "quant_scale" (VBool false)
       (meta_of a W scale zero packing view_dtype)).

(** What the constructor passes to and gets from [Quantizer.quantize] for a
    linear layer [lin], a configuration [d] and a compute type [cd]: the
    arguments, the quantized weight and its meta. *)
Definition weight_quantization opt (lin : HQQLinear.Linear) (d : dict)
  (cd : dtype) : result (Quantizer.Args * Tensor * dict) :=
  (qc <- HQQLinear.default_group_size lin
           (without_deprecated (Dict.remove "offload_meta" d)) ;;
   w <- match Dict.get "weight_quant_params" qc with
        | Some w => Ok w
        | None => Raise (TypeError "missing required positional argument")
        end ;;
   kw <- HQQLinear.dict_of w ;;
   a <- HQQLinear.with_kwargs ["compute_dtype"; "device"; "tensor"] kw
          (Quantizer.mkArgs 4 true (Some 64%nat) true false 0%Z true
             (Some cd) false) ;;
   '(W_q, meta) <- Quantizer.quantize opt (HQQLinear.weight lin) a ;;
   Ok (a, W_q, meta))%result.

(** *** Statements about the reconstruction error *)

(** A weight paired with the minimum and the maximum of its group lies
    between them. *)
Definition bounded (z : Q * (Q * Q)) : Prop :=
  fst (snd z) <= fst z /\ fst z <= snd (snd z).

(** The inverse scale and the zero of a group with minimum and maximum [y],
    the code of a weight [fst z] of the group and what the code is decoded
    to (lines 125-146 and 197). *)
Definition sigma_of (max_v : Z) (y : Q * Q) : Q :=
  inv_scale max_v (fst y) (snd y).

Definition zeta_of (max_v : Z) (round_zero : bool) (y : Q * Q) : Q :=
  if round_zero
  then inject_Z (Torch.round_half_even (zero_point max_v (fst y) (snd y)))
  else zero_point max_v (fst y) (snd y).

Definition code_of (max_v : Z) (round_zero : bool) (z : Q * (Q * Q)) : Q :=
  Qmin (Qmax (inject_Z (Torch.round_half_even
                          (fst z * sigma_of max_v (snd z)
                           + zeta_of max_v round_zero (snd z)))) 0)
    (inject_Z max_v).

Definition decoded (max_v : Z) (round_zero : bool) (z : Q * (Q * Q)) : Q :=
  (code_of max_v round_zero z - zeta_of max_v round_zero (snd z))
  * (1 / sigma_of max_v (snd z)).

(** A tensor of weights, two bits, one group over the whole tensor, without
    bit-packing: the scale is 4/3 and the second and third weight land a
    third and two thirds of a unit away. *)
Definition row_0124 : Tensor := fresh float32 false [[0; 1; 2; 4]].

Definition args_2bit_global : Quantizer.Args :=
  Quantizer.mkArgs 2 false None false false 0%Z false None false.

(** *** Statements about validation *)

(** The three assertions of lines 89-99. *)
Definition valid_args (tensor : Tensor) (a : Quantizer.Args) : bool :=
  existsb (Qeq_bool (Quantizer.nbits a)) Quantizer.SUPPORTED_BITS
  && (Z.eqb (Quantizer.axis a) 0 || Z.eqb (Quantizer.axis a) 1)
  && match Quantizer.group_size a with
     | Some g => is_divisible (numel tensor) g
     | None => true
     end.

(** A matrix with elements. *)
Definition populated (t : Tensor) : Prop :=
  t_scalar t = false /\ readable t = true
  /\ rect (row_len t) (t_rows t)
  /\ (0 < n_rows t)%nat /\ (0 < row_len t)%nat.

(** *** Statements about moving the meta between devices *)

(** How [to_inplace] and [to_ooplace] turn a tensor of [meta] into the one
    they store (lines 206-215 and 227-236): a floating-point tensor is
    converted to the compute type, any other stays. *)
Definition retyped (cd : dtype) (t t' : Tensor) : Prop :=
  if is_floating_point (t_dtype t)
  then readable t = true
       /\ t' = fresh cd (t_scalar t) (map (map (Torch.cast cd)) (t_rows t))
  else t' = t.

(** The same for an entry of [meta]. *)
Definition moved (cd : dtype) (kv kv' : string * value) : Prop :=
  fst kv' = fst kv
  /\ match snd kv with
     | VTensor t => exists t', snd kv' = VTensor t' /\ retyped cd t t'
     | VStack a b =>
         exists a' b',
           snd kv' = VStack a' b' /\ retyped cd a a' /\ retyped cd b b'
     | v => snd kv' = v
     end.

(** *** Statements about the three-bit trimming *)

(** The reading of C2 without the [channel_wise] guard: whenever three-bit
    codes were packed with a [group_size], the trimmed tensor holds
    [group_size * (numel / group_size)] codes. *)
Definition trimmed_to_the_grouped_size : Prop :=
  forall opt tensor a g W_q meta W_r,
    Quantizer.nbits a = 3 ->
    Quantizer.bitpack a = true ->
    Quantizer.group_size a = Some g ->
    Quantizer.quantize opt tensor a = Ok (W_q, meta) ->
    Quantizer.unpacked W_q meta = Ok W_r ->
    numel W_r = (g * (numel tensor / g))%nat.

(** Three bits, groups of eight on axis 0, with and without
    [channel_wise]. *)
Definition args_3bit (channel_wise : bool) : Quantizer.Args :=
  Quantizer.mkArgs 3 channel_wise (Some 8%nat) false false 0%Z true None
    false.

Definition ones_4x8_3bit (channel_wise : bool) : Tensor * dict :=
  out_of (Quantizer.quantize no_optimizer ones_4x8 (args_3bit channel_wise))
    (ones_4x8, []).
(** * Properties *)

(** ** Basic facts *)

Lemma bind_ok {A B} (r : result A) (k : A -> result B) (b : B) :
  bind r k = Ok b -> exists a, r = Ok a /\ k a = Ok b.
Proof. destruct r as [a|e]; simpl; intros H; [eauto | discriminate]. Qed.

Lemma dtype_eqb_eq (a b : dtype) : dtype_eqb a b = true <-> a = b.
Proof. destruct a, b; simpl; split; intros H; congruence. Qed.

Lemma dtype_eqb_refl (a : dtype) : dtype_eqb a a = true.
Proof. destruct a; reflexivity. Qed.

(** ** The codecs on the examples of the layout *)

(** Scenario 1 of the spec: [pack_4bit_u8([0..7]) = [0x04, 0x15, 0x26, 0x37]]
    and unpacking returns the input. *)
Example pack_4bit_scenario :
  let codes := fresh float32 false [[0]; [1]; [2]; [3]; [4]; [5]; [6]; [7]] in
  BitPack.pack_4bit_u8 codes
    = Ok (fresh uint8 false [[4]; [21]; [38]; [55]])
  /\ bind (BitPack.pack_4bit_u8 codes)
          (fun p => BitPack.unpack_4bit_u8 p float32) = Ok codes.
Proof. split; reflexivity. Qed.

(** The four-stripe layout on sixteen codes. *)
Example pack_2bit_scenario :
  BitPack.pack_2bit_u8
    (fresh float32 false
       [[0]; [1]; [2]; [3]; [0]; [1]; [2]; [3];
        [3]; [2]; [1]; [0]; [3]; [2]; [1]; [0]])
  = Ok (fresh uint8 false [[15]; [90]; [165]; [240]]).
Proof. reflexivity. Qed.

(** ** Tactics and list lemmas *)

Ltac inv_bind H :=
  let x := fresh "x" in
  let E := fresh "E" in
  apply bind_ok in H; destruct H as [x [E H]].

Ltac inv_ok H := injection H as H; subst.

Lemma lookup_num_proper {V} (x y : Q) (tbl : list (Q * V)) :
  x == y -> Quantizer.lookup_num x tbl = Quantizer.lookup_num y tbl.
Proof.
  intros Hxy. induction tbl as [|[k v] tbl IH]; simpl; [reflexivity|].
  rewrite IH.
  destruct (Qeq_bool x k) eqn:Ex, (Qeq_bool y k) eqn:Ey; try reflexivity.
  - apply Qeq_bool_iff in Ex. rewrite Hxy in Ex.
    apply Qeq_bool_iff in Ex. congruence.
  - apply Qeq_bool_iff in Ey. rewrite <- Hxy in Ey.
    apply Qeq_bool_iff in Ey. congruence.
Qed.

Lemma supported_cases (n : Q) :
  existsb (Qeq_bool n) Quantizer.SUPPORTED_BITS = true ->
  n == 8 \/ n == 6 \/ n == 5 \/ n == 4 \/ n == 3 \/ n == 2
  \/ n == 158 # 100 \/ n == 1.
Proof.
  unfold Quantizer.SUPPORTED_BITS. simpl. intros H.
  repeat (apply orb_true_iff in H; destruct H as [H|H];
          [apply Qeq_bool_iff in H; tauto|]).
  discriminate.
Qed.

(** What a successful call of [quantize] went through. *)
Lemma quantize_inv opt tensor a W_q meta :
  Quantizer.quantize opt tensor a = Ok (W_q, meta) ->
  exists codes s z s' p d,
    Quantizer.internal opt tensor a = Ok (codes, s, z)
    /\ Torch.rdiv 1 s = Ok s'
    /\ Quantizer.lookup_num (Quantizer.nbits a) Quantizer.bit_to_packing
       = Some p
    /\ Quantizer.lookup_str p Quantizer.unpack_view_dtype = Some d
    /\ if Quantizer.bitpack a then
         meta = meta_of a tensor s' z (VStr p) d
         /\ exists packer P,
              Quantizer.lookup_str p Quantizer.pack = Some packer
              /\ packer codes = Ok P
              /\ if Quantizer.view_as_float a
                 then Torch.view_dtype (float_view a) P = Ok W_q
                 else W_q = P
       else
         meta = meta_of a tensor s' z VNone d
         /\ Torch.to (t_dtype tensor) codes = Ok W_q.
Proof.
  unfold Quantizer.quantize. intros H.
  inv_bind H. destruct x as [[codes s] z].
  inv_bind H. rename x into s'.
  inv_bind H. rename x into p.
  inv_bind H. rename x into d.
  unfold Quantizer.table_num in E1.
  destruct (Quantizer.lookup_num _ _) eqn:Ep in E1; [|discriminate].
  inv_ok E1.
  unfold Quantizer.table_str in E2.
  destruct (Quantizer.lookup_str p Quantizer.unpack_view_dtype) eqn:Ed;
    [|discriminate].
  inv_ok E2.
  exists codes, s, z, s', p, d.
  repeat (split; [assumption|]).
  destruct (Quantizer.bitpack a).
  - inv_bind H. rename x into packer.
    inv_bind H. rename x into P.
    inv_bind H. inv_ok H.
    unfold Quantizer.table_str in E1.
    destruct (Quantizer.lookup_str p Quantizer.pack) eqn:Epk; [|discriminate].
    inv_ok E1.
    split; [reflexivity|].
    exists packer, P. split; [reflexivity|]. split; [assumption|].
    destruct (Quantizer.view_as_float a); [assumption|].
    now inv_ok E3.
  - inv_bind H. inv_ok H. split; [reflexivity | assumption].
Qed.

Lemma check_args_inv tensor a :
  Quantizer.check_args tensor a = Ok tt ->
  existsb (Qeq_bool (Quantizer.nbits a)) Quantizer.SUPPORTED_BITS = true
  /\ (Quantizer.axis a = 0 \/ Quantizer.axis a = 1)%Z
  /\ match Quantizer.group_size a with
     | Some g => is_divisible (numel tensor) g = true
     | None => True
     end.
Proof.
  unfold Quantizer.check_args, assert. intros H.
  destruct (existsb _ _); [|discriminate]. simpl in H.
  destruct (Z.eqb_spec (Quantizer.axis a) 0) as [A0|A0]; simpl in H.
  - split; [reflexivity|]. split; [now left|].
    destruct (Quantizer.group_size a); [|exact I].
    destruct (is_divisible _ _); [reflexivity | discriminate].
  - destruct (Z.eqb_spec (Quantizer.axis a) 1) as [A1|A1]; simpl in H;
      [|discriminate].
    split; [reflexivity|]. split; [now right|].
    destruct (Quantizer.group_size a); [|exact I].
    destruct (is_divisible _ _); [reflexivity | discriminate].
Qed.

Lemma grouped_inv tensor a Wg :
  Quantizer.grouped tensor a = Ok Wg ->
  exists W,
    Quantizer.check_args tensor a = Ok tt
    /\ Torch.float tensor = Ok W
    /\ Quantizer.regroup a W = Ok Wg.
Proof.
  unfold Quantizer.grouped. intros H.
  inv_bind H. destruct x. inv_bind H. eauto.
Qed.

Lemma internal_inv opt tensor a r :
  Quantizer.internal opt tensor a = Ok r ->
  exists Wg mn mx o s z,
    Quantizer.grouped tensor a = Ok Wg
    /\ Quantizer.min_max a Wg = Ok (mn, mx, o)
    /\ Quantizer.scale_zero (Quantizer.max_value (Quantizer.nbits a)) mn mx
       = Ok (s, z)
    /\ Quantizer.codes opt a o (Quantizer.max_value (Quantizer.nbits a))
         Wg s z = Ok r.
Proof.
  unfold Quantizer.internal. intros H.
  inv_bind H. rename x into Wg.
  inv_bind H. destruct x as [[mn mx] o].
  inv_bind H. destruct x as [s z].
  exists Wg, mn, mx, o, s, z. auto.
Qed.

Lemma internal_checked opt tensor a r :
  Quantizer.internal opt tensor a = Ok r ->
  Quantizer.check_args tensor a = Ok tt.
Proof.
  intros H. destruct (internal_inv _ _ _ _ H) as (Wg & ? & ? & ? & ? & ? & G & _).
  destruct (grouped_inv _ _ _ G) as (W & C & _). exact C.
Qed.

(** ** Dispatch tables (C3) *)

(** C3.  The packing and the container type are a function of [nbits], for
    each of the eight supported widths: [bit_to_packing] and
    [unpack_view_dtype] send 3 to ["3bit_32"] with [int32]; 8, 6 and 5 to
    ["8bit_u8"]; 4 to ["4bit_u8"]; 2 and 1.58 to ["2bit_u8"]; 1 to
    ["1bit_u8"]; all of these with [uint8]; neither lookup fails for a
    supported width.  Every [quantize] that returns has recorded exactly
    these in [meta]: the container type under ["unpack_view_dtype"], and the
    packing under ["packing"] when [bitpack] is set ([None] otherwise). *)
Theorem packing_is_a_function_of_nbits opt :
  (forall n,
      n == 8 \/ n == 6 \/ n == 5 \/ n == 4 \/ n == 3 \/ n == 2
      \/ n == 158 # 100 \/ n == 1 ->
      existsb (Qeq_bool n) Quantizer.SUPPORTED_BITS = true
      /\ exists p d,
          Quantizer.table_num n Quantizer.bit_to_packing = Ok p
          /\ Quantizer.table_str p Quantizer.unpack_view_dtype = Ok d
          /\ packing_of n p d)
  /\ (forall tensor a W_q meta,
         Quantizer.quantize opt tensor a = Ok (W_q, meta) ->
         exists p d,
           packing_of (Quantizer.nbits a) p d
           /\ Dict.get "packing" meta
              = Some (if Quantizer.bitpack a then VStr p else VNone)
           /\ Dict.get "unpack_view_dtype" meta = Some (VDtype d)
           /\ Quantizer.lookup_num (Quantizer.nbits a)
                Quantizer.bit_to_packing = Some p
           /\ Quantizer.lookup_str p Quantizer.unpack_view_dtype = Some d).
Proof.
  split.
  - intros n Hn. unfold Quantizer.table_num, packing_of.
    destruct Hn as [C|[C|[C|[C|[C|[C|[C|C]]]]]]];
      (split;
       [ apply Qeq_bool_iff in C; cbn [existsb Quantizer.SUPPORTED_BITS];
         rewrite ?C, ?orb_true_r; reflexivity
       | rewrite (lookup_num_proper _ _ _ C); cbn;
         eexists _, _; split; [reflexivity|]; split; [reflexivity|];
         tauto ]).
  - intros tensor a W_q meta H.
    destruct (quantize_inv _ _ _ _ _ H)
      as (codes & s & z & s' & p & d & Hint & _ & Hp & Hd & Hrest).
    exists p, d.
    assert (Hs : existsb (Qeq_bool (Quantizer.nbits a))
                   Quantizer.SUPPORTED_BITS = true).
    { apply internal_checked, check_args_inv in Hint. apply Hint. }
    assert (Hget : Dict.get "packing" meta
                   = Some (if Quantizer.bitpack a then VStr p else VNone)
                   /\ Dict.get "unpack_view_dtype" meta = Some (VDtype d)).
    { destruct (Quantizer.bitpack a); destruct Hrest as [-> _];
        split; reflexivity. }
    destruct Hget as [Hg1 Hg2].
    split; [|auto].
    unfold packing_of.
    destruct (supported_cases _ Hs) as [C|[C|[C|[C|[C|[C|[C|C]]]]]]];
      rewrite (lookup_num_proper _ _ _ C) in Hp; simpl in Hp;
      inv_ok Hp; simpl in Hd; inv_ok Hd; tauto.
Qed.

Lemma packing_is_a_function_of_nbits_witness :
  Forall (fun n =>
            exists p d,
              packing_of n p d
              /\ Dict.get "packing" (snd (ones_4x8_packed n))
                 = Some (VStr p)
              /\ Dict.get "unpack_view_dtype" (snd (ones_4x8_packed n))
                 = Some (VDtype d))
    [8; 6; 5; 4; 3; 2; 158 # 100; 1].
Proof.
  repeat constructor;
    match goal with
    | |- exists p d, packing_of ?n p d /\ _ =>
        destruct (proj2 (packing_is_a_function_of_nbits no_optimizer)
                    ones_4x8 (args_packed n) (fst (ones_4x8_packed n))
                    (snd (ones_4x8_packed n)))
          as (p & d & Hc & Hp & Hd & _);
        [ vm_compute; reflexivity
        | exists p, d; split; [exact Hc|]; split; [exact Hp | exact Hd] ]
    end.
Defined.

(** ** Grouping (C8) *)

Lemma chunks_length r c (l : list Q) : length (chunks r c l) = r.
Proof. revert l. induction r; simpl; intros; [reflexivity | now rewrite IHr]. Qed.

Lemma chunks_concat r c (l : list Q) :
  length l = (r * c)%nat -> concat (chunks r c l) = l.
Proof.
  revert l. induction r as [|r IH]; simpl; intros l Hl.
  - now destruct l.
  - rewrite IH.
    + apply firstn_skipn.
    + rewrite length_skipn. lia.
Qed.

Lemma chunks_rect r c (l : list Q) :
  length l = (r * c)%nat -> rect c (chunks r c l).
Proof.
  revert l. induction r as [|r IH]; simpl; intros l Hl.
  - constructor.
  - constructor.
    + rewrite length_firstn. lia.
    + apply IH. rewrite length_skipn. lia.
Qed.

Lemma rect_concat_length c rows :
  rect c rows -> length (concat rows) = (length rows * c)%nat.
Proof.
  induction 1 as [|r rows Hr _ IH]; simpl; [reflexivity|].
  rewrite length_app, IH, Hr. reflexivity.
Qed.

Lemma chunks_of_concat c rows :
  rect c rows -> chunks (length rows) c (concat rows) = rows.
Proof.
  induction 1 as [|r rows Hr _ IH]; simpl; [reflexivity|].
  rewrite firstn_app, skipn_app, Hr, Nat.sub_diag. simpl.
  rewrite firstn_all2 by lia. rewrite skipn_all2 by lia.
  rewrite app_nil_r. simpl. now rewrite IH.
Qed.

Lemma bit_width_pos d : (0 < bit_width d)%nat.
Proof. destruct d; simpl; lia. Qed.

Lemma reshape2_inv r c t t' :
  Torch.reshape2 r c t = Ok t' ->
  numel t = (r * c)%nat
  /\ t' = mkTensor (t_dtype t) (t_store t) false
            (chunks r c (concat (t_rows t)))
  /\ n_rows t' = r
  /\ rect c (t_rows t')
  /\ concat (t_rows t') = concat (t_rows t).
Proof.
  unfold Torch.reshape2, numel. intros H.
  destruct (Nat.eqb_spec (length (concat (t_rows t))) (r * c)) as [E|E];
    [|discriminate].
  inv_ok H. unfold n_rows. simpl. rewrite chunks_length.
  repeat split; auto using chunks_rect, chunks_concat.
Qed.

Lemma float_inv tensor W :
  Torch.float tensor = Ok W ->
  W = fresh float32 (t_scalar tensor) (t_rows tensor)
  /\ readable tensor = true.
Proof.
  unfold Torch.float, Torch.to, Torch.values. intros H.
  destruct (readable tensor); simpl in H; [|discriminate].
  inv_ok H. split; [|reflexivity].
  f_equal. rewrite <- (map_id (t_rows tensor)) at 2.
  apply map_ext. intros r. apply map_id.
Qed.

Lemma fold_min_le l x :
  fold_left Qmin l x <= x /\ Forall (fun a => fold_left Qmin l x <= a) l.
Proof.
  revert x. induction l as [|a l IH]; intros x; cbn [fold_left].
  - split; [apply Qle_refl | constructor].
  - destruct (IH (Qmin x a)) as [H1 H2]. split.
    + eapply Qle_trans; [exact H1 | apply Q.le_min_l].
    + constructor; [|exact H2].
      eapply Qle_trans; [exact H1 | apply Q.le_min_r].
Qed.

Lemma fold_max_ge l x :
  x <= fold_left Qmax l x /\ Forall (fun a => a <= fold_left Qmax l x) l.
Proof.
  revert x. induction l as [|a l IH]; intros x; cbn [fold_left].
  - split; [apply Qle_refl | constructor].
  - destruct (IH (Qmax x a)) as [H1 H2]. split.
    + eapply Qle_trans; [apply Q.le_max_l | exact H1].
    + constructor; [|exact H2].
      eapply Qle_trans; [apply Q.le_max_r | exact H1].
Qed.

Lemma reduce1_min l x :
  Torch.reduce1 Qmin l = Some x -> Forall (fun a => x <= a) l.
Proof.
  destruct l as [|a l]; cbn; [discriminate|]. intros H. inv_ok H.
  destruct (fold_min_le l a). constructor; assumption.
Qed.

Lemma reduce1_max l x :
  Torch.reduce1 Qmax l = Some x -> Forall (fun a => a <= x) l.
Proof.
  destruct l as [|a l]; cbn; [discriminate|]. intros H. inv_ok H.
  destruct (fold_max_ge l a). constructor; assumption.
Qed.

Lemma reduce_all_computed f t r :
  Torch.reduce_all f t = Ok r ->
  readable t = true
  /\ exists x, Torch.reduce1 f (concat (t_rows t)) = Some x
               /\ r = fresh (t_dtype t) true [[x]].
Proof.
  unfold Torch.reduce_all, Torch.values. intros H.
  destruct (readable t); [|discriminate]. cbn [bind] in H.
  destruct (Torch.reduce1 f _) as [x|]; [|discriminate]. inv_ok H. eauto.
Qed.

Lemma reduce1_in (f : Q -> Q -> Q) l x :
  (forall a b, f a b = a \/ f a b = b) ->
  Torch.reduce1 f l = Some x -> In x l.
Proof.
  intros Hf. destruct l as [|a l]; cbn [Torch.reduce1]; [discriminate|].
  intros H. inv_ok H.
  assert (G : forall l a, In (fold_left f l a) (a :: l)).
  { clear a l. induction l as [|b l IH]; intros a; cbn [fold_left].
    - left. reflexivity.
    - destruct (IH (f a b)) as [E|I].
      + destruct (Hf a b) as [F|F].
        * left. rewrite <- E. symmetry. exact F.
        * right. left. rewrite <- E. symmetry. exact F.
      + right. right. exact I. }
  apply G.
Qed.

Lemma Qmin_choice a b : Qmin a b = a \/ Qmin a b = b.
Proof.
  unfold Qmin, GenericMinMax.gmin. destruct (a ?= b); auto.
Qed.

Lemma Qmax_choice a b : Qmax a b = a \/ Qmax a b = b.
Proof.
  unfold Qmax, GenericMinMax.gmax. destruct (a ?= b); auto.
Qed.

Lemma shape_float tensor W :
  Torch.float tensor = Ok W -> shape W = shape tensor.
Proof.
  intros F. destruct (float_inv _ _ F) as [-> Hr].
  unfold shape, n_rows, row_len, readable in *. cbn [t_scalar t_rows fresh
    t_store t_dtype].
  destruct (t_scalar tensor); [reflexivity|].
  assert (E : t_dtype tensor = t_store tensor)
    by (destruct (t_dtype tensor), (t_store tensor);
        try discriminate; reflexivity).
  rewrite E.
  rewrite !Nat.div_mul; [reflexivity| |];
    try (destruct (t_store tensor); cbn; discriminate).
Qed.

(** C8, as the code has it.  The tensor whose minimum and maximum are taken
    is the float copy of the input, regrouped only when [group_size] is given
    and [channel_wise] is set: it is then reshaped to [[group_size, -1]] for
    axis 0 ([group_size] rows of [numel / group_size] elements) and to
    [[-1, group_size]] for axis 1 ([numel / group_size] rows of [group_size]
    elements), with the elements in their order, and minimum and maximum are
    taken along [axis].  In every other case the float copy keeps the shape
    of the input; with [channel_wise] off, whether or not a [group_size] is
    given, one minimum and one maximum are taken over all elements: two
    0-dim tensors holding the least and the greatest element of the
    input. *)
Theorem regroup_when_channel_wise opt tensor a r :
  Quantizer.internal opt tensor a = Ok r ->
  exists W Wg mn mx o,
    Torch.float tensor = Ok W
    /\ Quantizer.grouped tensor a = Ok Wg
    /\ Quantizer.min_max a Wg = Ok (mn, mx, o)
    /\ concat (t_rows Wg) = concat (t_rows tensor)
    /\ match Quantizer.channel_wise a, Quantizer.group_size a with
       | true, Some g =>
           if Z.eqb (Quantizer.axis a) 0
           then Torch.reshape_cols_of g W = Ok Wg
                /\ n_rows Wg = g
                /\ rect (numel tensor / g) (t_rows Wg)
           else Torch.reshape_rows_of g W = Ok Wg
                /\ n_rows Wg = (numel tensor / g)%nat
                /\ rect g (t_rows Wg)
       | _, _ => Wg = W /\ shape Wg = shape tensor
       end
    /\ if Quantizer.channel_wise a
       then Torch.min_axis (Quantizer.axis a) Wg = Ok mn
            /\ Torch.max_axis (Quantizer.axis a) Wg = Ok mx
       else exists lo hi,
           Torch.min_all Wg = Ok mn
           /\ Torch.max_all Wg = Ok mx
           /\ Wg = W
           /\ mn = fresh float32 true [[lo]]
           /\ mx = fresh float32 true [[hi]]
           /\ In lo (concat (t_rows tensor))
           /\ In hi (concat (t_rows tensor))
           /\ Forall (fun x => lo <= x /\ x <= hi) (concat (t_rows tensor)).
Proof.
  intros H.
  destruct (internal_inv _ _ _ _ H) as (Wg & mn & mx & o & s & z & G & M & _).
  destruct (grouped_inv _ _ _ G) as (W & C & F & R).
  exists W, Wg, mn, mx, o. split; [exact F|]. split; [exact G|].
  split; [exact M|].
  pose proof (shape_float _ _ F) as HshW.
  destruct (float_inv _ _ F) as [HW Hread].
  assert (HnW : numel W = numel tensor) by (subst W; reflexivity).
  assert (HcW : concat (t_rows W) = concat (t_rows tensor))
    by (subst W; reflexivity).
  assert (HdW : t_dtype W = float32) by (subst W; reflexivity).
  clear HW.
  destruct (check_args_inv _ _ C) as (_ & Hax & _).
  unfold Quantizer.regroup in R. unfold Quantizer.min_max in M.
  destruct (Quantizer.channel_wise a) eqn:Hcw; cbn [negb] in M.
  - inv_bind M. inv_bind M. inv_ok M.
    destruct (Quantizer.group_size a) as [g|] eqn:Hg.
    + rewrite <- HcW, <- HnW.
      destruct Hax as [A|A]; rewrite A in *; simpl in *.
      * pose proof R as R'. unfold Torch.reshape_cols_of in R'.
        destruct (Nat.eqb g 0); [discriminate|].
        destruct (Nat.eqb (numel W mod g) 0); [|discriminate].
        destruct (reshape2_inv _ _ _ _ R') as (_ & _ & S1 & S2 & S3).
        auto 10.
      * pose proof R as R'. unfold Torch.reshape_rows_of in R'.
        destruct (Nat.eqb g 0); [discriminate|].
        destruct (Nat.eqb (numel W mod g) 0); [|discriminate].
        destruct (reshape2_inv _ _ _ _ R') as (_ & _ & S1 & S2 & S3).
        auto 10.
    + inv_ok R. auto 10.
  - assert (HWg : Wg = W).
    { destruct (Quantizer.group_size a); now inv_ok R. }
    subst Wg. clear R.
    inv_bind M. inv_bind M. inv_ok M.
    destruct (reduce_all_computed _ _ _ E) as (_ & lo & Hlo & ->).
    destruct (reduce_all_computed _ _ _ E0) as (_ & hi & Hhi & ->).
    rewrite HcW in Hlo, Hhi. rewrite HdW in E, E0 |- *.
    split; [exact HcW|].
    split; [destruct (Quantizer.group_size a); auto|].
    exists lo, hi.
    split; [exact E|]. split; [exact E0|].
    split; [reflexivity|]. split; [reflexivity|]. split; [reflexivity|].
    split; [exact (reduce1_in _ _ _ Qmin_choice Hlo)|].
    split; [exact (reduce1_in _ _ _ Qmax_choice Hhi)|].
    pose proof (reduce1_min _ _ Hlo) as Bl.
    pose proof (reduce1_max _ _ Hhi) as Bh.
    rewrite Forall_forall in Bl, Bh |- *. auto.
Qed.

Lemma regroup_when_channel_wise_witness :
  (exists W Wg mn mx,
      Torch.float ones_4x8 = Ok W
      /\ Quantizer.grouped ones_4x8 args_4bit = Ok Wg
      /\ Torch.reshape_rows_of 8 W = Ok Wg
      /\ n_rows Wg = 4%nat
      /\ rect 8 (t_rows Wg)
      /\ Torch.min_axis 1 Wg = Ok mn
      /\ Torch.max_axis 1 Wg = Ok mx)
  /\ (exists W mn mx,
         Torch.float row_0123 = Ok W
         /\ Quantizer.grouped row_0123 args_global = Ok W
         /\ shape W = shape row_0123
         /\ Quantizer.min_max args_global W = Ok (mn, mx, false)
         /\ mn = fresh float32 true [[0]]
         /\ mx = fresh float32 true [[3]]).
Proof.
  split.
  - destruct (regroup_when_channel_wise no_optimizer ones_4x8 args_4bit
                ones_4x8_internal)
      as (W & Wg & mn & mx & o & HF & HG & _ & _ & Hsh & Hmm).
    + vm_compute. reflexivity.
    + cbn in Hsh, Hmm. destruct Hsh as (H1 & H2 & H3).
      destruct Hmm as [H4 H5].
      exists W, Wg, mn, mx. auto 10.
  - destruct (regroup_when_channel_wise no_optimizer row_0123 args_global
                (out_of (Quantizer.internal no_optimizer row_0123
                           args_global) (row_0123, row_0123, row_0123)))
      as (W & Wg & mn & mx & o & HF & HG & HM & _ & Hsh & Hmm).
    + vm_compute. reflexivity.
    + cbn in Hsh, Hmm. destruct Hsh as [-> Hshape].
      destruct Hmm as (lo & hi & H1 & H2 & _ & H3 & H4 & _).
      exists W, mn, mx.
      split; [exact HF|]. split; [exact HG|]. split; [exact Hshape|].
      assert (Ho : o = false).
      { unfold Quantizer.min_max in HM. cbn in HM.
        rewrite H1, H2 in HM. cbn in HM. now inv_ok HM. }
      subst o. split; [exact HM|].
      unfold Torch.float, Torch.to in HF. cbn in HF. inv_ok HF.
      vm_compute in H1. inv_ok H1. vm_compute in H2. inv_ok H2.
      split; reflexivity.
Defined.

(** C8, as stated, fails: with [channel_wise] off the tensor keeps its shape
    although a [group_size] is given.  A one by four tensor with
    [group_size = 2] on axis 0 is not brought to two rows. *)
Lemma group_size_alone_does_not_regroup :
  ~ regroups_whenever_group_size_given.
Proof.
  intros Hc.
  destruct (Hc row_0123 args_global 2%nat row_0123 eq_refl eq_refl)
    as (W & F & H0 & _).
  vm_compute in F. inv_ok F.
  specialize (H0 eq_refl). vm_compute in H0. discriminate.
Qed.

(** ** Dictionaries *)

Lemma get_set_same k v (m : dict) : Dict.get k (Dict.set k v m) = Some v.
Proof.
  induction m as [|[k' v'] m IH]; cbn [Dict.get Dict.set].
  - now rewrite String.eqb_refl.
  - destruct (String.eqb_spec k k') as [->|Hk]; cbn [Dict.get].
    + now rewrite String.eqb_refl.
    + destruct (String.eqb_spec k k'); [contradiction | exact IH].
Qed.

Lemma get_set_other k k' v (m : dict) :
  k <> k' -> Dict.get k (Dict.set k' v m) = Dict.get k m.
Proof.
  intros Hne. induction m as [|[k0 v0] m IH]; cbn [Dict.get Dict.set].
  - destruct (String.eqb_spec k k'); [contradiction | reflexivity].
  - destruct (String.eqb_spec k' k0) as [->|Hk]; cbn [Dict.get].
    + destruct (String.eqb_spec k k0); [contradiction | reflexivity].
    + destruct (String.eqb_spec k k0); [reflexivity | exact IH].
Qed.

(** ** Dequantization without packing (C10) *)

Lemma unpacked_without_packing W_q meta :
  Dict.get "packing" meta = Some VNone ->
  Quantizer.unpacked W_q meta
  = (compute_dtype <- Quantizer.get_compute_dtype meta ;;
     Torch.to compute_dtype W_q).
Proof.
  intros H. unfold Quantizer.unpacked.
  destruct (Quantizer.get_compute_dtype meta); simpl; [|reflexivity].
  unfold Dict.item. rewrite H. reflexivity.
Qed.

(** C10.  With [bitpack = false], [quantize] returns the internal codes cast
    to the element type of the input and stores [None] under ["packing"];
    on that [meta], or on it with further keys such as ["compute_dtype"]
    set, [dequantize] does not unpack: it casts [W_q] to the compute type and
    applies [(W_q - zero) * scale]. *)
Theorem dequantize_without_bitpack opt tensor a W_q meta :
  Quantizer.bitpack a = false ->
  Quantizer.quantize opt tensor a = Ok (W_q, meta) ->
  (exists codes s z,
      Quantizer.internal opt tensor a = Ok (codes, s, z)
      /\ Torch.to (t_dtype tensor) codes = Ok W_q
      /\ t_dtype W_q = t_dtype tensor)
  /\ Dict.get "packing" meta = Some VNone
  /\ Quantizer.dequantize W_q meta = cast_and_rescale W_q meta
  /\ forall k v,
       k <> "packing" ->
       Quantizer.dequantize W_q (Dict.set k v meta)
       = cast_and_rescale W_q (Dict.set k v meta).
Proof.
  intros Hbp H.
  destruct (quantize_inv _ _ _ _ _ H)
    as (codes & s & z & s' & p & d & Hint & _ & _ & _ & Hrest).
  rewrite Hbp in Hrest. destruct Hrest as [-> Hto].
  assert (Hgen : forall m,
             Dict.get "packing" m = Some VNone ->
             Quantizer.dequantize W_q m = cast_and_rescale W_q m).
  { intros m Hm. unfold Quantizer.dequantize, cast_and_rescale.
    rewrite (unpacked_without_packing _ _ Hm).
    destruct (Quantizer.get_compute_dtype m); reflexivity. }
  split.
  { exists codes, s, z. repeat split; auto.
    unfold Torch.to in Hto. inv_bind Hto. now inv_ok Hto. }
  split; [reflexivity|]. split; [now apply Hgen|].
  intros k v Hk. apply Hgen.
  rewrite get_set_other by congruence. reflexivity.
Qed.

Lemma dequantize_without_bitpack_witness :
  (exists codes s z,
      Quantizer.internal no_optimizer ones_4x8 args_unpacked
      = Ok (codes, s, z)
      /\ Torch.to (t_dtype ones_4x8) codes = Ok (fst ones_4x8_unpacked)
      /\ t_dtype (fst ones_4x8_unpacked) = t_dtype ones_4x8)
  /\ Dict.get "packing" (snd ones_4x8_unpacked) = Some VNone
  /\ Quantizer.dequantize (fst ones_4x8_unpacked) (snd ones_4x8_unpacked)
     = cast_and_rescale (fst ones_4x8_unpacked) (snd ones_4x8_unpacked)
  /\ forall k v,
       k <> "packing" ->
       Quantizer.dequantize (fst ones_4x8_unpacked)
         (Dict.set k v (snd ones_4x8_unpacked))
       = cast_and_rescale (fst ones_4x8_unpacked)
           (Dict.set k v (snd ones_4x8_unpacked)).
Proof.
  apply (dequantize_without_bitpack no_optimizer ones_4x8 args_unpacked).
  - reflexivity.
  - vm_compute. reflexivity.
Defined.

(** ** The default compute type (C9) *)

Lemma to_dtype d t r : Torch.to d t = Ok r -> t_dtype r = d.
Proof. unfold Torch.to. intros H. inv_bind H. now inv_ok H. Qed.

Lemma unpack_stripes_dtype b r c t d u :
  BitPack.unpack_stripes b r c t d = Ok u -> t_dtype u = d.
Proof.
  unfold BitPack.unpack_stripes. intros H. inv_bind H.
  destruct (t_scalar t); [discriminate|].
  destruct (is_floating_point (t_dtype t)); [discriminate|].
  now inv_ok H.
Qed.

Lemma unpacker_dtype p unpacker t d u :
  Quantizer.lookup_str p Quantizer.unpack = Some unpacker ->
  unpacker t d = Ok u -> t_dtype u = d.
Proof.
  unfold Quantizer.unpack. cbn [Quantizer.lookup_str]. intros L H.
  repeat match type of L with
         | (if ?c then _ else _) = _ => destruct c
         end;
    try discriminate; inv_ok L;
    [ exact (to_dtype _ _ _ H)
    | unfold BitPack.unpack_4bit_u8, BitPack.unpack_3bit_32,
        BitPack.unpack_2bit_u8, BitPack.unpack_1bit_u8 in H;
      eapply unpack_stripes_dtype; exact H .. ].
Qed.

Lemma take_rows_dtype n t r :
  Torch.take_rows n t = Ok r -> t_dtype r = t_dtype t.
Proof.
  unfold Torch.take_rows. intros H.
  destruct (t_scalar t); [discriminate|].
  destruct n; now inv_ok H.
Qed.

(** What a successful run of lines 184-196 went through. *)
Lemma unpacked_inv W_q meta W_r :
  Quantizer.unpacked W_q meta = Ok W_r ->
  exists cd packing,
    Quantizer.get_compute_dtype meta = Ok cd
    /\ Dict.item "packing" meta = Ok packing
    /\ ((truthy packing = Ok false /\ Torch.to cd W_q = Ok W_r)
        \/ (exists p vf viewed Wv unpacker U nb,
               packing = VStr p
               /\ truthy packing = Ok true
               /\ Dict.item "view_as_float" meta = Ok vf
               /\ truthy vf = Ok viewed
               /\ (if viewed
                   then exists d,
                       Dict.item "unpack_view_dtype" meta = Ok (VDtype d)
                       /\ Torch.view_dtype d W_q = Ok Wv
                   else Wv = W_q)
               /\ Quantizer.lookup_str p Quantizer.unpack = Some unpacker
               /\ unpacker Wv cd = Ok U
               /\ Dict.item "nbits" meta = Ok nb
               /\ (if eq_num nb 3
                   then exists bound,
                       Quantizer.trim_bound meta = Ok bound
                       /\ Torch.take_rows bound U = Ok W_r
                   else W_r = U))).
Proof.
  unfold Quantizer.unpacked. intros H.
  inv_bind H. rename x into cd.
  inv_bind H. rename x into packing. inv_bind H.
  exists cd, packing. split; [assumption|]. split; [assumption|].
  destruct x; [right | left; auto].
  inv_bind H. rename x into vf.
  inv_bind H. rename x into viewed.
  inv_bind H. rename x into Wv.
  inv_bind H. rename x into unpacker.
  inv_bind H. rename x into U.
  inv_bind H. rename x into nb.
  destruct packing; try discriminate.
  unfold Quantizer.table_str in E5.
  destruct (Quantizer.lookup_str s Quantizer.unpack) eqn:L; [|discriminate].
  inv_ok E5.
  exists s, vf, viewed, Wv, unpacker, U, nb.
  repeat (split; [first [reflexivity | assumption]|]).
  split.
  { destruct viewed; [|now inv_ok E4].
    inv_bind E4. inv_bind E4. destruct x; try discriminate.
    inv_ok E8. eauto. }
  repeat (split; [first [reflexivity | assumption]|]).
  destruct (eq_num nb 3); [|now inv_ok H].
  inv_bind H. eauto.
Qed.

Lemma unpacked_dtype W_q meta W_r cd :
  Quantizer.get_compute_dtype meta = Ok cd ->
  Quantizer.unpacked W_q meta = Ok W_r ->
  t_dtype W_r = cd.
Proof.
  intros Hcd H.
  destruct (unpacked_inv _ _ _ H) as (cd' & packing & Hcd' & _ & Hcase).
  rewrite Hcd in Hcd'. inv_ok Hcd'.
  destruct Hcase as [[_ Hto]|Hp]; [now apply to_dtype in Hto|].
  destruct Hp as (p & vf & viewed & Wv & unpacker & U & nb
                  & _ & _ & _ & _ & _ & L & HU & _ & Htrim).
  pose proof (unpacker_dtype _ _ _ _ _ L HU) as HdU.
  destruct (eq_num nb 3).
  - destruct Htrim as (bound & _ & Ht). apply take_rows_dtype in Ht.
    congruence.
  - congruence.
Qed.

Lemma binary_dtype f a b r :
  Torch.binary f a b = Ok r -> t_dtype r = Torch.result_type a b.
Proof.
  unfold Torch.binary. intros H. inv_bind H. inv_bind H.
  destruct (bzip2 f x x0); [now inv_ok H | discriminate].
Qed.

Lemma reshape_dtype s m r : Torch.reshape s m = Ok r -> t_dtype r = t_dtype m.
Proof.
  unfold Torch.reshape, Torch.reshape2. intros H.
  destruct s as [|r0 [|c [|? ?]]]; try discriminate.
  - destruct (Nat.eqb (numel m) 1); [now inv_ok H | discriminate].
  - destruct (Nat.eqb (numel m) (r0 * c)); [now inv_ok H | discriminate].
Qed.

Lemma result_type_float16 a b :
  t_dtype a = float16 -> t_dtype b = float16 ->
  Torch.result_type a b = float16.
Proof.
  unfold Torch.result_type. intros -> ->.
  destruct (Bool.eqb _ _), (t_scalar b); reflexivity.
Qed.

(** C9, as the code has it.  Without a ["compute_dtype"] key the compute type
    is float16 and the codes [W_r] are produced in float16.  The
    reconstruction [(W_r - zero) * scale] has the type the runtime promotes
    float16, the type of [zero] and the type of [scale] to; it is float16
    when [zero] and [scale] are. *)
Theorem default_compute_dtype W_q meta W_r W :
  Dict.mem "compute_dtype" meta = false ->
  Quantizer.unpacked W_q meta = Ok W_r ->
  Quantizer.dequantize W_q meta = Ok W ->
  Quantizer.get_compute_dtype meta = Ok float16
  /\ t_dtype W_r = float16
  /\ exists zero scale d,
       Dict.tensor "zero" meta = Ok zero
       /\ Dict.tensor "scale" meta = Ok scale
       /\ Torch.sub W_r zero = Ok d
       /\ t_dtype d = Torch.result_type W_r zero
       /\ t_dtype W = Torch.result_type d scale
       /\ (t_dtype zero = float16 -> t_dtype scale = float16 ->
           t_dtype W = float16).
Proof.
  intros Hmem HU HD.
  assert (Hcd : Quantizer.get_compute_dtype meta = Ok float16).
  { unfold Quantizer.get_compute_dtype. now rewrite Hmem. }
  pose proof (unpacked_dtype _ _ _ _ Hcd HU) as HWr.
  split; [exact Hcd|]. split; [exact HWr|].
  unfold Quantizer.dequantize in HD. rewrite HU in HD. simpl in HD.
  inv_bind HD. rename x into zero.
  inv_bind HD. rename x into d.
  inv_bind HD. rename x into scale.
  inv_bind HD. rename x into m.
  inv_bind HD. inv_bind HD.
  exists zero, scale, d.
  pose proof (binary_dtype _ _ _ _ E0) as Hd.
  pose proof (binary_dtype _ _ _ _ E2) as Hm.
  pose proof (reshape_dtype _ _ _ HD) as Hr.
  repeat (split; [first [assumption | congruence]|]).
  intros Hz Hs. rewrite Hr, Hm.
  apply result_type_float16; [|exact Hs].
  rewrite Hd. now apply result_type_float16.
Qed.

Lemma default_compute_dtype_witness :
  Quantizer.get_compute_dtype (snd ones_4x8_quantized) = Ok float16
  /\ t_dtype
       (out_of (Quantizer.unpacked (fst ones_4x8_quantized)
                  (snd ones_4x8_quantized)) ones_4x8) = float16
  /\ exists zero scale d,
       Dict.tensor "zero" (snd ones_4x8_quantized) = Ok zero
       /\ Dict.tensor "scale" (snd ones_4x8_quantized) = Ok scale
       /\ Torch.sub
            (out_of (Quantizer.unpacked (fst ones_4x8_quantized)
                       (snd ones_4x8_quantized)) ones_4x8) zero = Ok d
       /\ t_dtype d
          = Torch.result_type
              (out_of (Quantizer.unpacked (fst ones_4x8_quantized)
                         (snd ones_4x8_quantized)) ones_4x8) zero
       /\ t_dtype
            (out_of (Quantizer.dequantize (fst ones_4x8_quantized)
                       (snd ones_4x8_quantized)) ones_4x8)
          = Torch.result_type d scale
       /\ (t_dtype zero = float16 -> t_dtype scale = float16 ->
           t_dtype
             (out_of (Quantizer.dequantize (fst ones_4x8_quantized)
                        (snd ones_4x8_quantized)) ones_4x8) = float16).
Proof.
  apply (default_compute_dtype (fst ones_4x8_quantized)
           (snd ones_4x8_quantized)).
  - reflexivity.
  - vm_compute. reflexivity.
  - vm_compute. reflexivity.
Defined.

(** C9, as stated, fails: the [meta] that [quantize] returns for a tensor of
    ones carries float32 [zero] and [scale] and no ["compute_dtype"]; the
    codes are unpacked in float16, the reconstruction is float32. *)
Lemma reconstruction_not_float16 : ~ reconstruction_in_float16_by_default.
Proof.
  intros Hc.
  destruct (Hc (fst ones_4x8_quantized) (snd ones_4x8_quantized)
              (out_of (Quantizer.unpacked (fst ones_4x8_quantized)
                         (snd ones_4x8_quantized)) ones_4x8)
              (out_of (Quantizer.dequantize (fst ones_4x8_quantized)
                         (snd ones_4x8_quantized)) ones_4x8))
    as [_ H]; try (vm_compute; reflexivity).
  vm_compute in H. discriminate.
Qed.

(** ** Float views of the packed tensor (C6) *)

Lemma pack_stripes_fresh b r c t P :
  BitPack.pack_stripes b r c t = Ok P ->
  t_dtype P = c /\ t_store P = c /\ t_scalar P = false.
Proof.
  unfold BitPack.pack_stripes. intros H. inv_bind H.
  destruct (t_scalar t); [discriminate|]. now inv_ok H.
Qed.

Lemma packer_fresh p packer d codes P :
  Quantizer.lookup_str p Quantizer.pack = Some packer ->
  Quantizer.lookup_str p Quantizer.unpack_view_dtype = Some d ->
  packer codes = Ok P ->
  t_dtype P = d /\ t_store P = d.
Proof.
  unfold Quantizer.pack, Quantizer.unpack_view_dtype.
  cbn [Quantizer.lookup_str]. intros L D H.
  repeat match type of L with
         | (if ?c then _ else _) = _ => destruct c
         end;
    try discriminate; inv_ok L; inv_ok D.
  - unfold BitPack.pack_8bit_u8, Torch.to in H. inv_bind H. now inv_ok H.
  - apply pack_stripes_fresh in H. tauto.
  - apply pack_stripes_fresh in H. tauto.
  - apply pack_stripes_fresh in H. tauto.
  - apply pack_stripes_fresh in H. tauto.
Qed.

Lemma view_dtype_inv d t v :
  Torch.view_dtype d t = Ok v ->
  v = mkTensor d (t_store t) (t_scalar t) (t_rows t).
Proof.
  unfold Torch.view_dtype. intros H.
  destruct (Nat.eqb _ 0); [now inv_ok H | discriminate].
Qed.

Lemma view_dtype_back d P v :
  t_dtype P = t_store P ->
  Torch.view_dtype d P = Ok v ->
  Torch.view_dtype (t_store P) v = Ok P.
Proof.
  intros Hfresh H. apply view_dtype_inv in H. subst v.
  unfold Torch.view_dtype, row_len. simpl.
  rewrite Nat.Div0.mod_mul. simpl.
  destruct P as [dt st sc rows]. simpl in *. now subst.
Qed.

(** C6, as the code has it.  With [bitpack] and [view_as_float] the tensor
    returned is the packed container under another type tag: the same
    storage, viewed as float32 when [compute_dtype] is [None] and as
    [compute_dtype] otherwise, whatever the width of the container type.
    [dequantize] views it back as [meta["unpack_view_dtype"]], which gives
    the container again, and goes on as for a tensor stored without the
    view. *)
Theorem view_as_float_shares_storage opt tensor a W_q meta :
  Quantizer.bitpack a = true ->
  Quantizer.view_as_float a = true ->
  Quantizer.quantize opt tensor a = Ok (W_q, meta) ->
  exists container P,
    Dict.get "unpack_view_dtype" meta = Some (VDtype container)
    /\ t_dtype P = container /\ t_store P = container
    /\ Torch.view_dtype (float_view a) P = Ok W_q
    /\ t_dtype W_q = float_view a
    /\ t_store W_q = container
    /\ t_rows W_q = t_rows P
    /\ Torch.view_dtype container W_q = Ok P
    /\ Quantizer.unpacked W_q meta
       = Quantizer.unpacked P (Dict.set "view_as_float" (VBool false) meta).
Proof.
  intros Hbp Hvf H.
  destruct (quantize_inv _ _ _ _ _ H)
    as (codes & s & z & s' & p & d & _ & _ & Hp & Hd & Hrest).
  rewrite Hbp, Hvf in Hrest.
  destruct Hrest as (-> & packer & P & Lp & HP & Hview).
  destruct (packer_fresh _ _ _ _ _ Lp Hd HP) as [HdP HsP].
  exists d, P.
  pose proof (view_dtype_inv _ _ _ Hview) as HW.
  assert (Hback : Torch.view_dtype d W_q = Ok P).
  { rewrite <- HsP. apply view_dtype_back with (d := float_view a);
      [congruence | exact Hview]. }
  split; [reflexivity|].
  repeat (split; [first [assumption | subst W_q; simpl; congruence]|]).
  unfold Quantizer.unpacked, meta_of, Quantizer.get_compute_dtype.
  rewrite Hvf. cbn.
  destruct (String.eqb_spec p "") as [->|_]; [discriminate Hd|].
  cbn. rewrite Hback. reflexivity.
Qed.

Lemma view_as_float_shares_storage_witness :
  exists container P,
    Dict.get "unpack_view_dtype" (snd ones_4x8_viewed)
    = Some (VDtype container)
    /\ t_dtype P = container /\ t_store P = container
    /\ Torch.view_dtype (float_view args_4bit_view) P
       = Ok (fst ones_4x8_viewed)
    /\ t_dtype (fst ones_4x8_viewed) = float_view args_4bit_view
    /\ t_store (fst ones_4x8_viewed) = container
    /\ t_rows (fst ones_4x8_viewed) = t_rows P
    /\ Torch.view_dtype container (fst ones_4x8_viewed) = Ok P
    /\ Quantizer.unpacked (fst ones_4x8_viewed) (snd ones_4x8_viewed)
       = Quantizer.unpacked P
           (Dict.set "view_as_float" (VBool false) (snd ones_4x8_viewed)).
Proof.
  apply (view_as_float_shares_storage no_optimizer ones_4x8 args_4bit_view).
  - reflexivity.
  - reflexivity.
  - vm_compute. reflexivity.
Defined.

(** C6, as stated, fails: four-bit codes are packed into uint8 and, without
    a [compute_dtype], viewed as float32, a type four times as wide as the
    container type. *)
Lemma float_view_wider_than_container : ~ float_view_as_wide_as_container.
Proof.
  intros Hc.
  destruct (Hc no_optimizer ones_4x8 args_4bit_view
              (fst ones_4x8_viewed) (snd ones_4x8_viewed))
    as [_ H]; try (vm_compute; reflexivity).
  vm_compute in H. discriminate.
Qed.

(** ** Elementwise operations on tensors of one shape *)

Section Images.

Context {T : Type}.

(** [t] is readable and its rows are the image of [Z] under [g]. *)
Definition img (t : Tensor) (Z : list (list T)) (g : T -> Q) : Prop :=
  readable t = true /\ t_rows t = map (map g) Z.

Lemma map2_map_same {A A' B} (f : A -> A' -> B) (g : T -> A) (h : T -> A')
  (l : list T) :
  map2 f (map g l) (map h l) = map (fun z => f (g z) (h z)) l.
Proof. induction l; simpl; [reflexivity | now rewrite IHl]. Qed.

Lemma bzip1_map_same {A A' B} (f : A -> A' -> B) (g : T -> A) (h : T -> A')
  (l : list T) :
  bzip1 f (map g l) (map h l) = Some (map (fun z => f (g z) (h z)) l).
Proof.
  unfold bzip1. rewrite !length_map, Nat.eqb_refl.
  now rewrite map2_map_same.
Qed.

Lemma bzip2_map_same {A A' B} (f : A -> A' -> B) (g : T -> A) (h : T -> A')
  (Z : list (list T)) :
  bzip2 f (map (map g) Z) (map (map h) Z)
  = Some (map (map (fun z => f (g z) (h z))) Z).
Proof.
  unfold bzip2, bzip1 at 1. rewrite !length_map, Nat.eqb_refl.
  induction Z as [|r Z IH]; simpl; [reflexivity|].
  rewrite bzip1_map_same, IH. reflexivity.
Qed.

Lemma values_img t Z g : img t Z g -> Torch.values t = Ok (map (map g) Z).
Proof. intros [Hr Hrows]. unfold Torch.values. now rewrite Hr, Hrows. Qed.

Lemma fresh_img d sc Z g : img (fresh d sc (map (map g) Z)) Z g.
Proof. split; [apply dtype_eqb_refl | reflexivity]. Qed.

Lemma binary_img f a b Z g h :
  img a Z g -> img b Z h ->
  exists r,
    Torch.binary f a b = Ok r
    /\ img r Z (fun z => f (g z) (h z))
    /\ t_scalar r = t_scalar a && t_scalar b.
Proof.
  intros Ha Hb. unfold Torch.binary.
  rewrite (values_img _ _ _ Ha), (values_img _ _ _ Hb). simpl.
  rewrite bzip2_map_same. eexists. split; [reflexivity|].
  split; [apply fresh_img | reflexivity].
Qed.

Lemma pointwise_img k a Z g :
  img a Z g ->
  exists r,
    Torch.pointwise k a = Ok r
    /\ img r Z (fun z => k (g z))
    /\ t_scalar r = t_scalar a.
Proof.
  intros Ha. unfold Torch.pointwise.
  rewrite (values_img _ _ _ Ha). simpl.
  eexists. split; [reflexivity|]. split; [|reflexivity].
  split; [apply dtype_eqb_refl|]. simpl.
  rewrite map_map. apply map_ext. intros r. now rewrite map_map.
Qed.

Lemma le_scalar_img c a Z g :
  img a Z g ->
  exists r,
    Torch.le_scalar c a = Ok r
    /\ img r Z (fun z => if Qle_bool (g z) c then 1 else 0).
Proof.
  intros Ha. unfold Torch.le_scalar.
  rewrite (values_img _ _ _ Ha). simpl.
  eexists. split; [reflexivity|].
  split; [apply dtype_eqb_refl|]. simpl.
  rewrite map_map. apply map_ext. intros r. now rewrite map_map.
Qed.

Lemma full_like_img c a Z g :
  img a Z g -> img (Torch.full_like a c) Z (fun _ => c).
Proof.
  intros [Hr Hrows]. split; [apply dtype_eqb_refl|].
  unfold Torch.full_like. simpl. rewrite Hrows.
  rewrite map_map. apply map_ext. intros r. now rewrite map_map.
Qed.

Lemma where_img c a b Z gc g h :
  img c Z gc -> img a Z g -> img b Z h ->
  exists r,
    Torch.where_ c a b = Ok r
    /\ img r Z (fun z => if Qeq_bool (gc z) 0 then h z else g z).
Proof.
  intros Hc Ha Hb. unfold Torch.where_.
  rewrite (values_img _ _ _ Hc), (values_img _ _ _ Ha),
    (values_img _ _ _ Hb). simpl.
  rewrite bzip2_map_same.
  rewrite (bzip2_map_same
             (fun (c : Q) (p : Q * Q) =>
                if Qeq_bool c 0 then snd p else fst p)
             gc (fun z => (g z, h z))).
  eexists. split; [reflexivity|]. split; [apply dtype_eqb_refl|].
  reflexivity.
Qed.

End Images.

Lemma map2_pair_fst {A B} (la : list A) (lb : list B) :
  length la = length lb -> map fst (map2 pair la lb) = la.
Proof.
  revert lb. induction la as [|a la IH]; intros [|b lb] Hl; simpl in *;
    try discriminate; [reflexivity|]. now rewrite IH by lia.
Qed.

Lemma map2_pair_snd {A B} (la : list A) (lb : list B) :
  length la = length lb -> map snd (map2 pair la lb) = lb.
Proof.
  revert lb. induction la as [|a la IH]; intros [|b lb] Hl; simpl in *;
    try discriminate; [reflexivity|]. now rewrite IH by lia.
Qed.

Lemma map_map2 {A B C D} (k : C -> D) (f : A -> B -> C) la lb :
  map k (map2 f la lb) = map2 (fun a b => k (f a b)) la lb.
Proof.
  revert lb. induction la as [|a la IH]; intros [|b lb]; simpl;
    try reflexivity. now rewrite IH.
Qed.

Lemma map2_ext {A B C} (f g : A -> B -> C) la lb :
  (forall a b, f a b = g a b) -> map2 f la lb = map2 g la lb.
Proof.
  intros H. revert lb. induction la as [|a la IH]; intros [|b lb]; simpl;
    try reflexivity. now rewrite H, IH.
Qed.

(** Two tensors of the same dimensions are the two projections of their
    matrix of pairs. *)
Lemma paired_rows {X Y} (A : list (list X)) (B : list (list Y)) :
  Forall2 (fun r r' => length r = length r') A B ->
  map (map fst) (map2 (map2 pair) A B) = A
  /\ map (map snd) (map2 (map2 pair) A B) = B.
Proof.
  induction 1 as [|ra rb A B Hl _ [IH1 IH2]]; simpl; [auto|].
  rewrite IH1, IH2, map2_pair_fst, map2_pair_snd by assumption. auto.
Qed.

Lemma map_map_map2 {X Y D} (k : X * Y -> D) (A : list (list X))
  (B : list (list Y)) :
  map (map k) (map2 (map2 pair) A B)
  = map2 (map2 (fun x y => k (x, y))) A B.
Proof.
  rewrite map_map2. apply map2_ext. intros ra rb. apply map_map2.
Qed.

(** ** The inverse scale and the zero-point (C4) *)

Lemma img_ext {T} t (Z : list (list T)) g g' :
  (forall z, g z = g' z) -> img t Z g -> img t Z g'.
Proof.
  intros He [Hr Hrows]. split; [exact Hr|]. rewrite Hrows.
  apply map_ext. intros r. now apply map_ext.
Qed.

(** Lines 125-129 on a minimum and a maximum of one shape: no exception, and
    [inv_scale] and [zero_point] at every position. *)
Lemma scale_zero_img {T} max_v mn mx (Z : list (list T)) gmn gmx :
  img mn Z gmn -> img mx Z gmx ->
  exists s z,
    Quantizer.scale_zero max_v mn mx = Ok (s, z)
    /\ img s Z (fun t => inv_scale max_v (gmn t) (gmx t))
    /\ img z Z (fun t => zero_point max_v (gmn t) (gmx t))
    /\ t_scalar s = t_scalar mx && t_scalar mn
    /\ t_scalar z = t_scalar mx && t_scalar mn.
Proof.
  intros Hmn Hmx.
  unfold Quantizer.scale_zero, Torch.sub, Torch.rdiv, Torch.abs,
    Torch.clamp_max, Torch.neg, Torch.mul.
  destruct (binary_img Qminus _ _ _ _ _ Hmx Hmn) as (denom & Ed & Hd & Sd).
  rewrite Ed. simpl.
  destruct (pointwise_img (fun x => inject_Z max_v / x) _ _ _ Hd)
    as (s0 & E0 & Hs0 & S0).
  rewrite E0. simpl.
  destruct (pointwise_img Qabs _ _ _ Hd) as (ad & Ea & Had & Sa).
  rewrite Ea. simpl.
  destruct (le_scalar_img (1 # 10000) _ _ _ Had) as (small & Es & Hsm).
  rewrite Es. simpl.
  destruct (where_img _ _ _ _ _ _ _ Hsm (full_like_img 1 _ _ _ Hs0) Hs0)
    as (s1 & E1 & Hs1).
  rewrite E1. simpl.
  destruct (pointwise_img (fun x => Qmin x 20000) _ _ _ Hs1)
    as (s & E2 & Hs & S2).
  rewrite E2. simpl.
  destruct (pointwise_img Qopp _ _ _ Hmn) as (nmin & E3 & Hn & S3).
  rewrite E3. simpl.
  assert (Hs' : img s Z (fun t => inv_scale max_v (gmn t) (gmx t))).
  { eapply img_ext; [|exact Hs]. intros t. unfold inv_scale. cbv zeta.
    destruct (Qle_bool (Qabs (gmx t - gmn t)) (1 # 10000)); reflexivity. }
  destruct (binary_img Qmult _ _ _ _ _ Hn Hs') as (z & E4 & Hz & S4).
  rewrite E4. simpl.
  assert (Ssc : t_scalar s = t_scalar mx && t_scalar mn).
  { rewrite S2.
    unfold Torch.where_ in E1.
    rewrite (values_img _ _ _ Hsm), (values_img _ _ _ Hs0) in E1.
    rewrite (values_img _ _ _ (full_like_img 1 _ _ _ Hs0)) in E1.
    simpl in E1.
    destruct (bzip2 _ _ _); [|discriminate].
    destruct (bzip2 _ _ _); [|discriminate].
    inv_ok E1. simpl.
    unfold Torch.le_scalar in Es. rewrite (values_img _ _ _ Had) in Es.
    simpl in Es. inv_ok Es. simpl. rewrite Sa, S0, Sd.
    destruct (t_scalar mx), (t_scalar mn); reflexivity. }
  exists s, z. split; [reflexivity|]. split; [exact Hs'|].
  split; [exact Hz|]. split; [exact Ssc|].
  rewrite S4, S3, Ssc. destruct (t_scalar mx), (t_scalar mn); reflexivity.
Qed.

Lemma inv_scale_zero_range max_v mn mx :
  mx == mn ->
  inv_scale max_v mn mx == 1 /\ zero_point max_v mn mx == - mn.
Proof.
  intros H.
  assert (Hs : inv_scale max_v mn mx == 1).
  { unfold inv_scale. cbv zeta.
    assert (Hle : Qle_bool (Qabs (mx - mn)) (1 # 10000) = true).
    { apply Qle_bool_iff. rewrite H.
      setoid_replace (mn - mn) with 0 by ring. discriminate. }
    rewrite Hle. apply Q.min_l. discriminate. }
  split; [exact Hs|]. unfold zero_point. rewrite Hs. ring.
Qed.

Section PowersOfTwo.

Local Open Scope R_scope.

Lemma Rpower_2_nat (n : nat) : Rpower 2 (INR n) = 2 ^ n.
Proof. apply Rpower_pow. lra. Qed.

Lemma pow_lt_inv (x y : R) (n : nat) :
  0 <= x -> 0 <= y -> x ^ n < y ^ n -> x < y.
Proof.
  intros Hx Hy H. destruct (Rlt_le_dec x y) as [L|L]; [exact L|].
  exfalso. apply (Rlt_irrefl (x ^ n)). eapply Rlt_le_trans; [exact H|].
  apply pow_incr. lra.
Qed.

Lemma Rpower_79_50 : Rpower 2 (79 / 50) ^ 50 = 2 ^ 79.
Proof.
  rewrite <- (Rpower_pow 50) by apply exp_pos.
  rewrite Rpower_mult.
  replace (79 / 50 * INR 50) with (INR 79) by (simpl; lra).
  apply Rpower_2_nat.
Qed.

(** [2^1.58 < 3], because [2^79 < 3^50]. *)
Lemma Rpower_158_lt_3 : Rpower 2 (79 / 50) < 3.
Proof.
  apply (pow_lt_inv _ _ 50); [left; apply exp_pos | lra |].
  rewrite Rpower_79_50.
  rewrite !pow_IZR. apply IZR_lt. reflexivity.
Qed.

(** [5/2 < 2^1.58], because [5^50 < 2^129]. *)
Lemma Rpower_158_gt_5_2 : 5 / 2 < Rpower 2 (79 / 50).
Proof.
  apply (pow_lt_inv _ _ 50); [lra | left; apply exp_pos |].
  rewrite Rpower_79_50.
  apply (Rmult_lt_reg_r (2 ^ 50)); [apply pow_lt; lra|].
  rewrite <- Rpow_mult_distr.
  replace (5 / 2 * 2) with 5 by lra.
  rewrite <- pow_add.
  rewrite !pow_IZR. apply IZR_lt. reflexivity.
Qed.

Lemma Q2R_158_100 : Q2R (158 # 100) = 79 / 50.
Proof. unfold Q2R. simpl. lra. Qed.

Lemma Q2R_nat (n : nat) : Q2R (inject_Z (Z.of_nat n)) = INR n.
Proof. unfold Q2R. simpl. rewrite INR_IZR_INZ. lra. Qed.

Lemma Rpower_2_integer (n : nat) :
  Rpower 2 (Q2R (inject_Z (Z.of_nat n))) - 1
  = IZR (2 ^ Z.of_nat n - 1).
Proof.
  rewrite Q2R_nat, Rpower_2_nat, minus_IZR, <- pow_IZR. reflexivity.
Qed.

(** [max_value] is [round(2**nbits - 1)]: the integer nearest to
    [2^nbits - 1], and [2^nbits - 1] itself for the integer widths. *)
Lemma max_value_nearest (nbits : Q) :
  In nbits Quantizer.SUPPORTED_BITS ->
  Rabs (Rpower 2 (Q2R nbits) - 1 - IZR (Quantizer.max_value nbits)) < 1 / 2.
Proof.
  assert (Hint : forall n : nat,
             Quantizer.max_value (inject_Z (Z.of_nat n))
             = (2 ^ Z.of_nat n - 1)%Z ->
             Rabs (Rpower 2 (Q2R (inject_Z (Z.of_nat n))) - 1
                   - IZR (Quantizer.max_value (inject_Z (Z.of_nat n))))
             < 1 / 2).
  { intros n Hn. rewrite Hn, Rpower_2_integer.
    unfold Rminus. rewrite Rplus_opp_r, Rabs_R0. lra. }
  unfold Quantizer.SUPPORTED_BITS. simpl.
  intros [<-|[<-|[<-|[<-|[<-|[<-|[<-|[<-|[]]]]]]]]].
  - apply (Hint 8%nat). reflexivity.
  - apply (Hint 6%nat). reflexivity.
  - apply (Hint 5%nat). reflexivity.
  - apply (Hint 4%nat). reflexivity.
  - apply (Hint 3%nat). reflexivity.
  - apply (Hint 2%nat). reflexivity.
  - rewrite Q2R_158_100.
    replace (Quantizer.max_value (158 # 100)) with 2%Z by reflexivity.
    pose proof Rpower_158_lt_3. pose proof Rpower_158_gt_5_2.
    apply Rabs_def1; lra.
  - apply (Hint 1%nat). reflexivity.
Qed.

Lemma max_value_integer (n : nat) :
  In (inject_Z (Z.of_nat n)) Quantizer.SUPPORTED_BITS ->
  Quantizer.max_value (inject_Z (Z.of_nat n)) = (2 ^ Z.of_nat n - 1)%Z.
Proof.
  unfold Quantizer.SUPPORTED_BITS. simpl. unfold inject_Z.
  intros [H|[H|[H|[H|[H|[H|[H|[H|[]]]]]]]]];
    try discriminate; injection H as H;
    apply (f_equal Z.to_nat) in H; rewrite Nat2Z.id in H; subst n;
    reflexivity.
Qed.

End PowersOfTwo.

(** C4, as the code has it.  The numerator of the inverse scale is
    [max_v = round(2^nbits - 1)], which is [2^nbits - 1] for the integer
    widths and 2 for 1.58.  On a minimum and a maximum of one shape
    [scale_zero] raises nothing and gives, at every position,
    [s = max_v / (_max - _min)], replaced by 1 where
    [|_max - _min| <= 1e-4], then clamped to at most 2e4, and
    [zero = - _min * s]; where [_max = _min] this is [s = 1] and
    [zero = - _min]. *)
Theorem inverse_scale_and_zero_point nbits mn mx :
  In nbits Quantizer.SUPPORTED_BITS ->
  readable mn = true -> readable mx = true -> same_dims mx mn ->
  let max_v := Quantizer.max_value nbits in
  (Rabs (Rpower 2 (Q2R nbits) - 1 - IZR max_v) < 1 / 2)%R
  /\ (forall n : nat, nbits = inject_Z (Z.of_nat n) ->
      max_v = (2 ^ Z.of_nat n - 1)%Z)
  /\ (exists s z,
        Quantizer.scale_zero max_v mn mx = Ok (s, z)
        /\ t_rows s
           = map2 (map2 (fun x n => inv_scale max_v n x))
               (t_rows mx) (t_rows mn)
        /\ t_rows z
           = map2 (map2 (fun x n => zero_point max_v n x))
               (t_rows mx) (t_rows mn))
  /\ forall n x,
       x == n -> inv_scale max_v n x == 1 /\ zero_point max_v n x == - n.
Proof.
  intros Hin Rmn Rmx Hdims max_v.
  split; [now apply max_value_nearest|].
  split. { intros n ->. now apply max_value_integer. }
  split; [|intros n x; apply inv_scale_zero_range].
  destruct (paired_rows _ _ Hdims) as [P1 P2].
  set (Z := map2 (map2 pair) (t_rows mx) (t_rows mn)) in *.
  assert (Imn : img mn Z snd) by (split; [exact Rmn | now rewrite P2]).
  assert (Imx : img mx Z fst) by (split; [exact Rmx | now rewrite P1]).
  destruct (scale_zero_img max_v mn mx Z snd fst Imn Imx)
    as (s & z & E & [_ Hs] & [_ Hz] & _).
  exists s, z. split; [exact E|].
  rewrite Hs, Hz. unfold Z. rewrite !map_map_map2. split; reflexivity.
Qed.

Lemma inverse_scale_and_zero_point_witness :
  let max_v := Quantizer.max_value 4 in
  let mn := scalar_tensor 1 in
  let mx := scalar_tensor 1 in
  (Rabs (Rpower 2 (Q2R 4) - 1 - IZR max_v) < 1 / 2)%R
  /\ (forall n : nat, 4 = inject_Z (Z.of_nat n) ->
      max_v = (2 ^ Z.of_nat n - 1)%Z)
  /\ (exists s z,
        Quantizer.scale_zero max_v mn mx = Ok (s, z)
        /\ t_rows s
           = map2 (map2 (fun x n => inv_scale max_v n x))
               (t_rows mx) (t_rows mn)
        /\ t_rows z
           = map2 (map2 (fun x n => zero_point max_v n x))
               (t_rows mx) (t_rows mn))
  /\ forall n x,
       x == n -> inv_scale max_v n x == 1 /\ zero_point max_v n x == - n.
Proof.
  apply (inverse_scale_and_zero_point 4 (scalar_tensor 1) (scalar_tensor 1)).
  - simpl. tauto.
  - reflexivity.
  - reflexivity.
  - repeat constructor.
Defined.

(** C4, as stated, fails at [nbits = 1.58]: with minimum 0 and maximum 1 the
    inverse scale is 2, not [2^1.58 - 1], which is below 2. *)
Lemma scale_numerator_is_rounded : ~ scale_numerator_is_pow2_minus_1.
Proof.
  intros Hc.
  specialize (Hc (158 # 100) 0 1 (fst ternary_scale_zero)
                (snd ternary_scale_zero) 2 eq_refl eq_refl eq_refl).
  unfold inv_scale_unrounded in Hc. cbv zeta in Hc.
  rewrite Q2R_158_100 in Hc.
  replace (Q2R 2) with 2%R in Hc by (unfold Q2R; simpl; lra).
  replace (Q2R 1 - Q2R 0)%R with 1%R in Hc by (unfold Q2R; simpl; lra).
  pose proof Rpower_158_lt_3 as Hlt.
  destruct (Rle_dec (Rabs 1) (1 / 10000)) as [Ha|_].
  - rewrite Rabs_R1 in Ha. lra.
  - unfold Rmin in Hc.
    destruct (Rle_dec ((Rpower 2 (79 / 50) - 1) / 1) 20000); lra.
Qed.

(** ** The range of the codes (C7) *)

Lemma clamp_in_range lo hi t c :
  lo <= hi -> Torch.clamp lo hi t = Ok c -> in_range lo hi c.
Proof.
  unfold Torch.clamp, Torch.pointwise, in_range. intros Hle H.
  inv_bind H. inv_ok H. simpl.
  apply Forall_map, Forall_forall. intros r _.
  apply Forall_map, Forall_forall. intros q _.
  split.
  - apply Q.min_glb; [apply Q.le_max_r | exact Hle].
  - apply Q.le_min_r.
Qed.

Lemma nearest_pow2_ge fuel p q n :
  (n <= Quantizer.nearest_pow2 fuel p q n)%Z.
Proof.
  revert n. induction fuel as [|fuel IH]; simpl; intros n; [lia|].
  destruct (Z.leb _ _); [|lia].
  specialize (IH (n + 1)%Z). lia.
Qed.

Lemma max_value_nonneg nbits :
  (0 <= Qnum nbits)%Z -> (0 <= Quantizer.max_value nbits)%Z.
Proof.
  intros Hp. unfold Quantizer.max_value. cbn [Quantizer.nearest_pow2].
  assert (H1 : ((2 * (0 + 1) - 1) ^ Zpos (Qden nbits)
                <=? 2 ^ (Qnum nbits + Zpos (Qden nbits)))%Z = true).
  { apply Z.leb_le. change (2 * (0 + 1) - 1)%Z with 1%Z.
    rewrite Z.pow_1_l by lia.
    assert (0 < 2 ^ (Qnum nbits + Z.pos (Qden nbits)))%Z
      by (apply Z.pow_pos_nonneg; lia).
    lia. }
  rewrite H1.
  pose proof (nearest_pow2_ge
                (Z.to_nat (2 ^ Qceiling nbits)) (Qnum nbits) (Qden nbits)
                (0 + 1)%Z).
  lia.
Qed.

Lemma supported_nonneg nbits :
  existsb (Qeq_bool nbits) Quantizer.SUPPORTED_BITS = true ->
  (0 <= Qnum nbits)%Z.
Proof.
  intros H.
  assert (Hpos : 0 < nbits).
  { destruct (supported_cases _ H) as [C|[C|[C|[C|[C|[C|[C|C]]]]]]];
      rewrite C; reflexivity. }
  unfold Qlt in Hpos. simpl in Hpos. lia.
Qed.

Section SolverRange.

Variable shrink : Q -> Q -> Q.

Definition best_in_range (lo hi : Q)
  (b : option (Tensor * Tensor * Tensor)) : Prop :=
  match b with
  | Some (W_q, _, _) => in_range lo hi W_q
  | None => True
  end.

Lemma step_in_range W scale lo hi axis st st' :
  lo <= hi ->
  Optimize.step shrink W scale lo hi axis st = Ok (Some st') ->
  best_in_range lo hi (Optimize.st_best st').
Proof.
  unfold Optimize.step. intros Hle H.
  inv_bind H. inv_bind H. inv_bind H. inv_bind H. rename x2 into W_q.
  pose proof (clamp_in_range _ _ _ _ Hle E2) as Hr.
  repeat inv_bind H.
  destruct (Optimize.st_err st) as [prev|].
  - destruct (Qle_bool _ prev); inv_ok H; [|discriminate]. exact Hr.
  - inv_ok H. exact Hr.
Qed.

Lemma iterate_in_range n W scale lo hi axis st b :
  lo <= hi ->
  best_in_range lo hi (Optimize.st_best st) ->
  Optimize.iterate shrink n W scale lo hi axis st = Ok b ->
  best_in_range lo hi b.
Proof.
  intros Hle. revert st. induction n as [|n IH]; simpl; intros st Hb H.
  - now inv_ok H.
  - inv_bind H. destruct x as [st'|].
    + apply (IH st'); [|exact H]. eapply step_in_range; eauto.
    + now inv_ok H.
Qed.

Lemma optimizer_in_range W scale zero lo hi axis W_q s z :
  lo <= hi ->
  Optimize.optimize_weights_proximal shrink W scale zero (lo, hi) axis
  = Ok (W_q, s, z) ->
  in_range lo hi W_q.
Proof.
  unfold Optimize.optimize_weights_proximal. cbn [fst snd]. intros Hle H.
  inv_bind H.
  assert (Hb : best_in_range lo hi x).
  { eapply iterate_in_range; [exact Hle | | exact E]. exact I. }
  destruct x as [[[w s'] z']|]; [|discriminate].
  inv_ok H. exact Hb.
Qed.

End SolverRange.

(** C7, as the code has it.  After [quantize], with or without the solver,
    every element of the internal code tensor lies in [[0, max_v]] with
    [max_v = round(2^nbits - 1)], the integer nearest to [2^nbits - 1]: it is
    [2^nbits - 1] for the integer widths and 2 for 1.58. *)
Theorem codes_in_range shrink tensor a codes s z :
  Quantizer.internal (Optimize.optimize_weights_proximal shrink) tensor a
  = Ok (codes, s, z) ->
  let max_v := Quantizer.max_value (Quantizer.nbits a) in
  in_range 0 (inject_Z max_v) codes
  /\ (In (Quantizer.nbits a) Quantizer.SUPPORTED_BITS ->
      (Rabs (Rpower 2 (Q2R (Quantizer.nbits a)) - 1 - IZR max_v) < 1 / 2)%R)
  /\ (forall n : nat,
         In (Quantizer.nbits a) Quantizer.SUPPORTED_BITS ->
         Quantizer.nbits a = inject_Z (Z.of_nat n) ->
         max_v = (2 ^ Z.of_nat n - 1)%Z).
Proof.
  intros H max_v.
  split; [|split; [apply max_value_nearest
                  | intros n Hin Hn; unfold max_v; rewrite Hn in Hin |- *;
                    now apply max_value_integer]].
  pose proof (internal_checked _ _ _ _ H) as Hc.
  apply check_args_inv in Hc. destruct Hc as (Hs & _ & _).
  assert (Hle : 0 <= inject_Z max_v).
  { pose proof (max_value_nonneg _ (supported_nonneg _ Hs)) as Hm.
    unfold Qle. simpl. fold max_v in Hm. lia. }
  destruct (internal_inv _ _ _ _ H)
    as (Wg & mn & mx & o & s0 & z0 & _ & _ & _ & Hcodes).
  fold max_v in Hcodes. unfold Quantizer.codes in Hcodes.
  inv_bind Hcodes. destruct o.
  - eapply optimizer_in_range; eauto.
  - repeat inv_bind Hcodes. inv_ok Hcodes.
    eapply clamp_in_range; eauto.
Qed.

Lemma codes_in_range_witness :
  let max_v := Quantizer.max_value (Quantizer.nbits args_ternary) in
  in_range 0 (inject_Z max_v) (fst (fst column_012_internal))
  /\ (In (Quantizer.nbits args_ternary) Quantizer.SUPPORTED_BITS ->
      (Rabs (Rpower 2 (Q2R (Quantizer.nbits args_ternary)) - 1 - IZR max_v)
       < 1 / 2)%R)
  /\ (forall n : nat,
         In (Quantizer.nbits args_ternary) Quantizer.SUPPORTED_BITS ->
         Quantizer.nbits args_ternary = inject_Z (Z.of_nat n) ->
         max_v = (2 ^ Z.of_nat n - 1)%Z).
Proof.
  apply (codes_in_range keep column_012 args_ternary
           (fst (fst column_012_internal)) (snd (fst column_012_internal))
           (snd column_012_internal)).
  vm_compute. reflexivity.
Defined.

(** C7, as stated, fails at [nbits = 1.58]: the column [0, 1, 2] gets the
    codes 0, 1, 2, and 2 is above [2^1.58 - 1]. *)
Lemma code_above_pow2_minus_1 : ~ codes_bounded_by_pow2_minus_1.
Proof.
  intros Hc.
  specialize (Hc keep column_012 args_ternary
                (fst (fst column_012_internal))
                (snd (fst column_012_internal))
                (snd column_012_internal) eq_refl).
  change (t_rows (fst (fst column_012_internal)))
    with [[0]; [1]; [2]] in Hc.
  change (Q2R (Quantizer.nbits args_ternary)) with (Q2R (158 # 100)) in Hc.
  rewrite Q2R_158_100 in Hc.
  rewrite Forall_forall in Hc.
  specialize (Hc [2] ltac:(simpl; tauto)).
  rewrite Forall_forall in Hc.
  destruct (Hc 2 ltac:(simpl; tauto)) as [_ Hq].
  replace (Q2R 2) with 2%R in Hq by (unfold Q2R; simpl; lra).
  pose proof Rpower_158_lt_3 as Hlt. lra.
Qed.

(** ** The deprecated settings of the layer (C5) *)

Lemma get_remove_other k k' (m : dict) :
  k <> k' -> Dict.get k (Dict.remove k' m) = Dict.get k m.
Proof.
  intros Hne. induction m as [|[k0 v0] m IH]; cbn [Dict.get Dict.remove].
  - reflexivity.
  - destruct (String.eqb_spec k' k0) as [->|Hk]; cbn [Dict.get].
    + destruct (String.eqb_spec k k0); [contradiction | reflexivity].
    + destruct (String.eqb_spec k k0); [reflexivity | exact IH].
Qed.

Lemma set_remove_comm k k' v (m : dict) :
  k <> k' ->
  Dict.set k v (Dict.remove k' m) = Dict.remove k' (Dict.set k v m).
Proof.
  intros Hne. induction m as [|[k0 v0] m IH]; cbn [Dict.set Dict.remove].
  - destruct (String.eqb_spec k' k); [congruence | reflexivity].
  - destruct (String.eqb_spec k' k0) as [->|Hk0].
    + destruct (String.eqb_spec k k0) as [->|Hkk]; [contradiction|].
      cbn [Dict.remove]. now rewrite String.eqb_refl.
    + cbn [Dict.set].
      destruct (String.eqb_spec k k0) as [->|Hkk]; cbn [Dict.remove].
      * destruct (String.eqb_spec k' k0); [contradiction | reflexivity].
      * destruct (String.eqb_spec k' k0); [contradiction|]. now rewrite IH.
Qed.

Lemma set_same_value k v (m : dict) :
  Dict.get k m = Some v -> Dict.set k v m = m.
Proof.
  induction m as [|[k0 v0] m IH]; cbn [Dict.get Dict.set]; [discriminate|].
  destruct (String.eqb_spec k k0) as [->|Hk]; intros H.
  - now inv_ok H.
  - now rewrite IH.
Qed.

Lemma mem_get k (m : dict) :
  Dict.mem k m = true -> exists v, Dict.get k m = Some v.
Proof. unfold Dict.mem. destruct (Dict.get k m); [eauto | discriminate]. Qed.

Lemma at_most_once_refl p : at_most_once p p.
Proof. left. auto. Qed.

Lemma at_most_once_trans p p' p'' :
  at_most_once p p' -> at_most_once p' p'' -> at_most_once p p''.
Proof.
  unfold at_most_once.
  intros [[F W]|(F1 & F2 & W)] [[F' W']|(F1' & F2' & W')].
  - left. split; congruence.
  - right. repeat split; congruence.
  - right. repeat split; congruence.
  - congruence.
Qed.

Lemma respects_ret {A} (a : A) : respects (HQQLinear.ret a).
Proof. intros p. apply at_most_once_refl. Qed.

Lemma respects_lift {A} (r : result A) : respects (HQQLinear.lift r).
Proof. intros p. apply at_most_once_refl. Qed.

Lemma respects_bind {A B} (m : HQQLinear.proc A) (k : A -> HQQLinear.proc B) :
  respects m -> (forall a, respects (k a)) ->
  respects (HQQLinear.pbind m k).
Proof.
  intros Hm Hk p. unfold HQQLinear.pbind.
  specialize (Hm p). destruct (m p) as [[a|e] p']; simpl in *.
  - eapply at_most_once_trans; [exact Hm | apply Hk].
  - exact Hm.
Qed.

Lemma respects_print text :
  text <> HQQLinear.zero_scale_warning -> respects (HQQLinear.print text).
Proof.
  intros Hne p. left. split; [reflexivity|].
  unfold warnings. simpl. rewrite count_occ_app. simpl.
  destruct (string_dec text HQQLinear.zero_scale_warning);
    [contradiction | lia].
Qed.

Lemma respects_set_backend b : respects (HQQLinear.set_backend b).
Proof.
  intros p. unfold HQQLinear.set_backend.
  destruct (_ && _).
  - destruct (negb _).
    + apply respects_print. discriminate.
    + apply respects_bind; [apply respects_print; discriminate|].
      intros _. apply respects_bind; intros; intro; left; auto.
  - left. auto.
Qed.

Lemma respects_drop_deprecated qc : respects (HQQLinear.drop_deprecated qc).
Proof.
  unfold HQQLinear.drop_deprecated.
  apply respects_bind; [|intros; apply respects_ret].
  intros p. cbv beta.
  destruct (HQQLinear.PRINT_ZERO_SCALE_DEPRECATED p) eqn:F.
  - right. split; [exact F|]. split; [reflexivity|].
    unfold warnings. cbn. rewrite count_occ_app. cbn [count_occ].
    destruct (string_dec HQQLinear.zero_scale_warning
                HQQLinear.zero_scale_warning); [lia | contradiction].
  - left. simpl. auto.
Qed.

Lemma respects_initialize opt self : respects (HQQLinear.initialize opt self).
Proof.
  unfold HQQLinear.initialize.
  destruct (HQQLinear.linear_layer self); [|apply respects_ret].
  apply respects_bind; [apply respects_lift|]. intros qc.
  apply respects_bind; [apply respects_lift|]. intros sq.
  apply respects_bind.
  { destruct (negb _); [apply respects_ret|].
    apply respects_bind; [apply respects_lift | intros; apply respects_ret]. }
  intros dep.
  apply respects_bind; [|intros; apply respects_lift].
  destruct dep; [apply respects_drop_deprecated | apply respects_ret].
Qed.

Lemma respects_construct opt c : respects (construct opt c).
Proof.
  unfold construct, HQQLinear.__init__.
  apply respects_bind; [apply respects_lift|]. intros popped.
  apply respects_bind; [intros p; apply respects_set_backend|]. intros _.
  destruct (c_initialize c); [apply respects_initialize | apply respects_ret].
Qed.

Lemma warnings_run_calls opt cs p :
  (warnings (run_calls opt cs p)
   <= warnings p
      + (if HQQLinear.PRINT_ZERO_SCALE_DEPRECATED p then 1 else 0))%nat.
Proof.
  revert p. induction cs as [|c cs IH]; intros p; simpl; [lia|].
  specialize (IH (snd (construct opt c p))).
  destruct (respects_construct opt c p) as [[F W]|(F1 & F2 & W)].
  - rewrite F, W in IH. exact IH.
  - rewrite F2, W in IH. rewrite F1. lia.
Qed.

Lemma cuda_keeps_offload_meta self dev l :
  HQQLinear.cuda self dev = Ok l ->
  HQQLinear.offload_meta l = HQQLinear.offload_meta self.
Proof.
  unfold HQQLinear.cuda. intros H.
  repeat inv_bind H. destruct x0. repeat inv_bind H.
  now inv_ok H.
Qed.

Lemma quantize_keeps_offload_meta opt self W w s z l :
  HQQLinear.quantize opt self W w s z = Ok l ->
  HQQLinear.offload_meta l = HQQLinear.offload_meta self.
Proof.
  unfold HQQLinear.quantize. intros H.
  repeat inv_bind H. destruct x2. repeat inv_bind H. inv_ok H.
  apply cuda_keeps_offload_meta in E5. exact E5.
Qed.

Lemma quantize_linear_keeps_offload_meta opt self lin qc l :
  HQQLinear.quantize_linear opt self lin qc = Ok l ->
  HQQLinear.offload_meta l = HQQLinear.offload_meta self.
Proof.
  unfold HQQLinear.quantize_linear, HQQLinear.quantize_kwargs. intros H.
  inv_bind H. inv_bind H.
  destruct (negb _); [discriminate|].
  destruct (Dict.get "weight_quant_params" x) as [w|]; [|discriminate].
  destruct (Dict.get "scale_quant_params" x) as [s|]; [|discriminate].
  destruct (Dict.get "zero_quant_params" x) as [z|]; [|discriminate].
  apply quantize_keeps_offload_meta in E0. simpl in E0.
  inv_bind H. inv_ok H.
  destruct (HQQLinear.del_orig _); simpl; exact E0.
Qed.

Lemma set_backend_ok b p : fst (HQQLinear.set_backend b p) = Ok tt.
Proof.
  unfold HQQLinear.set_backend.
  destruct (_ && _); [|reflexivity].
  destruct (negb _); reflexivity.
Qed.

Lemma quantize_linear_quant_config opt self v lin qc :
  HQQLinear.quantize_linear opt (HQQLinear.with_quant_config v self) lin qc
  = HQQLinear.quantize_linear opt self lin qc.
Proof. reflexivity. Qed.

Lemma initialize_drops_deprecated opt self0 lin d p :
  HQQLinear.linear_layer self0 = Some lin ->
  Dict.mem "scale_quant_params" d = true ->
  Dict.mem "zero_quant_params" d = true ->
  let run :=
    HQQLinear.initialize opt
      (HQQLinear.with_quant_config (VDict d) self0) p in
  let run0 :=
    HQQLinear.initialize opt
      (HQQLinear.with_quant_config (VDict (without_deprecated d)) self0) p in
  fst run = fst run0
  /\ snd run0 = p
  /\ (snd run = p
      \/ (HQQLinear.PRINT_ZERO_SCALE_DEPRECATED p = true
          /\ snd run = warned p)).
Proof.
  intros Hlin Hs Hz.
  destruct (mem_get _ _ Hs) as [sv Hsv].
  destruct (mem_get _ _ Hz) as [zv Hzv].
  assert (Hs0 : Dict.get "scale_quant_params" (without_deprecated d)
                = Some VNone).
  { unfold without_deprecated.
    rewrite get_set_other by discriminate. apply get_set_same. }
  assert (Hz0 : Dict.get "zero_quant_params" (without_deprecated d)
                = Some VNone) by apply get_set_same.
  unfold HQQLinear.initialize.
  cbn [HQQLinear.linear_layer HQQLinear.with_quant_config
       HQQLinear.quant_config]. rewrite Hlin.
  unfold HQQLinear.pbind, HQQLinear.lift, HQQLinear.ret, Dict.item.
  cbn [HQQLinear.dict_of]. rewrite Hsv, Hs0, Hz0, Hzv.
  cbn [HQQLinear.is_none negb fst snd].
  assert (Hdrop : forall q,
             HQQLinear.drop_deprecated d q
             = (Ok (without_deprecated d),
                if HQQLinear.PRINT_ZERO_SCALE_DEPRECATED q
                then warned q else q)).
  { intros q. unfold HQQLinear.drop_deprecated, HQQLinear.pbind,
      HQQLinear.ret.
    destruct (HQQLinear.PRINT_ZERO_SCALE_DEPRECATED q); reflexivity. }
  assert (Hflag : p = p
                  \/ HQQLinear.PRINT_ZERO_SCALE_DEPRECATED p = true
                     /\ warned p = warned p) by auto.
  destruct sv; cbn [HQQLinear.is_none negb];
    try (rewrite Hdrop; cbn [fst snd];
         split; [reflexivity|]; split; [reflexivity|];
         destruct (HQQLinear.PRINT_ZERO_SCALE_DEPRECATED p); now auto).
  destruct zv; cbn [HQQLinear.is_none negb fst snd];
    try (rewrite Hdrop; cbn [fst snd];
         split; [reflexivity|]; split; [reflexivity|];
         destruct (HQQLinear.PRINT_ZERO_SCALE_DEPRECATED p); now auto).
  unfold without_deprecated.
  rewrite (set_same_value "scale_quant_params" VNone d Hsv).
  rewrite (set_same_value "zero_quant_params" VNone d Hzv). auto.
Qed.




(** ** The codecs: unpacking what was packed *)

Section Digits.

Local Open Scope Z_scope.

Lemma digit_top b m x y :
  0 <= b -> 0 <= m -> 0 <= x < 2 ^ b -> 0 <= y < 2 ^ (b * m) ->
  Z.land (Z.shiftr (Z.shiftl x (b * m) + y) (b * m)) (Z.ones b) = x.
Proof.
  intros Hb Hm Hx Hy.
  assert (Hbm : 0 <= b * m) by nia.
  rewrite Z.shiftl_mul_pow2, Z.shiftr_div_pow2, Z.land_ones by assumption.
  assert (Hp : 0 < 2 ^ (b * m)) by (apply Z.pow_pos_nonneg; lia).
  rewrite Z.div_add_l by lia.
  rewrite (Z.div_small y) by lia.
  rewrite Z.add_0_r. apply Z.mod_small. exact Hx.
Qed.

Lemma digit_low b m e x y :
  0 <= b -> 0 <= e < m -> 0 <= x -> 0 <= y ->
  Z.land (Z.shiftr (Z.shiftl x (b * m) + y) (b * e)) (Z.ones b)
  = Z.land (Z.shiftr y (b * e)) (Z.ones b).
Proof.
  intros Hb He Hx Hy.
  assert (Hbm : 0 <= b * m) by nia.
  assert (Hbe : 0 <= b * e) by nia.
  rewrite Z.shiftl_mul_pow2, !Z.shiftr_div_pow2, !Z.land_ones by assumption.
  replace (b * m) with (b * e + (b + b * (m - e - 1))) by ring.
  assert (Hk : 0 <= b * (m - e - 1)) by nia.
  rewrite !Z.pow_add_r by lia.
  assert (Hpe : 0 < 2 ^ (b * e)) by (apply Z.pow_pos_nonneg; lia).
  assert (Hpb : 0 < 2 ^ b) by (apply Z.pow_pos_nonneg; lia).
  replace (x * (2 ^ (b * e) * (2 ^ b * 2 ^ (b * (m - e - 1)))) + y)
    with (x * 2 ^ (b * (m - e - 1)) * 2 ^ b * 2 ^ (b * e) + y) by ring.
  rewrite Z.div_add_l by lia.
  rewrite Z.add_comm, Z.mod_add by lia. reflexivity.
Qed.

Lemma digit_range b m x y :
  0 <= b -> 0 <= m -> 0 <= x < 2 ^ b -> 0 <= y < 2 ^ (b * m) ->
  0 <= Z.shiftl x (b * m) + y < 2 ^ (b * (m + 1)).
Proof.
  intros Hb Hm Hx Hy.
  assert (Hbm : 0 <= b * m) by nia.
  rewrite Z.shiftl_mul_pow2 by assumption.
  replace (b * (m + 1)) with (b + b * m) by ring.
  rewrite Z.pow_add_r by lia.
  assert (Hp : 0 < 2 ^ (b * m)) by (apply Z.pow_pos_nonneg; lia).
  nia.
Qed.

End Digits.

Lemma map2_map2_same {T A A' B} (f : A -> A' -> B) (g : T -> A) (h : T -> A')
  (Z : list (list T)) :
  map2 (map2 f) (map (map g) Z) (map (map h) Z)
  = map (map (fun z => f (g z) (h z))) Z.
Proof.
  induction Z as [|r Z IH]; simpl; [reflexivity|].
  now rewrite map2_map_same, IH.
Qed.

Lemma mall_map_ext {T A} (P : T -> Prop) (f g : T -> A) (Z : list (list T)) :
  mall P Z -> (forall z, P z -> f z = g z) ->
  map (map f) Z = map (map g) Z.
Proof.
  intros Hall Hfg. induction Hall as [|r Z Hr _ IH]; simpl; [reflexivity|].
  rewrite IH. f_equal.
  induction Hr as [|z r Hz _ IHr]; simpl; [reflexivity|].
  now rewrite Hfg, IHr.
Qed.

Lemma mall_map {T A} (P : A -> Prop) (f : T -> A) (Z : list (list T)) :
  mall (fun z => P (f z)) Z -> mall P (map (map f) Z).
Proof.
  intros H. apply Forall_map. eapply Forall_impl; [|exact H].
  intros r Hr. now apply Forall_map.
Qed.

Lemma mall_pair {X Y} (P : X -> Prop) (R : Y -> Prop) A B :
  mall P A -> mall R B ->
  mall (fun z => P (fst z) /\ R (snd z)) (map2 (map2 pair) A B).
Proof.
  intros HA. revert B. induction HA as [|a A Ha _ IH]; intros B HB;
    [constructor|].
  destruct HB as [|b B Hb HB]; [constructor|]. simpl.
  constructor; [|now apply IH].
  clear - Ha Hb. revert b Hb. induction Ha as [|x a Hx _ IHa]; intros b Hb;
    [constructor|].
  destruct Hb as [|y b Hy Hb]; [constructor|]. simpl.
  constructor; [auto | now apply IHa].
Qed.

Lemma mrect_dims {X Y} n c (A : list (list X)) (B : list (list Y)) :
  mrect n c A -> mrect n c B ->
  Forall2 (fun r r' => length r = length r') A B.
Proof.
  intros [LA HA] [LB HB]. subst n. revert B LB HB.
  induction HA as [|a A Ha _ IH]; intros [|b B] LB HB; simpl in *;
    try discriminate; constructor.
  - inversion HB; subst. congruence.
  - apply IH; [lia | now inversion HB].
Qed.

Lemma mrect_map {T A} n c (f : T -> A) (Z : list (list T)) :
  mrect n c Z -> mrect n c (map (map f) Z).
Proof.
  intros [L H]. split; [now rewrite length_map|].
  apply Forall_map. eapply Forall_impl; [|exact H].
  intros r Hr. now rewrite length_map.
Qed.

Lemma mrect_pair {X Y} n c (A : list (list X)) (B : list (list Y)) :
  mrect n c A -> mrect n c B -> mrect n c (map2 (map2 pair) A B).
Proof.
  intros HA HB.
  destruct (paired_rows A B (mrect_dims _ _ _ _ HA HB)) as [P1 _].
  destruct HA as [LA HA]. split.
  - assert (HL : length (map (map fst) (map2 (map2 pair) A B)) = length A)
      by now rewrite P1.
    rewrite length_map in HL. congruence.
  - rewrite <- P1 in HA. apply Forall_map in HA.
    eapply Forall_impl; [|exact HA]. intros r Hr. simpl in Hr.
    now rewrite length_map in Hr.
Qed.

Lemma zeros_rect n c : mrect n c (BitPack.zeros n c).
Proof.
  unfold BitPack.zeros. split; [apply repeat_length|].
  apply Forall_forall. intros r Hr. apply repeat_spec in Hr. subst.
  apply repeat_length.
Qed.

Lemma zeros_all (P : Z -> Prop) n c : P 0%Z -> mall P (BitPack.zeros n c).
Proof.
  intros H0. apply Forall_forall. intros r Hr. apply repeat_spec in Hr.
  subst. apply Forall_forall. intros z Hz. apply repeat_spec in Hz. now subst.
Qed.

Lemma extract_map {T} b e (f : T -> Z) (Zp : list (list T)) :
  BitPack.extract b e (map (map f) Zp)
  = map (map (fun z => Z.land (Z.shiftr (f z) (Z.of_nat (b * e)))
                         (Z.ones (Z.of_nat b)))) Zp.
Proof.
  unfold BitPack.extract. rewrite map_map. apply map_ext.
  intros r. apply map_map.
Qed.

Section OneMoreStripe.

Variables (b n c m : nat) (s P' : BitPack.matrix).
Hypothesis Hs : mrect n c s.
Hypothesis Ds : mall (is_digit b) s.
Hypothesis HP' : mrect n c P'.
Hypothesis RP' :
  mall (fun z => (0 <= z < 2 ^ (Z.of_nat b * Z.of_nat m))%Z) P'.

Let Zp := map2 (map2 pair) s P'.
Let P := map2 (map2 Z.add) (BitPack.shift_left (b * m) s) P'.

Lemma stripe_pairs :
  map (map fst) Zp = s /\ map (map snd) Zp = P'
  /\ mall (fun z => is_digit b (fst z)
                    /\ (0 <= snd z < 2 ^ (Z.of_nat b * Z.of_nat m))%Z) Zp.
Proof.
  destruct (paired_rows s P' (mrect_dims _ _ _ _ Hs HP')) as [P1 P2].
  repeat split; try assumption.
  apply (mall_pair (is_digit b)
           (fun y => (0 <= y < 2 ^ (Z.of_nat b * Z.of_nat m))%Z));
    assumption.
Qed.

Lemma stripe_sum :
  P = map (map (fun z =>
                  (Z.shiftl (fst z) (Z.of_nat (b * m)) + snd z)%Z)) Zp.
Proof.
  destruct stripe_pairs as (P1 & P2 & _).
  unfold P, BitPack.shift_left. rewrite <- P1 at 1. rewrite <- P2 at 1.
  rewrite map_map.
  rewrite (map_ext _ (map (fun z => Z.shiftl (fst z) (Z.of_nat (b * m)))))
    by (intros r; apply map_map).
  apply (map2_map2_same Z.add
           (fun z => Z.shiftl (fst z) (Z.of_nat (b * m))) snd).
Qed.

Lemma stripe_sum_rect : mrect n c P.
Proof. rewrite stripe_sum. apply mrect_map, mrect_pair; assumption. Qed.

Lemma stripe_sum_range :
  mall (fun z => (0 <= z < 2 ^ (Z.of_nat b * Z.of_nat (S m)))%Z) P.
Proof.
  destruct stripe_pairs as (_ & _ & HZ).
  rewrite stripe_sum. apply mall_map.
  eapply Forall_impl; [|exact HZ].
  intros r Hr. eapply Forall_impl; [|exact Hr].
  intros z [Hd Hy]. cbv beta.
  rewrite Nat2Z.inj_mul.
  replace (Z.of_nat (S m)) with (Z.of_nat m + 1)%Z by lia.
  apply digit_range; auto; lia.
Qed.

Lemma extract_top : BitPack.extract b m P = s.
Proof.
  destruct stripe_pairs as (P1 & _ & HZ).
  rewrite stripe_sum, extract_map. rewrite <- P1 at 1.
  apply (mall_map_ext _ _ _ _ HZ). intros z [Hd Hy].
  rewrite Nat2Z.inj_mul. apply digit_top; auto; lia.
Qed.

Lemma extract_low e :
  (e < m)%nat -> BitPack.extract b e P = BitPack.extract b e P'.
Proof.
  intros He. destruct stripe_pairs as (_ & P2 & HZ).
  rewrite stripe_sum, extract_map. rewrite <- P2 at 1.
  rewrite extract_map.
  apply (mall_map_ext _ _ _ _ HZ). intros z [[Hd0 Hd1] [Hy0 Hy1]].
  rewrite !Nat2Z.inj_mul. apply digit_low; lia.
Qed.

End OneMoreStripe.

(** The packed array of [m] stripes has the shape of one stripe, its values
    fit in [b * m] bits, and stripe [k] is read back from bits
    [b * (m - 1 - k)] on. *)
Lemma pack_sum_spec b n c ss :
  Forall (fun s => mrect n c s /\ mall (is_digit b) s) ss ->
  mrect n c (BitPack.pack_sum b n c ss)
  /\ mall (fun z => (0 <= z < 2 ^ (Z.of_nat b * Z.of_nat (length ss)))%Z)
       (BitPack.pack_sum b n c ss)
  /\ map (fun k => BitPack.extract b (length ss - 1 - k)
                     (BitPack.pack_sum b n c ss))
       (seq 0 (length ss)) = ss.
Proof.
  induction 1 as [|s rest [Hs Ds] _ IH]; cbn [BitPack.pack_sum length].
  - split; [apply zeros_rect|]. split; [|reflexivity].
    apply zeros_all. rewrite Z.mul_0_r. simpl. lia.
  - destruct IH as (HP' & RP' & EP').
    split; [eapply stripe_sum_rect; eassumption|].
    split; [eapply stripe_sum_range; eassumption|].
    cbn [seq map]. f_equal.
    + replace (S (length rest) - 1 - 0)%nat with (length rest) by lia.
      eapply extract_top; eassumption.
    + rewrite <- seq_shift, map_map. rewrite <- EP' at 2.
      apply map_ext_in. intros j Hj. apply in_seq in Hj.
      rewrite (extract_low b n c (length rest) s _ Hs Ds HP' RP')
        by lia.
      f_equal. lia.
Qed.

Lemma stripes_spec {P : Z -> Prop} r n c (L : BitPack.matrix) :
  length L = (r * n)%nat ->
  Forall (fun row => length row = c) L ->
  mall P L ->
  length (BitPack.stripes r n L) = r
  /\ Forall (fun s => mrect n c s /\ mall P s) (BitPack.stripes r n L)
  /\ concat (BitPack.stripes r n L) = L.
Proof.
  revert L. induction r as [|r IH]; intros L HL Hc HP; simpl.
  - destruct L; [|discriminate]. auto.
  - destruct (IH (skipn n L)) as (I1 & I2 & I3).
    + rewrite length_skipn. lia.
    + rewrite <- (firstn_skipn n L) in Hc. now apply Forall_app in Hc.
    + unfold mall in *. rewrite <- (firstn_skipn n L) in HP.
      now apply Forall_app in HP.
    + split; [now rewrite I1|]. split.
      * constructor; [|exact I2]. split; [split|].
        -- rewrite length_firstn. lia.
        -- rewrite <- (firstn_skipn n L) in Hc. now apply Forall_app in Hc.
        -- unfold mall in *. rewrite <- (firstn_skipn n L) in HP.
           now apply Forall_app in HP.
      * rewrite I3. apply firstn_skipn.
Qed.

(** Unpacking the packed stripes gives the code rows back. *)
Lemma unpack_pack_sum b r n c (L : BitPack.matrix) :
  length L = (r * n)%nat ->
  Forall (fun row => length row = c) L ->
  mall (is_digit b) L ->
  BitPack.unpack_all b r (BitPack.pack_sum b n c (BitPack.stripes r n L)) = L
  /\ mall (fun z => (0 <= z < 2 ^ (Z.of_nat b * Z.of_nat r))%Z)
       (BitPack.pack_sum b n c (BitPack.stripes r n L)).
Proof.
  intros HL Hc HP.
  destruct (stripes_spec r n c L HL Hc HP) as (S1 & S2 & S3).
  destruct (pack_sum_spec b n c _ S2) as (_ & R & E).
  unfold BitPack.unpack_all, BitPack.matrix in *.
  rewrite S1 in R, E. split; [|exact R].
  rewrite E. exact S3.
Qed.

Lemma padding_fits r rows :
  (0 < r)%nat -> (rows <= r * ((rows + r - 1) / r))%nat.
Proof.
  intros Hr.
  pose proof (Nat.div_mod_eq (rows + r - 1) r) as Hd.
  pose proof (Nat.mod_upper_bound (rows + r - 1) r ltac:(lia)) as Hm.
  lia.
Qed.

Lemma truncate_inject k : Torch.truncate (inject_Z k) = k.
Proof. unfold Torch.truncate. simpl. apply Z.quot_1_r. Qed.

Lemma ints_of_codes d b rows :
  (forall z, is_digit b z -> Torch.wrap d z = z) ->
  code_rows b rows ->
  map (map inject_Z) (BitPack.ints d rows) = rows
  /\ mall (is_digit b) (BitPack.ints d rows).
Proof.
  intros Hw Hc. unfold BitPack.ints. split.
  - rewrite map_map.
    rewrite (map_ext _ (map (fun q =>
                 inject_Z (Torch.wrap d (Torch.truncate q)))))
      by (intros row; apply map_map).
    rewrite <- (map_id rows) at 2.
    rewrite <- (map_ext (map (fun q : Q => q)) (fun row => row))
      by (intros row; apply map_id).
    apply (mall_map_ext _ _ _ _ Hc). intros q (k & -> & Hk).
    now rewrite truncate_inject, Hw.
  - apply mall_map. eapply Forall_impl; [|exact Hc].
    intros row Hrow. eapply Forall_impl; [|exact Hrow].
    intros q (k & -> & Hk). now rewrite truncate_inject, Hw.
Qed.

Lemma cast_float d q : is_floating_point d = true -> Torch.cast d q = q.
Proof. destruct d; simpl; intros H; try discriminate; reflexivity. Qed.

Lemma map_map_inject_zeros n c :
  map (map inject_Z) (BitPack.zeros n c) = repeat (repeat 0 c) n.
Proof.
  unfold BitPack.zeros. induction n as [|n IH]; simpl; [reflexivity|].
  rewrite IH. f_equal. clear. induction c as [|c IH]; simpl;
    [reflexivity | now rewrite IH].
Qed.

Lemma pow2_digit_le b r z :
  (0 < r)%nat -> is_digit b z ->
  (0 <= z < 2 ^ (Z.of_nat b * Z.of_nat r))%Z.
Proof.
  unfold is_digit. intros Hr [H0 H1]. split; [exact H0|].
  eapply Z.lt_le_trans; [exact H1|].
  apply Z.pow_le_mono_r; nia.
Qed.

(** Packing code rows into stripes and unpacking them in a float type gives
    the rows back, followed by the rows of padding. *)
Lemma stripes_roundtrip b r container t cd :
  (0 < r)%nat ->
  (forall z, (0 <= z < 2 ^ (Z.of_nat b * Z.of_nat r))%Z ->
             Torch.wrap container z = z) ->
  is_floating_point container = false ->
  is_floating_point cd = true ->
  t_scalar t = false ->
  readable t = true ->
  rect (row_len t) (t_rows t) ->
  code_rows b (t_rows t) ->
  exists P,
    BitPack.pack_stripes b r container t = Ok P
    /\ t_dtype P = container /\ t_store P = container
    /\ BitPack.unpack_stripes b r container P cd
       = Ok (fresh cd false (padded r t)).
Proof.
  intros Hr Hw Hc Hcd Hsc Hread Hrect Hcodes.
  unfold BitPack.pack_stripes, Torch.values. rewrite Hread, Hsc. simpl.
  eexists. split; [reflexivity|]. split; [reflexivity|].
  split; [reflexivity|].
  unfold BitPack.unpack_stripes, Torch.values, readable. simpl.
  rewrite dtype_eqb_refl, Hc. simpl. f_equal. f_equal.
  set (c := row_len t). set (R := length (t_rows t)).
  set (n := ((R + r - 1) / r)%nat).
  set (M := BitPack.ints container (t_rows t)).
  assert (Hdw : forall z, is_digit b z -> Torch.wrap container z = z)
    by (intros z Hz; apply Hw, pow2_digit_le; assumption).
  destruct (ints_of_codes container b (t_rows t) Hdw Hcodes) as [HM1 HM2].
  fold M in HM1, HM2.
  assert (HlenM : length M = R)
    by (unfold M, BitPack.ints; now rewrite length_map).
  assert (HrectM : Forall (fun row => length row = c) M).
  { unfold M, BitPack.ints. apply Forall_map.
    eapply Forall_impl; [|exact Hrect]. intros row Hrow.
    now rewrite length_map. }
  set (L := BitPack.pad r n c M).
  assert (HL : length L = (r * n)%nat).
  { unfold L, BitPack.pad. rewrite length_app, HlenM.
    destruct (zeros_rect (r * n - R) c) as [Hz _]. rewrite Hz.
    pose proof (padding_fits r R Hr). fold n in H. lia. }
  assert (HLc : Forall (fun row => length row = c) L).
  { unfold L, BitPack.pad. apply Forall_app. split; [exact HrectM|].
    apply zeros_rect. }
  assert (HLd : mall (is_digit b) L).
  { unfold L, BitPack.pad, mall. apply Forall_app. split; [exact HM2|].
    apply zeros_all. unfold is_digit. split; [lia|].
    apply Z.pow_pos_nonneg; lia. }
  destruct (unpack_pack_sum b r n c L HL HLc HLd) as [HU HR].
  set (packed := BitPack.pack_sum b n c (BitPack.stripes r n L)) in *.
  assert (Hback :
    BitPack.ints container
      (map (map (fun z => inject_Z (Torch.wrap container z))) packed)
    = packed).
  { unfold BitPack.ints. rewrite map_map.
    rewrite (map_ext _ (map (fun z =>
                 Torch.wrap container
                   (Torch.truncate (inject_Z (Torch.wrap container z))))))
      by (intros row; apply map_map).
    rewrite <- (map_id packed) at 2.
    rewrite <- (map_ext (map (fun z : Z => z)) (fun row => row))
      by (intros row; apply map_id).
    apply (mall_map_ext _ _ _ _ HR). intros z Hz.
    rewrite truncate_inject, (Hw z Hz). exact (Hw z Hz). }
  rewrite Hback, HU.
  unfold BitPack.of_ints.
  rewrite (map_ext _ (map inject_Z))
    by (intros row; apply map_ext; intros z; now apply cast_float).
  unfold L, BitPack.pad. rewrite map_app, HM1, map_map_inject_zeros.
  rewrite HlenM. reflexivity.
Qed.

Lemma wrap_uint8 z : (0 <= z < 2 ^ 8)%Z -> Torch.wrap uint8 z = z.
Proof. intros H. simpl. apply Z.mod_small. simpl in H. lia. Qed.

Lemma wrap_int32 z : (0 <= z < 2 ^ 30)%Z -> Torch.wrap int32 z = z.
Proof.
  intros H. cbn [Torch.wrap].
  assert (H' : (0 <= z < 1073741824)%Z) by (simpl in H; lia).
  rewrite Z.mod_small by lia. lia.
Qed.

Lemma to_roundtrip t cd :
  is_floating_point cd = true ->
  t_scalar t = false ->
  readable t = true ->
  code_rows 8 (t_rows t) ->
  exists P,
    BitPack.pack_8bit_u8 t = Ok P
    /\ t_dtype P = t_store P
    /\ BitPack.unpack_8bit_u8 P cd = Ok (fresh cd false (padded 1 t)).
Proof.
  intros Hcd Hsc Hread Hcodes.
  unfold BitPack.pack_8bit_u8, BitPack.unpack_8bit_u8, Torch.to, Torch.values.
  rewrite Hread, Hsc. simpl. eexists. split; [reflexivity|].
  split; [reflexivity|].
  unfold readable. simpl. f_equal. f_equal.
  unfold padded, padding.
  replace (1 * ((n_rows t + 1 - 1) / 1) - n_rows t)%nat with 0%nat
    by (rewrite Nat.div_1_r; lia).
  simpl. rewrite app_nil_r, map_map.
  rewrite (map_ext _ (map (fun q => Torch.cast cd (Torch.cast uint8 q))))
    by (intros row; apply map_map).
  rewrite <- (map_id (t_rows t)) at 2.
  rewrite <- (map_ext (map (fun q : Q => q)) (fun row => row))
    by (intros row; apply map_id).
  apply (mall_map_ext _ _ _ _ Hcodes). intros q (k & -> & Hk).
  rewrite cast_float by exact Hcd. cbn [Torch.cast].
  rewrite truncate_inject, wrap_uint8; [reflexivity | exact Hk].
Qed.

(** Every codec unpacks what it packed: the code rows, followed by the rows
    of padding of its layout. *)
Lemma codec_roundtrip p b r packer unpacker t cd :
  Quantizer.lookup_str p layout = Some (b, r) ->
  Quantizer.lookup_str p Quantizer.pack = Some packer ->
  Quantizer.lookup_str p Quantizer.unpack = Some unpacker ->
  is_floating_point cd = true ->
  t_scalar t = false ->
  readable t = true ->
  rect (row_len t) (t_rows t) ->
  code_rows b (t_rows t) ->
  exists P,
    packer t = Ok P
    /\ t_dtype P = t_store P
    /\ unpacker P cd = Ok (fresh cd false (padded r t)).
Proof.
  unfold layout, Quantizer.pack, Quantizer.unpack.
  cbn [Quantizer.lookup_str].
  intros Hl Hp Hu Hcd Hsc Hread Hrect Hcodes.
  repeat match type of Hl with
         | (if ?c then _ else _) = _ => destruct c
         end;
    try discriminate; inv_ok Hl; inv_ok Hp; inv_ok Hu.
  - now apply to_roundtrip.
  - destruct (stripes_roundtrip 4 2 uint8 t cd ltac:(lia) wrap_uint8 eq_refl Hcd
                Hsc Hread Hrect Hcodes) as (P & H1 & H2 & H3 & H4).
    exists P. repeat split; auto; congruence.
  - destruct (stripes_roundtrip 3 10 int32 t cd ltac:(lia) wrap_int32 eq_refl Hcd
                Hsc Hread Hrect Hcodes) as (P & H1 & H2 & H3 & H4).
    exists P. repeat split; auto; congruence.
  - destruct (stripes_roundtrip 2 4 uint8 t cd ltac:(lia) wrap_uint8 eq_refl Hcd
                Hsc Hread Hrect Hcodes) as (P & H1 & H2 & H3 & H4).
    exists P. repeat split; auto; congruence.
  - destruct (stripes_roundtrip 1 8 uint8 t cd ltac:(lia) wrap_uint8 eq_refl Hcd
                Hsc Hread Hrect Hcodes) as (P & H1 & H2 & H3 & H4).
    exists P. repeat split; auto; congruence.
Qed.

(** ** Broadcasting a scalar, a row or a column *)

Lemma bzip1_single {A B C} (f : A -> B -> C) (la : list A) (b : B) :
  bzip1 f la [b] = Some (map (fun a => f a b) la).
Proof.
  unfold bzip1. destruct la as [|a [|a' la]]; reflexivity.
Qed.

Lemma sequence_map_some {A B} (f : A -> B) (l : list A) :
  sequence (map (fun a => Some (f a)) l) = Some (map f l).
Proof. induction l; simpl; [reflexivity | now rewrite IHl]. Qed.

Lemma sequence_ext_some {A B} (F : A -> option B) (f : A -> B) (l : list A) :
  Forall (fun a => F a = Some (f a)) l ->
  sequence (map F l) = Some (map f l).
Proof.
  induction 1 as [|a l Ha _ IH]; simpl; [reflexivity|].
  now rewrite Ha, IH.
Qed.

Lemma map2_pair_map {T A B C} (f : A -> B -> C) (g : Q * T -> A) (h : T -> B)
  (w : list Q) (yr : list T) :
  length w = length yr ->
  map2 f (map g (map2 pair w yr)) (map h yr)
  = map (fun z => f (g z) (h (snd z))) (map2 pair w yr).
Proof.
  revert yr. induction w as [|x w IH]; intros [|y yr] Hl; simpl in *;
    try discriminate; [reflexivity|].
  now rewrite IH by lia.
Qed.

Lemma length_map2_pair {A B} (la : list A) (lb : list B) :
  length la = length lb -> length (map2 pair la lb) = length la.
Proof.
  revert lb. induction la as [|a la IH]; intros [|b lb] Hl; simpl in *;
    try discriminate; [reflexivity|]. now rewrite IH by lia.
Qed.

Section Broadcast.

Context {T : Type}.
Variables (W : list (list Q)) (Y : list (list T))
          (Zf : list (list (Q * T))).
Hypothesis HB : broadcasts W Y Zf.

Lemma broadcast_fst : map (map fst) Zf = W.
Proof.
  destruct HB as [(y & _ & ->)|[(yr & _ & Hr & ->)|(ys & _ & Hl & ->)]].
  - rewrite map_map. rewrite <- (map_id W) at 2. apply map_ext.
    intros a. rewrite map_map. simpl. apply map_id.
  - rewrite map_map. rewrite <- (map_id W) at 2.
    apply map_ext_Forall. eapply Forall_impl; [|exact Hr].
    intros a Ha. now apply map2_pair_fst.
  - clear HB. revert ys Hl. induction W as [|a W' IH]; intros [|y ys] Hl;
      simpl in *; try discriminate; [reflexivity|].
    rewrite IH by lia. f_equal. rewrite map_map. simpl. apply map_id.
Qed.

Lemma broadcast_bzip2 {A B C} (f : A -> B -> C) (g : Q * T -> A)
  (h : T -> B) :
  bzip2 f (map (map g) Zf) (map (map h) Y)
  = Some (map (map (fun z => f (g z) (h (snd z)))) Zf).
Proof.
  destruct HB as [(y & -> & ->)|[(yr & -> & Hr & ->)|(ys & -> & Hl & ->)]];
    unfold bzip2.
  - cbn [map]. rewrite bzip1_single.
    rewrite (sequence_ext_some _
               (fun a => map (fun x => f x (h y)) a)).
    + f_equal. rewrite !map_map. apply map_ext. intros a.
      rewrite !map_map. reflexivity.
    + apply Forall_forall. intros a _. apply bzip1_single.
  - cbn [map]. rewrite bzip1_single.
    rewrite (sequence_ext_some _ (fun a => map2 f a (map h yr))).
    + f_equal. rewrite !map_map. apply map_ext_Forall.
      eapply Forall_impl; [|exact Hr]. intros a Ha.
      now apply map2_pair_map.
    + apply Forall_map, Forall_map.
      eapply Forall_impl; [|exact Hr]. intros a Ha.
      unfold bzip1. rewrite !length_map, length_map2_pair by exact Ha.
      now rewrite Ha, Nat.eqb_refl.
  - clear HB. unfold bzip1 at 1.
    assert (Hlen : length (map (map g)
                             (map2 (fun a y => map (fun w => (w, y)) a)
                                W ys))
                   = length (map (map h) (map (fun y => [y]) ys))).
    { rewrite !length_map. clear - Hl. revert ys Hl.
      induction W as [|a W' IH]; intros [|y ys] Hl; simpl in *;
        try discriminate; [reflexivity|]. now rewrite IH by lia. }
    rewrite Hlen, Nat.eqb_refl. clear Hlen.
    revert ys Hl. induction W as [|a W' IH]; intros [|y ys] Hl;
      simpl in *; try discriminate; [reflexivity|].
    rewrite bzip1_single. rewrite IH by lia.
    rewrite !map_map. reflexivity.
Qed.

Lemma binary_broadcast f a b g h :
  img a Zf g -> img b Y h ->
  exists r,
    Torch.binary f a b = Ok r
    /\ img r Zf (fun z => f (g z) (h (snd z)))
    /\ t_scalar r = t_scalar a && t_scalar b
    /\ t_dtype r = Torch.result_type a b.
Proof.
  intros Ha Hb. unfold Torch.binary.
  rewrite (values_img _ _ _ Ha), (values_img _ _ _ Hb). simpl.
  rewrite broadcast_bzip2. eexists. split; [reflexivity|].
  split; [apply fresh_img|]. split; reflexivity.
Qed.

End Broadcast.

(** ** The minimum and the maximum broadcast against the tensor *)

Lemma length_map2 {A B C} (f : A -> B -> C) la lb :
  length la = length lb -> length (map2 f la lb) = length la.
Proof.
  revert lb. induction la as [|a la IH]; intros [|b lb] Hl; simpl in *;
    try discriminate; [reflexivity|]. now rewrite IH by lia.
Qed.

Lemma reduce_cols_length f c rows r :
  rect c rows -> Torch.reduce_cols f rows = Some r -> length r = c.
Proof.
  intros Hrect. revert r. induction Hrect as [|row rows Hrow _ IH];
    intros r H; simpl in H; [discriminate|].
  destruct rows as [|row' rows].
  - injection H as <-. exact Hrow.
  - destruct (Torch.reduce_cols f (row' :: rows)) as [acc|]; [|discriminate].
    injection H as <-. rewrite length_map2; [exact Hrow|].
    rewrite Hrow. symmetry. now apply IH.
Qed.

Lemma sequence_length {A} (l : list (option A)) r :
  sequence l = Some r -> length r = length l.
Proof.
  revert r. induction l as [|[a|] l IH]; intros r H; simpl in H;
    try discriminate.
  - now inv_ok H.
  - destruct (sequence l); [|discriminate]. inv_ok H. simpl.
    now rewrite (IH _ eq_refl).
Qed.

Lemma reduce_all_inv f t r :
  Torch.reduce_all f t = Ok r ->
  readable t = true /\ exists x, r = fresh (t_dtype t) true [[x]].
Proof.
  unfold Torch.reduce_all, Torch.values. intros H.
  destruct (readable t); [|discriminate]. simpl in H.
  destruct (Torch.reduce1 f _); [|discriminate]. inv_ok H. eauto.
Qed.

Lemma reduce_axis_inv f axis t r :
  Torch.reduce_axis f axis t = Ok r ->
  t_scalar t = false ->
  rect (row_len t) (t_rows t) ->
  readable t = true
  /\ if Z.eqb axis 0
     then exists row, r = fresh (t_dtype t) false [row]
                      /\ length row = row_len t
     else exists col, r = fresh (t_dtype t) false (map (fun x => [x]) col)
                      /\ length col = length (t_rows t).
Proof.
  unfold Torch.reduce_axis, Torch.values. intros H Hsc Hrect.
  destruct (readable t); [|discriminate]. simpl in H. rewrite Hsc in H.
  split; [reflexivity|].
  destruct (Z.eqb axis 0).
  - destruct (Torch.reduce_cols f (t_rows t)) as [row|] eqn:E;
      [|discriminate].
    inv_ok H. exists row. split; [reflexivity|].
    eapply reduce_cols_length; eauto.
  - destruct (sequence _) as [col|] eqn:E; [|discriminate].
    inv_ok H. exists col. split; [reflexivity|].
    apply sequence_length in E. now rewrite length_map in E.
Qed.

Lemma min_max_broadcasts a Wg mn mx o :
  Quantizer.min_max a Wg = Ok (mn, mx, o) ->
  t_scalar Wg = false ->
  rect (row_len Wg) (t_rows Wg) ->
  exists (Y : list (list (Q * Q))) Zf,
    img mn Y fst /\ img mx Y snd
    /\ broadcasts (t_rows Wg) Y Zf
    /\ readable Wg = true
    /\ (o = true -> Quantizer.optimize a = true).
Proof.
  unfold Quantizer.min_max. intros H Hsc Hrect.
  destruct (Quantizer.channel_wise a); cbn [negb] in H.
  - inv_bind H. inv_bind H. inv_ok H.
    destruct (reduce_axis_inv _ _ _ _ E Hsc Hrect) as [Hread Hmn].
    destruct (reduce_axis_inv _ _ _ _ E0 Hsc Hrect) as [_ Hmx].
    destruct (Z.eqb (Quantizer.axis a) 0).
    + destruct Hmn as (rmin & -> & Lmin). destruct Hmx as (rmax & -> & Lmax).
      exists [map2 pair rmin rmax], (map (fun w => map2 pair w (map2 pair rmin rmax)) (t_rows Wg)).
      split; [split; [apply dtype_eqb_refl|]; simpl;
              now rewrite map2_pair_fst by congruence|].
      split; [split; [apply dtype_eqb_refl|]; simpl;
              now rewrite map2_pair_snd by congruence|].
      split; [|auto].
      right. left. eexists. split; [reflexivity|]. split; [|reflexivity].
      eapply Forall_impl; [|exact Hrect]. intros row Hrow.
      rewrite length_map2_pair; congruence.
    + destruct Hmn as (cmin & -> & Lmin). destruct Hmx as (cmax & -> & Lmax).
      exists (map (fun y => [y]) (map2 pair cmin cmax)),
        (map2 (fun w y => map (fun x => (x, y)) w) (t_rows Wg)
           (map2 pair cmin cmax)).
      split; [split; [apply dtype_eqb_refl|]; simpl;
              rewrite map_map; simpl;
              rewrite <- (map2_pair_fst cmin cmax) at 1 by congruence;
              now rewrite map_map|].
      split; [split; [apply dtype_eqb_refl|]; simpl;
              rewrite map_map; simpl;
              rewrite <- (map2_pair_snd cmin cmax) at 1 by congruence;
              now rewrite map_map|].
      split; [|auto].
      right. right. eexists. split; [reflexivity|]. split; [|reflexivity].
      rewrite length_map2_pair; congruence.
  - inv_bind H. inv_bind H. inv_ok H.
    destruct (reduce_all_inv _ _ _ E) as [Hread (x & ->)].
    destruct (reduce_all_inv _ _ _ E0) as [_ (x' & ->)].
    exists [[(x, x')]], (map (map (fun w => (w, (x, x')))) (t_rows Wg)).
    split; [split; [apply dtype_eqb_refl | reflexivity]|].
    split; [split; [apply dtype_eqb_refl | reflexivity]|].
    split; [|split; [exact Hread | discriminate]].
    left. eexists. split; reflexivity.
Qed.

(** ** The grouped tensor and its codes *)

Lemma rect_hd {A} c (rows : list (list A)) :
  Forall (fun r => length r = c) rows ->
  Forall (fun r => length r = length (hd [] rows)) rows.
Proof.
  intros H. destruct rows as [|r rows]; [constructor|].
  simpl. inversion H; subst. assumption.
Qed.

Lemma grouped_facts tensor a Wg :
  Quantizer.grouped tensor a = Ok Wg ->
  t_scalar tensor = false ->
  rect (row_len tensor) (t_rows tensor) ->
  t_scalar Wg = false
  /\ readable Wg = true
  /\ t_dtype Wg = float32
  /\ rect (row_len Wg) (t_rows Wg)
  /\ concat (t_rows Wg) = concat (t_rows tensor).
Proof.
  intros G Hsc Hrect.
  destruct (grouped_inv _ _ _ G) as (W & _ & F & R).
  destruct (float_inv _ _ F) as [-> _].
  assert (Hself : t_scalar (fresh float32 (t_scalar tensor) (t_rows tensor))
                  = false
                  /\ readable (fresh float32 (t_scalar tensor)
                                 (t_rows tensor)) = true
                  /\ t_dtype (fresh float32 (t_scalar tensor)
                                (t_rows tensor)) = float32
                  /\ rect (row_len (fresh float32 (t_scalar tensor)
                                      (t_rows tensor)))
                       (t_rows (fresh float32 (t_scalar tensor)
                                  (t_rows tensor)))
                  /\ concat (t_rows (fresh float32 (t_scalar tensor)
                                       (t_rows tensor)))
                     = concat (t_rows tensor)).
  { simpl. repeat split; auto. }
  assert (Hre : forall r c,
             Torch.reshape2 r c
               (fresh float32 (t_scalar tensor) (t_rows tensor)) = Ok Wg ->
             t_scalar Wg = false /\ readable Wg = true
             /\ t_dtype Wg = float32
             /\ rect (row_len Wg) (t_rows Wg)
             /\ concat (t_rows Wg) = concat (t_rows tensor)).
  { intros r c H. destruct (reshape2_inv _ _ _ _ H) as (_ & -> & _ & Hr & Hc).
    simpl in *. repeat split; auto. unfold row_len. simpl.
    now apply rect_hd with (c := c). }
  unfold Quantizer.regroup in R.
  destruct (Quantizer.group_size a) as [g|]; [|inv_ok R; exact Hself].
  destruct (Quantizer.channel_wise a); [|inv_ok R; exact Hself].
  destruct (Z.eqb (Quantizer.axis a) 1).
  - unfold Torch.reshape_rows_of in R.
    destruct (Nat.eqb g 0); [discriminate|].
    destruct (Nat.eqb _ 0); [|discriminate]. eapply Hre; eauto.
  - unfold Torch.reshape_cols_of in R.
    destruct (Nat.eqb g 0); [discriminate|].
    destruct (Nat.eqb _ 0); [|discriminate]. eapply Hre; eauto.
Qed.

Lemma round_half_even_integer q k :
  q == inject_Z k -> Torch.round_half_even q = k.
Proof.
  intros H. unfold Torch.round_half_even.
  assert (Hf : Qfloor q = k) by (rewrite H; apply Qfloor_Z).
  rewrite Hf.
  assert (Hd : q - inject_Z k == 0) by (rewrite H; ring).
  rewrite (Qcompare_comp _ _ Hd (1 # 2) (1 # 2) (Qeq_refl _)).
  reflexivity.
Qed.

Lemma clamp_code max_v k :
  (0 <= k <= max_v)%Z ->
  Qmin (Qmax (inject_Z k) 0) (inject_Z max_v) = inject_Z k.
Proof.
  intros [H0 H1].
  assert (Hmax : Qmax (inject_Z k) 0 = inject_Z k).
  { unfold Qmax, GenericMinMax.gmax.
    destruct (Qcompare_spec (inject_Z k) 0) as [E|L|G]; try reflexivity.
    exfalso. unfold Qlt in L. simpl in L. lia. }
  rewrite Hmax.
  unfold Qmin, GenericMinMax.gmin.
  destruct (Qcompare_spec (inject_Z k) (inject_Z max_v)) as [E|L|G];
    try reflexivity.
  exfalso. unfold Qlt in G. simpl in G. lia.
Qed.

(** Lines 131-146 without the solver, on a scale and a zero that broadcast
    against the grouped tensor. *)
Lemma codes_chain opt a max_v Wg s z0 (Y : list (list (Q * Q))) Zf
  sigma zeta0 codes s1 z1 :
  readable Wg = true ->
  broadcasts (t_rows Wg) Y Zf ->
  img s Y sigma -> img z0 Y zeta0 ->
  Quantizer.codes opt a false max_v Wg s z0 = Ok (codes, s1, z1) ->
  let zeta := fun y => if Quantizer.round_zero a
                       then inject_Z (Torch.round_half_even (zeta0 y))
                       else zeta0 y in
  let yfun := fun z : Q * (Q * Q) =>
                fst z * sigma (snd z) + zeta (snd z) in
  s1 = s /\ img z1 Y zeta
  /\ exists ws y,
      Torch.mul Wg s = Ok ws /\ Torch.add ws z1 = Ok y
      /\ img y Zf yfun
      /\ img codes Zf
           (fun z => Qmin (Qmax (inject_Z (Torch.round_half_even (yfun z))) 0)
                       (inject_Z max_v))
      /\ t_scalar codes = t_scalar Wg && t_scalar s && t_scalar z1.
Proof.
  intros Hread HB Is Iz0 H zeta yfun.
  assert (IW : img Wg Zf fst).
  { split; [exact Hread|]. symmetry. eapply broadcast_fst; eauto. }
  assert (Hz : exists z1',
             (if Quantizer.round_zero a then Torch.round z0 else Ok z0)
             = Ok z1' /\ img z1' Y zeta).
  { unfold zeta. destruct (Quantizer.round_zero a).
    - destruct (pointwise_img
                  (fun x => inject_Z (Torch.round_half_even x)) _ _ _ Iz0)
        as (r & E & I & _).
      exists r. split; [exact E | exact I].
    - exists z0. split; [reflexivity|]. eapply img_ext; [|exact Iz0].
      reflexivity. }
  destruct Hz as (z1' & Ez & Iz).
  unfold Quantizer.codes in H. rewrite Ez in H. cbn [bind] in H.
  destruct (binary_broadcast _ _ _ HB Qmult Wg s fst sigma IW Is)
    as (ws & Ews & Iws & Sws & _).
  unfold Torch.mul in H |- *. rewrite Ews in H. cbn [bind] in H.
  destruct (binary_broadcast _ _ _ HB Qplus ws z1' _ zeta Iws Iz)
    as (y & Ey & Iy & Sy & _).
  unfold Torch.add in H |- *. rewrite Ey in H. cbn [bind] in H.
  destruct (pointwise_img (fun x => inject_Z (Torch.round_half_even x))
              _ _ _ Iy) as (r & Er & Ir & Sr).
  unfold Torch.round in H. rewrite Er in H. cbn [bind] in H.
  destruct (pointwise_img (fun x => Qmin (Qmax x 0) (inject_Z max_v))
              _ _ _ Ir) as (c & Ec & Ic & Sc).
  unfold Torch.clamp in H. rewrite Ec in H. cbn [bind] in H.
  injection H as -> -> ->.
  split; [reflexivity|]. split; [exact Iz|].
  exists ws, y. repeat (split; [first [assumption | reflexivity]|]).
  rewrite Sc, Sr, Sy, Sws. reflexivity.
Qed.

Lemma supported_layout nbits :
  In nbits Quantizer.SUPPORTED_BITS ->
  exists p b r d packer unpacker,
    Quantizer.lookup_num nbits Quantizer.bit_to_packing = Some p
    /\ Quantizer.lookup_str p layout = Some (b, r)
    /\ Quantizer.lookup_str p Quantizer.pack = Some packer
    /\ Quantizer.lookup_str p Quantizer.unpack = Some unpacker
    /\ Quantizer.lookup_str p Quantizer.unpack_view_dtype = Some d
    /\ (1 <= Quantizer.max_value nbits < 2 ^ Z.of_nat b)%Z
    /\ (p =? "")%string = false.
Proof.
  unfold Quantizer.SUPPORTED_BITS. simpl.
  intros [<-|[<-|[<-|[<-|[<-|[<-|[<-|[<-|[]]]]]]]]];
    do 6 eexists;
    (split; [vm_compute; reflexivity|]);
    do 4 (split;
          [cbv [Quantizer.lookup_str Quantizer.pack Quantizer.unpack
                  Quantizer.unpack_view_dtype layout
                  String.eqb Ascii.eqb Bool.eqb];
           reflexivity|]);
    (split; [vm_compute; split; [discriminate | reflexivity]
            | vm_compute; reflexivity]).
Qed.

Lemma inv_scale_nonzero max_v mn mx :
  (1 <= max_v)%Z -> ~ inv_scale max_v mn mx == 0.
Proof.
  intros Hm. unfold inv_scale. cbv zeta.
  assert (Hmin : forall q, ~ q == 0 -> ~ Qmin q 20000 == 0).
  { intros q Hq. destruct (Q.min_spec q 20000) as [[_ E]|[_ E]];
      rewrite E; [exact Hq | discriminate]. }
  apply Hmin.
  destruct (Qle_bool (Qabs (mx - mn)) (1 # 10000)) eqn:E; [discriminate|].
  assert (Hd : ~ mx - mn == 0).
  { intros Hz. rewrite Hz in E. discriminate. }
  intros Hq. unfold Qdiv in Hq.
  apply Qmult_integral in Hq. destruct Hq as [Hq|Hq].
  - unfold Qeq in Hq. simpl in Hq. lia.
  - apply Hd. rewrite <- (Qinv_involutive (mx - mn)), Hq. reflexivity.
Qed.

Lemma firstn_kept {A} k (l1 l2 : list A) :
  Nat.min k (length (l1 ++ l2)) = length l1 -> firstn k (l1 ++ l2) = l1.
Proof.
  intros H. rewrite length_app in H.
  destruct (Nat.le_gt_cases (length l1 + length l2) k) as [Hle|Hgt].
  - assert (Hl2 : length l2 = 0%nat) by lia.
    destruct l2; [|discriminate]. rewrite app_nil_r.
    apply firstn_all2. simpl in Hle. lia.
  - assert (Hk : k = length l1) by lia. subst k.
    rewrite firstn_app, Nat.sub_diag, firstn_all. simpl.
    apply app_nil_r.
Qed.

Lemma Forall2_firstn_skipn {A B} (R : A -> B -> Prop) n l l' :
  Forall2 R l l' ->
  Forall2 R (firstn n l) (firstn n l') /\ Forall2 R (skipn n l) (skipn n l').
Proof.
  intros H. revert n. induction H as [|x y l l' Hxy Hl IH]; intros n.
  - rewrite !firstn_nil, !skipn_nil. auto.
  - destruct n as [|n]; simpl.
    + split; constructor; assumption.
    + destruct (IH n). split; [now constructor | assumption].
Qed.

Lemma chunks_Forall2 (R : Q -> Q -> Prop) r c l l' :
  Forall2 R l l' -> Forall2 (Forall2 R) (chunks r c l) (chunks r c l').
Proof.
  revert l l'. induction r as [|r IH]; intros l l' H; simpl; [constructor|].
  destruct (Forall2_firstn_skipn R c l l' H). constructor; auto.
Qed.

Lemma Forall2_map_same {T} (R : Q -> Q -> Prop) (f g : T -> Q) (l : list T) :
  Forall (fun z => R (f z) (g z)) l -> Forall2 R (map f l) (map g l).
Proof. induction 1; simpl; constructor; auto. Qed.

Lemma mall_concat {T} (P : T -> Prop) (Z : list (list T)) :
  mall P Z -> Forall P (concat Z).
Proof.
  induction 1 as [|r Z Hr _ IH]; simpl; [constructor|].
  apply Forall_app. auto.
Qed.

Lemma mall_of_map {T A} (P : A -> Prop) (f : T -> A) (Z : list (list T)) :
  mall P (map (map f) Z) -> mall (fun z => P (f z)) Z.
Proof.
  unfold mall. intros H. apply (proj1 (Forall_map _ _ _)) in H.
  eapply Forall_impl; [|exact H].
  intros r Hr. exact (proj1 (Forall_map _ _ _) Hr).
Qed.

Lemma img_rows_length {T} t (Z : list (list T)) g :
  img t Z g ->
  n_rows t = length Z
  /\ row_len t = length (hd [] Z)
  /\ (rect (row_len t) (t_rows t)
      <-> Forall (fun r => length r = length (hd [] Z)) Z).
Proof.
  intros [_ Hrows]. unfold n_rows, row_len, rect. rewrite Hrows.
  rewrite length_map.
  assert (Hhd : length (hd [] (map (map g) Z)) = length (hd [] Z))
    by (destruct Z; simpl; [reflexivity | apply length_map]).
  rewrite Hhd. split; [reflexivity|]. split; [reflexivity|].
  split; intros H.
  - apply (proj1 (Forall_map _ _ _)) in H. eapply Forall_impl; [|exact H].
    intros r Hr. simpl in Hr. now rewrite length_map in Hr.
  - apply (proj2 (Forall_map _ _ _)). eapply Forall_impl; [|exact H].
    intros r Hr. simpl. now rewrite length_map.
Qed.

Lemma same_values_shape A B :
  same_values A B ->
  readable A = true -> readable B = true ->
  t_scalar A = t_scalar B ->
  shape A = shape B.
Proof.
  unfold same_values, shape, readable, n_rows, row_len.
  intros H RA RB Hsc. rewrite Hsc.
  destruct (t_scalar B); [reflexivity|].
  apply dtype_eqb_eq in RA, RB. rewrite RA, RB.
  rewrite !Nat.div_mul by (pose proof (bit_width_pos (t_store A));
                           pose proof (bit_width_pos (t_store B)); lia).
  f_equal.
  - eapply Forall2_length; eauto.
  - f_equal. destruct H as [|ra rb la lb Hr _]; [reflexivity|].
    simpl. eapply Forall2_length; eauto.
Qed.

(** * Further properties of the code *)

(** ** The backend switch *)

Lemma last_cons {A} (a d : A) l : last (a :: l) d = last l a.
Proof.
  revert a d. induction l as [|x l IH]; intros a d; [reflexivity|].
  change (last (a :: x :: l) d) with (last (x :: l) d).
  rewrite (IH x d), (IH x a). reflexivity.
Qed.

Lemma set_backend_unavailable b p :
  HQQLinear.hqq_aten_is_available p = false ->
  HQQLinear.PRINT_ATEN_WARNING p = true ->
  let p' := snd (HQQLinear.set_backend b p) in
  HQQLinear.hqq_aten_is_available p' = false
  /\ HQQLinear.PRINT_ATEN_WARNING p' = true
  /\ HQQLinear.PRINT_ZERO_SCALE_DEPRECATED p'
     = HQQLinear.PRINT_ZERO_SCALE_DEPRECATED p
  /\ HQQLinear.backend p' = (if is_aten b then HQQLinear.backend p else b)
  /\ HQQLinear.forward p'
     = (if is_aten b then HQQLinear.forward p
        else Some (HQQLinear.backend_value b))
  /\ HQQLinear.stdout p'
     = (HQQLinear.stdout p
        ++ if is_aten b then [HQQLinear.aten_missing_warning] else [])%list.
Proof.
  intros Ha Hw. unfold HQQLinear.set_backend. fold (is_aten b).
  rewrite Hw, Ha, andb_true_r. cbn [negb].
  destruct (is_aten b); cbn; rewrite ?app_nil_r; repeat split; auto.
Qed.

Lemma set_backend_available b p :
  HQQLinear.hqq_aten_is_available p = true ->
  let p' := snd (HQQLinear.set_backend b p) in
  let warn := is_aten b && HQQLinear.PRINT_ATEN_WARNING p in
  HQQLinear.hqq_aten_is_available p' = true
  /\ HQQLinear.PRINT_ATEN_WARNING p'
     = (HQQLinear.PRINT_ATEN_WARNING p && negb (is_aten b))
  /\ HQQLinear.backend p' = b
  /\ HQQLinear.forward p' = Some (HQQLinear.backend_value b)
  /\ HQQLinear.stdout p'
     = (HQQLinear.stdout p
        ++ if warn then [HQQLinear.aten_warning] else [])%list.
Proof.
  intros Ha. unfold HQQLinear.set_backend. fold (is_aten b).
  rewrite Ha. cbn [negb].
  destruct (is_aten b), (HQQLinear.PRINT_ATEN_WARNING p) eqn:Hw;
    cbn; rewrite ?app_nil_r, ?Hw; repeat split; auto.
Qed.

(** X1.  [HQQLinear.set_backend] (lines 497-511) when the [hqq_aten] library
    is not installed and the warning flag is set, as it is when the module is
    loaded: over any sequence of calls no ATEN backend is ever installed.
    The class keeps the last backend requested that is not an ATEN one (the
    one it had when none was), every ATEN request prints the "not availabe"
    message and returns, and the warning flag stays set. *)
Theorem aten_never_selected_when_unavailable bs p :
  HQQLinear.hqq_aten_is_available p = false ->
  HQQLinear.PRINT_ATEN_WARNING p = true ->
  let p' := set_backends bs p in
  HQQLinear.backend p'
  = last (filter (fun b => negb (is_aten b)) bs) (HQQLinear.backend p)
  /\ HQQLinear.stdout p'
     = (HQQLinear.stdout p
        ++ repeat HQQLinear.aten_missing_warning
             (length (filter is_aten bs)))%list
  /\ HQQLinear.PRINT_ATEN_WARNING p' = true
  /\ (is_aten (HQQLinear.backend p) = false ->
      is_aten (HQQLinear.backend p') = false).
Proof.
  revert p. induction bs as [|b bs IH]; intros p Ha Hw; cbn [set_backends].
  - cbn. rewrite app_nil_r. auto.
  - destruct (set_backend_unavailable b p Ha Hw)
      as (Ha' & Hw' & _ & Hb & _ & Hout).
    destruct (IH _ Ha' Hw') as (IB & IO & IW & II).
    cbv zeta. split; [|split; [|split; [exact IW|]]].
    + rewrite IB, Hb. cbn [filter].
      destruct (is_aten b); cbn [negb]; [reflexivity|].
      symmetry. apply last_cons.
    + rewrite IO, Hout. cbn [filter].
      destruct (is_aten b); cbn [length repeat].
      * now rewrite <- app_assoc.
      * now rewrite app_nil_r.
    + intros H0. apply II. rewrite Hb.
      destruct (is_aten b) eqn:E; [exact H0 | exact E].
Qed.

Lemma aten_never_selected_when_unavailable_witness :
  let p' :=
    set_backends
      [HQQLinear.ATEN; HQQLinear.PYTORCH_COMPILE; HQQLinear.ATEN_FORWARD]
      (HQQLinear.start false) in
  HQQLinear.backend p' = HQQLinear.PYTORCH_COMPILE
  /\ HQQLinear.stdout p'
     = [HQQLinear.aten_missing_warning; HQQLinear.aten_missing_warning]
  /\ HQQLinear.PRINT_ATEN_WARNING p' = true.
Proof.
  destruct (aten_never_selected_when_unavailable
              [HQQLinear.ATEN; HQQLinear.PYTORCH_COMPILE;
               HQQLinear.ATEN_FORWARD]
              (HQQLinear.start false) eq_refl eq_refl)
    as (H1 & H2 & H3 & _).
  split; [exact H1|]. split; [exact H2 | exact H3].
Defined.

(** X2.  [HQQLinear.set_backend] (lines 497-511) when the [hqq_aten] library
    is installed: every call installs the backend it is given, so after a
    sequence of calls the class has the last one; the ATEN warning is printed
    once, by the first ATEN request, which clears the warning flag. *)
Theorem aten_warning_printed_once bs p :
  HQQLinear.hqq_aten_is_available p = true ->
  HQQLinear.PRINT_ATEN_WARNING p = true ->
  let p' := set_backends bs p in
  HQQLinear.backend p' = last bs (HQQLinear.backend p)
  /\ HQQLinear.stdout p'
     = (HQQLinear.stdout p
        ++ if existsb is_aten bs then [HQQLinear.aten_warning] else [])%list
  /\ HQQLinear.PRINT_ATEN_WARNING p' = negb (existsb is_aten bs).
Proof.
  intros Ha Hw.
  assert (G : forall bs p,
             HQQLinear.hqq_aten_is_available p = true ->
             let p' := set_backends bs p in
             HQQLinear.backend p' = last bs (HQQLinear.backend p)
             /\ HQQLinear.stdout p'
                = (HQQLinear.stdout p
                   ++ if existsb is_aten bs && HQQLinear.PRINT_ATEN_WARNING p
                      then [HQQLinear.aten_warning] else [])%list
             /\ HQQLinear.PRINT_ATEN_WARNING p'
                = (HQQLinear.PRINT_ATEN_WARNING p
                   && negb (existsb is_aten bs))).
  { clear. induction bs as [|b bs IH]; intros p Ha; cbn [set_backends].
    - cbn. rewrite app_nil_r, andb_true_r. auto.
    - destruct (set_backend_available b p Ha) as (Ha' & Hw' & Hb & _ & Hout).
      destruct (IH _ Ha') as (IB & IO & IW).
      cbv zeta. rewrite IB, IO, IW, Hb, Hout, Hw'. cbn [existsb].
      split; [symmetry; apply last_cons|].
      rewrite <- app_assoc.
      destruct (is_aten b), (HQQLinear.PRINT_ATEN_WARNING p),
        (existsb is_aten bs); cbn; auto. }
  destruct (G bs p Ha) as (GB & GO & GW).
  cbv zeta. rewrite GB, GO, GW, Hw, andb_true_r. auto.
Qed.

Lemma aten_warning_printed_once_witness :
  let p' :=
    set_backends
      [HQQLinear.ATEN; HQQLinear.PYTORCH; HQQLinear.ATEN_FORWARD]
      (HQQLinear.start true) in
  HQQLinear.backend p' = HQQLinear.ATEN_FORWARD
  /\ HQQLinear.stdout p' = [HQQLinear.aten_warning]
  /\ HQQLinear.PRINT_ATEN_WARNING p' = false.
Proof.
  exact (aten_warning_printed_once
           [HQQLinear.ATEN; HQQLinear.PYTORCH; HQQLinear.ATEN_FORWARD]
           (HQQLinear.start true) eq_refl eq_refl).
Defined.

(** ** The constructed layer *)

Lemma convert_all_get cd m m' k v :
  Quantizer.convert_all cd m = Ok m' ->
  Dict.get k m = Some v -> plain v = true -> Dict.get k m' = Some v.
Proof.
  revert m'. induction m as [|[k0 v0] m IH]; intros m' H G P;
    cbn [Quantizer.convert_all Dict.get] in *; [discriminate|].
  inv_bind H. inv_bind H. inv_ok H. cbn [Dict.get].
  destruct (String.eqb k k0).
  - inv_ok G. destruct v; try discriminate; now inv_ok E.
  - eauto.
Qed.

Lemma convert_all_mem cd m m' k :
  Quantizer.convert_all cd m = Ok m' -> Dict.mem k m' = Dict.mem k m.
Proof.
  unfold Dict.mem.
  revert m'. induction m as [|[k0 v0] m IH]; intros m' H;
    cbn [Quantizer.convert_all Dict.get] in *.
  - now inv_ok H.
  - inv_bind H. inv_bind H. inv_ok H. cbn [Dict.get].
    destruct (String.eqb k k0); [reflexivity | eauto].
Qed.

Lemma cuda_meta_tensor_get flag key q_key meta_key m m' k :
  HQQLinear.cuda_meta_tensor flag key q_key meta_key m = Ok m' ->
  k <> key -> k <> q_key -> k <> meta_key ->
  Dict.get k m' = Dict.get k m.
Proof.
  unfold HQQLinear.cuda_meta_tensor. intros H N1 N2 N3.
  inv_bind H. inv_bind H. destruct x0.
  - destruct (Dict.mem q_key m).
    + inv_bind H. inv_bind H. inv_bind H. inv_bind H. destruct x3 as [q' mz].
      inv_ok H. rewrite get_set_other by congruence.
      destruct q'; now rewrite get_set_other by congruence.
    + inv_bind H. inv_bind H. inv_bind H. destruct x2 as [q' mz].
      inv_ok H. now rewrite get_set_other by congruence.
  - destruct (Dict.mem key m).
    + inv_bind H. inv_ok H. now rewrite get_set_other by congruence.
    + now inv_ok H.
Qed.

Lemma offload_get cd m m' k :
  HQQLinear.offload cd m = Ok m' ->
  k <> "zero_scale" -> k <> "zero_q" -> k <> "scale_q" ->
  k <> "zero" -> k <> "scale" ->
  Dict.get k m' = Dict.get k m.
Proof.
  unfold HQQLinear.offload. intros H N1 N2 N3 N4 N5.
  inv_bind H. inv_bind H. inv_ok H.
  rewrite get_set_other by congruence.
  destruct (negb (Dict.mem "zero_scale" m)); [|now inv_ok E].
  inv_bind E. inv_bind E. inv_bind E. destruct x3.
  - inv_bind E. inv_bind E. inv_bind E. inv_ok E.
    now rewrite !get_remove_other, get_set_other by congruence.
  - inv_bind E. inv_bind E. inv_bind E. inv_bind E. inv_bind E. inv_ok E.
    now rewrite !get_remove_other, get_set_other by congruence.
Qed.

Lemma cuda_post self dev l :
  HQQLinear.cuda self dev = Ok l ->
  exists m0 m,
    HQQLinear.meta self = Some m0
    /\ HQQLinear.meta l = Some m
    /\ HQQLinear.W_q l = HQQLinear.W_q self
    /\ HQQLinear.in_gpu l = true
    /\ HQQLinear.device l = dev
    /\ HQQLinear.ready l = HQQLinear.ready self
    /\ HQQLinear.compute_dtype l = HQQLinear.compute_dtype self
    /\ HQQLinear.quant_config l = HQQLinear.quant_config self
    /\ HQQLinear.linear_layer l = HQQLinear.linear_layer self
    /\ HQQLinear.features l = HQQLinear.features self
    /\ HQQLinear.del_orig l = HQQLinear.del_orig self
    /\ Dict.get "compute_dtype" m
       = Some (VDtype (HQQLinear.compute_dtype self))
    /\ (forall k v,
           untouched_by_cuda k -> plain v = true ->
           Dict.get k m0 = Some v -> Dict.get k m = Some v).
Proof.
  unfold HQQLinear.cuda. intros H.
  inv_bind H. rename x into m0.
  destruct (HQQLinear.meta self) as [m0'|] eqn:Em; [|discriminate].
  inv_ok E.
  inv_bind H. destruct x as [w m1].
  unfold Quantizer.cuda, Quantizer.to_inplace in E.
  inv_bind E. inv_bind E. inv_ok E. rename x into cd. rename E0 into Ecd.
  rename E1 into Econv.
  inv_bind H. rename x into m2. rename E into Ez.
  inv_bind H. rename x into m3. rename E into Es.
  inv_bind H. rename x into off.
  inv_bind H. rename x into m4. rename E0 into Eoff.
  inv_bind H. inv_ok H.
  exists m0, m4. cbn.
  assert (Hget : forall k v,
             k <> "zero" -> k <> "zero_q" -> k <> "meta_zero" ->
             k <> "scale" -> k <> "scale_q" -> k <> "meta_scale" ->
             k <> "zero_scale" -> plain v = true ->
             Dict.get k (Dict.set "compute_dtype"
                           (VDtype (HQQLinear.compute_dtype self)) m0)
             = Some v ->
             Dict.get k m4 = Some v).
  { intros k v N1 N2 N3 N4 N5 N6 N7 P G.
    assert (G3 : Dict.get k m3 = Some v).
    { rewrite (cuda_meta_tensor_get _ _ _ _ _ _ k Es) by assumption.
      rewrite (cuda_meta_tensor_get _ _ _ _ _ _ k Ez) by assumption.
      eapply convert_all_get; eauto. }
    destruct off; [|now inv_ok Eoff].
    now rewrite (offload_get _ _ _ k Eoff) by assumption. }
  repeat (split; [reflexivity|]).
  split.
  - apply Hget; try discriminate; [reflexivity|]. apply get_set_same.
  - intros k v U P G. unfold untouched_by_cuda in U. cbn [In] in U.
    apply Hget; try (intros ->; apply U; now auto 12); [exact P|].
    rewrite get_set_other; [exact G|].
    intros ->; apply U; now auto 12.
Qed.

Lemma quantize_post opt self W w l :
  HQQLinear.quantize opt self W w VNone VNone = Ok l ->
  exists W_q meta f,
    HQQLinear.W_q l = Some W_q /\ HQQLinear.meta l = Some meta
    /\ HQQLinear.ready l = true /\ HQQLinear.in_gpu l = true
    /\ HQQLinear.device l = HQQLinear.device self
    /\ HQQLinear.compute_dtype l = HQQLinear.compute_dtype self
    /\ HQQLinear.quant_config l = HQQLinear.quant_config self
    /\ HQQLinear.linear_layer l = HQQLinear.linear_layer self
    /\ HQQLinear.del_orig l = HQQLinear.del_orig self
    /\ HQQLinear.offload_meta l = HQQLinear.offload_meta self
    /\ HQQLinear.features l = Some f
    /\ HQQLinear.transposed_shape W = Ok f
    /\ Dict.get "compute_dtype" meta
       = Some (VDtype (HQQLinear.compute_dtype self))
    /\ Dict.get "quant_scale" meta = Some (VBool false)
    /\ Dict.get "quant_zero" meta = Some (VBool false)
    /\ Dict.get "shape" meta = Some (VShape (shape W)).
Proof.
  intros H0. pose proof (quantize_keeps_offload_meta _ _ _ _ _ _ _ H0) as Ho.
  revert H0.
  unfold HQQLinear.quantize. cbn [HQQLinear.is_none negb]. intros H.
  inv_bind H. rename x into f. rename E into Ef.
  inv_bind H. rename x into kw.
  inv_bind H. rename x into a. rename E0 into Ea.
  inv_bind H. destruct x as [wq meta0]. rename E0 into Eq.
  cbn [bind] in H.
  inv_bind H. rename x into l1. rename E0 into Ec. inv_ok H.
  destruct (cuda_post _ _ _ Ec)
    as (m0 & m & Hm0 & Hm & Hw & Hg & Hd & _ & Hcd & Hqc & Hll & Hf & Hdo
        & Gcd & Gk).
  cbn in Hm0, Hw, Hcd, Hqc, Hll, Hf, Hdo, Gcd. inv_ok Hm0.
  exists wq, m, f. cbn.
  rewrite Hw, Hm, Hg, Hd, Hcd, Hqc, Hll, Hf, Hdo, Gcd.
  repeat (split; [reflexivity|]).
  split; [exact Ho|].
  split; [reflexivity|]. split; [exact Ef|]. split; [reflexivity|].
  assert (Hshape : Dict.get "shape" meta0 = Some (VShape (shape W))).
  { destruct (quantize_inv _ _ _ _ _ Eq)
      as (codes & s & z & s' & p & d & _ & _ & _ & _ & Hmeta).
    destruct (Quantizer.bitpack a); destruct Hmeta as [-> _]; reflexivity. }
  split; [|split].
  - apply Gk; [|reflexivity|].
    + unfold untouched_by_cuda. cbn [In]. intuition discriminate.
    + rewrite get_set_other by discriminate. apply get_set_same.
  - apply Gk; [|reflexivity|].
    + unfold untouched_by_cuda. cbn [In]. intuition discriminate.
    + apply get_set_same.
  - apply Gk; [|reflexivity|].
    + unfold untouched_by_cuda. cbn [In]. intuition discriminate.
    + now rewrite !get_set_other by discriminate.
Qed.

Lemma default_group_size_keeps lin qc qc' k :
  HQQLinear.default_group_size lin qc = Ok qc' ->
  k <> "weight_quant_params" ->
  Dict.get k qc' = Dict.get k qc.
Proof.
  unfold HQQLinear.default_group_size. intros H N.
  inv_bind H. inv_bind H. inv_bind H.
  destruct (HQQLinear.is_none x1).
  - inv_bind H. inv_ok H. now rewrite get_set_other.
  - now inv_ok H.
Qed.

Lemma quantize_linear_post opt self lin qc l :
  HQQLinear.quantize_linear opt self lin qc = Ok l ->
  Dict.get "scale_quant_params" qc = Some VNone ->
  Dict.get "zero_quant_params" qc = Some VNone ->
  HQQLinear.ready l = true
  /\ HQQLinear.in_gpu l = true
  /\ HQQLinear.is_initialized l = true
  /\ HQQLinear.device l = HQQLinear.device self
  /\ HQQLinear.compute_dtype l = HQQLinear.compute_dtype self
  /\ HQQLinear.linear_layer l
     = (if HQQLinear.del_orig self then None
        else HQQLinear.linear_layer self)
  /\ HQQLinear.offload_meta l = HQQLinear.offload_meta self
  /\ (exists f, HQQLinear.transposed_shape (HQQLinear.weight lin) = Ok f
                /\ HQQLinear.features l = Some f)
  /\ (exists meta,
         HQQLinear.meta l = Some meta
         /\ Dict.get "compute_dtype" meta
            = Some (VDtype (HQQLinear.compute_dtype self))
         /\ Dict.get "quant_scale" meta = Some (VBool false)
         /\ Dict.get "quant_zero" meta = Some (VBool false)
         /\ Dict.get "shape" meta
            = Some (VShape (shape (HQQLinear.weight lin))))
  /\ (exists qc',
         HQQLinear.quant_config l = VDict qc'
         /\ Dict.get "scale_quant_params" qc' = Some VNone
         /\ Dict.get "zero_quant_params" qc' = Some VNone)
  /\ match HQQLinear.linear_bias lin with
     | None => HQQLinear.bias l = None
     | Some b =>
         exists b', Torch.to (HQQLinear.compute_dtype self) b = Ok b'
                    /\ HQQLinear.bias l = Some b'
     end.
Proof.
  unfold HQQLinear.quantize_linear, HQQLinear.quantize_kwargs.
  intros H Hs Hz.
  inv_bind H. rename x into qc'. rename E into Eg.
  inv_bind H. rename x into l1.
  destruct (negb _); [discriminate|].
  rewrite (default_group_size_keeps _ _ _ "scale_quant_params" Eg),
    (default_group_size_keeps _ _ _ "zero_quant_params" Eg), Hs, Hz in E
    by discriminate.
  destruct (Dict.get "weight_quant_params" qc') as [w|]; [|discriminate].
  destruct (quantize_post _ _ _ _ _ E)
    as (wq & meta & f & Hw & Hm & Hr & Hg & Hd & Hcd & Hqc & Hll & Hdo & Ho
        & Hf & Ef & G1 & G2 & G3 & G4).
  cbn in Hd, Hcd, Hqc, Hll, Hdo, Ho.
  inv_bind H. rename x into b. rename E0 into Eb. inv_ok H.
  assert (Hcommon :
            forall l2,
              HQQLinear.ready l2 = HQQLinear.ready l1 ->
              HQQLinear.in_gpu l2 = HQQLinear.in_gpu l1 ->
              HQQLinear.W_q l2 = HQQLinear.W_q l1 ->
              HQQLinear.meta l2 = HQQLinear.meta l1 ->
              HQQLinear.device l2 = HQQLinear.device l1 ->
              HQQLinear.compute_dtype l2 = HQQLinear.compute_dtype l1 ->
              HQQLinear.offload_meta l2 = HQQLinear.offload_meta l1 ->
              HQQLinear.features l2 = HQQLinear.features l1 ->
              HQQLinear.quant_config l2 = HQQLinear.quant_config l1 ->
              HQQLinear.bias l2 = b ->
              HQQLinear.linear_layer l2
              = (if HQQLinear.del_orig self then None
                 else HQQLinear.linear_layer self) ->
              HQQLinear.ready l2 = true
              /\ HQQLinear.in_gpu l2 = true
              /\ HQQLinear.is_initialized l2 = true
              /\ HQQLinear.device l2 = HQQLinear.device self
              /\ HQQLinear.compute_dtype l2 = HQQLinear.compute_dtype self
              /\ HQQLinear.linear_layer l2
                 = (if HQQLinear.del_orig self then None
                    else HQQLinear.linear_layer self)
              /\ HQQLinear.offload_meta l2 = HQQLinear.offload_meta self
              /\ (exists f,
                     HQQLinear.transposed_shape (HQQLinear.weight lin) = Ok f
                     /\ HQQLinear.features l2 = Some f)
              /\ (exists meta,
                     HQQLinear.meta l2 = Some meta
                     /\ Dict.get "compute_dtype" meta
                        = Some (VDtype (HQQLinear.compute_dtype self))
                     /\ Dict.get "quant_scale" meta = Some (VBool false)
                     /\ Dict.get "quant_zero" meta = Some (VBool false)
                     /\ Dict.get "shape" meta
                        = Some (VShape (shape (HQQLinear.weight lin))))
              /\ (exists qc',
                     HQQLinear.quant_config l2 = VDict qc'
                     /\ Dict.get "scale_quant_params" qc' = Some VNone
                     /\ Dict.get "zero_quant_params" qc' = Some VNone)
              /\ match HQQLinear.linear_bias lin with
                 | None => HQQLinear.bias l2 = None
                 | Some b =>
                     exists b',
                       Torch.to (HQQLinear.compute_dtype self) b = Ok b'
                       /\ HQQLinear.bias l2 = Some b'
                 end).
  { intros l2 E1 E2 E3 E4 E5 E6 E7 E8 E9 E10 E11.
    unfold HQQLinear.is_initialized.
    rewrite E1, E2, E3, E4, E5, E6, E7, E8, E9, E11, Hw, Hm.
    repeat (split; [first [assumption | reflexivity]|]).
    split; [exists f; auto|].
    split; [exists meta; auto|].
    split.
    - exists qc'. rewrite Hqc. split; [reflexivity|].
      rewrite (default_group_size_keeps _ _ _ "scale_quant_params" Eg),
        (default_group_size_keeps _ _ _ "zero_quant_params" Eg)
        by discriminate. auto.
    - rewrite E10. rewrite Hcd in Eb.
      destruct (HQQLinear.linear_bias lin) as [t|].
      + inv_bind Eb. inv_ok Eb. eauto.
      + now inv_ok Eb. }
  cbn [HQQLinear.del_orig HQQLinear.with_bias].
  rewrite Hdo.
  destruct (HQQLinear.del_orig self) eqn:Edo; apply Hcommon;
    try reflexivity.
  cbn. exact Hll.
Qed.

(** X3.  [HQQLinear.__init__] with a linear layer and [initialize = True]
    (lines 390-462, through [quantize] and [cuda]): whenever the constructor
    returns, the layer is ready, placed on the device and initialized
    ([W_q] and [meta] are set); it has the device and the compute type that
    were asked for; the dense layer is dropped exactly when [del_orig] is
    set; [offload_meta] is the entry popped from the configuration;
    [in_features] and [out_features] are the transposed shape of the weight;
    [meta] records the compute type of the layer, the shape of the weight
    and [quant_scale = quant_zero = False]; the configuration kept on the
    layer has [scale_quant_params] and [zero_quant_params] set to [None]; and
    the bias, if any, was converted to the compute type. *)
Theorem constructed_layer_is_ready opt lin d del_orig cd dev p l :
  fst (HQQLinear.__init__ opt (Some lin) (VDict d) del_orig cd dev true p)
  = Ok l ->
  HQQLinear.ready l = true
  /\ HQQLinear.in_gpu l = true
  /\ HQQLinear.is_initialized l = true
  /\ HQQLinear.device l = dev
  /\ HQQLinear.compute_dtype l = cd
  /\ HQQLinear.linear_layer l = (if del_orig then None else Some lin)
  /\ Dict.get "offload_meta" d = Some (HQQLinear.offload_meta l)
  /\ (exists f, HQQLinear.transposed_shape (HQQLinear.weight lin) = Ok f
                /\ HQQLinear.features l = Some f)
  /\ (exists meta,
         HQQLinear.meta l = Some meta
         /\ Dict.get "compute_dtype" meta = Some (VDtype cd)
         /\ Dict.get "quant_scale" meta = Some (VBool false)
         /\ Dict.get "quant_zero" meta = Some (VBool false)
         /\ Dict.get "shape" meta
            = Some (VShape (shape (HQQLinear.weight lin))))
  /\ (exists qc,
         HQQLinear.quant_config l = VDict qc
         /\ Dict.get "scale_quant_params" qc = Some VNone
         /\ Dict.get "zero_quant_params" qc = Some VNone)
  /\ match HQQLinear.linear_bias lin with
     | None => HQQLinear.bias l = None
     | Some b =>
         exists b', Torch.to cd b = Ok b' /\ HQQLinear.bias l = Some b'
     end.
Proof.
  unfold HQQLinear.__init__, HQQLinear.pbind, HQQLinear.lift.
  destruct (Dict.get "offload_meta" d) as [v|] eqn:Ev; [|discriminate].
  pose proof (set_backend_ok (HQQLinear.backend p) p) as Hb.
  destruct (HQQLinear.set_backend (HQQLinear.backend p) p) as [r p1].
  simpl in Hb. subst r. cbn [fst snd].
  unfold HQQLinear.initialize. cbn [HQQLinear.linear_layer].
  unfold HQQLinear.pbind, HQQLinear.lift, HQQLinear.ret.
  cbn [HQQLinear.quant_config HQQLinear.dict_of].
  set (d1 := Dict.remove "offload_meta" d).
  unfold Dict.item.
  destruct (Dict.get "scale_quant_params" d1) as [sq|] eqn:Es;
    [|discriminate].
  set (self := HQQLinear.mkLayer false false None dev cd (VDict d1) del_orig
                 v (Some lin) None None true None).
  assert (Hfin : forall qc,
             Dict.get "scale_quant_params" qc = Some VNone ->
             Dict.get "zero_quant_params" qc = Some VNone ->
             HQQLinear.quantize_linear opt self lin qc = Ok l ->
             HQQLinear.ready l = true
             /\ HQQLinear.in_gpu l = true
             /\ HQQLinear.is_initialized l = true
             /\ HQQLinear.device l = dev
             /\ HQQLinear.compute_dtype l = cd
             /\ HQQLinear.linear_layer l
                = (if del_orig then None else Some lin)
             /\ Some v = Some (HQQLinear.offload_meta l)
             /\ (exists f,
                    HQQLinear.transposed_shape (HQQLinear.weight lin) = Ok f
                    /\ HQQLinear.features l = Some f)
             /\ (exists meta,
                    HQQLinear.meta l = Some meta
                    /\ Dict.get "compute_dtype" meta = Some (VDtype cd)
                    /\ Dict.get "quant_scale" meta = Some (VBool false)
                    /\ Dict.get "quant_zero" meta = Some (VBool false)
                    /\ Dict.get "shape" meta
                       = Some (VShape (shape (HQQLinear.weight lin))))
             /\ (exists qc,
                    HQQLinear.quant_config l = VDict qc
                    /\ Dict.get "scale_quant_params" qc = Some VNone
                    /\ Dict.get "zero_quant_params" qc = Some VNone)
             /\ match HQQLinear.linear_bias lin with
                | None => HQQLinear.bias l = None
                | Some b =>
                    exists b',
                      Torch.to cd b = Ok b' /\ HQQLinear.bias l = Some b'
                end).
  { intros qc Hs Hz H.
    destruct (quantize_linear_post _ _ _ _ _ H Hs Hz)
      as (H1 & H2 & H3 & H4 & H5 & H6 & H7 & H8 & H9 & H10 & H11).
    cbn in H4, H5, H6, H7, H9, H11. rewrite H7.
    repeat (split; [assumption|]). split; [reflexivity|].
    repeat (split; [assumption|]). assumption. }
  assert (Hdrop : forall q,
             HQQLinear.drop_deprecated d1 q
             = (Ok (without_deprecated d1),
                if HQQLinear.PRINT_ZERO_SCALE_DEPRECATED q
                then warned q else q)).
  { intros q. unfold HQQLinear.drop_deprecated, HQQLinear.pbind,
      HQQLinear.ret.
    destruct (HQQLinear.PRINT_ZERO_SCALE_DEPRECATED q); reflexivity. }
  assert (Hwd : Dict.get "scale_quant_params" (without_deprecated d1)
                = Some VNone
                /\ Dict.get "zero_quant_params" (without_deprecated d1)
                   = Some VNone).
  { unfold without_deprecated. split.
    - rewrite get_set_other by discriminate. apply get_set_same.
    - apply get_set_same. }
  destruct (negb (HQQLinear.is_none sq)) eqn:Esq.
  - rewrite Hdrop. cbn [fst]. apply Hfin; apply Hwd.
  - destruct (Dict.get "zero_quant_params" d1) as [zq|] eqn:Ez;
      [|discriminate].
    destruct (negb (HQQLinear.is_none zq)) eqn:Ezq.
    + rewrite Hdrop. cbn [fst]. apply Hfin; apply Hwd.
    + cbn [fst]. apply Hfin.
      * destruct sq; try discriminate. exact Es.
      * destruct zq; try discriminate. exact Ez.
Qed.

Lemma constructed_layer_is_ready_witness :
  let l :=
    layer_of
      (HQQLinear.__init__ no_optimizer (Some linear_ones)
         (VDict (config meta_params (VBool true))) true float16 "cuda" true
         (HQQLinear.start false)) in
  HQQLinear.ready l = true
  /\ HQQLinear.is_initialized l = true
  /\ HQQLinear.linear_layer l = None
  /\ (exists meta,
         HQQLinear.meta l = Some meta
         /\ Dict.get "compute_dtype" meta = Some (VDtype float16)
         /\ Dict.get "quant_scale" meta = Some (VBool false)).
Proof.
  cbv zeta.
  destruct (constructed_layer_is_ready no_optimizer linear_ones
              (config meta_params (VBool true)) true float16 "cuda"
              (HQQLinear.start false)
              (layer_of
                 (HQQLinear.__init__ no_optimizer (Some linear_ones)
                    (VDict (config meta_params (VBool true))) true float16
                    "cuda" true (HQQLinear.start false))))
    as (H1 & _ & H3 & _ & _ & H6 & _ & _ & (meta & Hm & G1 & G2 & _) & _).
  - vm_compute. reflexivity.
  - split; [exact H1|]. split; [exact H3|]. split; [exact H6|].
    exists meta. auto.
Defined.

(** ** The meta of a constructed layer, and its dequantization *)

Lemma convert_all_layer_meta a W s z pk vd cd0 cd :
  plain pk = true ->
  Quantizer.convert_all cd (layer_meta a W s z pk vd cd0)
  = (s1 <- Quantizer.convert cd s ;;
     z1 <- Quantizer.convert cd z ;;
     Ok (layer_meta a W s1 z1 pk vd cd0))%result.
Proof.
  intros Hpk. unfold layer_meta, meta_of.
  cbn [Dict.set String.eqb Ascii.eqb Bool.eqb Quantizer.convert_all bind].
  destruct (Quantizer.group_size a); cbn [Quantizer.py_opt_nat bind];
    (destruct (Quantizer.convert cd s); [|reflexivity]); cbn [bind];
    (destruct (Quantizer.convert cd z); [|reflexivity]); cbn [bind];
    destruct pk; try discriminate; reflexivity.
Qed.

Lemma cuda_meta_tensor_zero a W s z pk vd cd :
  HQQLinear.cuda_meta_tensor "quant_zero" "zero" "zero_q" "meta_zero"
    (layer_meta a W s z pk vd cd)
  = Ok (layer_meta a W s z pk vd cd).
Proof. reflexivity. Qed.

Lemma cuda_meta_tensor_scale a W s z pk vd cd :
  HQQLinear.cuda_meta_tensor "quant_scale" "scale" "scale_q" "meta_scale"
    (layer_meta a W s z pk vd cd)
  = Ok (layer_meta a W s z pk vd cd).
Proof. reflexivity. Qed.

Lemma offload_layer_meta a W s z pk vd cd0 cd :
  HQQLinear.offload cd (layer_meta a W s z pk vd cd0)
  = (_ <- HQQLinear.stack z s ;;
     z' <- Torch.to cd z ;;
     s' <- Torch.to cd s ;;
     Ok (offloaded_meta a W z' s' pk vd cd0))%result.
Proof.
  unfold HQQLinear.offload, layer_meta, meta_of.
  cbn [Dict.set Dict.get Dict.mem Dict.item Dict.tensor Dict.remove
       String.eqb Ascii.eqb Bool.eqb bind truthy negb].
  destruct (HQQLinear.stack z s); [|reflexivity]. cbn [bind].
  destruct (Torch.to cd z); [|reflexivity]. cbn [bind].
  destruct (Torch.to cd s); reflexivity.
Qed.

Lemma get_compute_dtype_layer_meta a W s z pk vd cd :
  Quantizer.get_compute_dtype (layer_meta a W s z pk vd cd) = Ok cd.
Proof. reflexivity. Qed.

Lemma cuda_form self dev a W s z pk vd m :
  HQQLinear.meta self = Some m ->
  m = quantized_meta a W s z pk vd ->
  plain pk = true ->
  let cd := HQQLinear.compute_dtype self in
  HQQLinear.cuda self dev
  = (s1 <- Quantizer.convert cd s ;;
     z1 <- Quantizer.convert cd z ;;
     off <- truthy (HQQLinear.offload_meta self) ;;
     meta <- (if off
              then (_ <- HQQLinear.stack z1 s1 ;;
                    z2 <- Torch.to cd z1 ;;
                    s2 <- Torch.to cd s1 ;;
                    Ok (offloaded_meta a W z2 s2 pk vd cd))
              else Ok (layer_meta a W s1 z1 pk vd cd)) ;;
     b <- match HQQLinear.bias self with
          | Some t => (t' <- Torch.to cd t ;; Ok (Some t'))
          | None => Ok None
          end ;;
     Ok (HQQLinear.on_device dev
           (HQQLinear.with_bias b
              (HQQLinear.with_quantized (HQQLinear.W_q self) (Some meta)
                 self))))%result.
Proof.
  intros Hm -> Hpk cd. unfold HQQLinear.cuda. rewrite Hm. cbn [bind].
  fold cd.
  change (Dict.set "compute_dtype" (VDtype cd)
            (quantized_meta a W s z pk vd))
    with (layer_meta a W s z pk vd cd).
  unfold Quantizer.cuda, Quantizer.to_inplace.
  rewrite get_compute_dtype_layer_meta. cbn [bind].
  rewrite convert_all_layer_meta by exact Hpk.
  destruct (Quantizer.convert cd s) as [s1|]; [|reflexivity]. cbn [bind].
  destruct (Quantizer.convert cd z) as [z1|]; [|reflexivity]. cbn [bind].
  rewrite cuda_meta_tensor_zero. cbn [bind].
  rewrite cuda_meta_tensor_scale. cbn [bind].
  destruct (truthy (HQQLinear.offload_meta self)) as [[|]|]; cbn [bind];
    [|reflexivity|reflexivity].
  rewrite offload_layer_meta. reflexivity.
Qed.

Lemma init_inv opt lin d del_orig cd dev p l :
  fst (HQQLinear.__init__ opt (Some lin) (VDict d) del_orig cd dev true p)
  = Ok l ->
  exists v,
    Dict.get "offload_meta" d = Some v
    /\ HQQLinear.quantize_linear opt
         (HQQLinear.mkLayer false false None dev cd
            (VDict (Dict.remove "offload_meta" d)) del_orig v (Some lin)
            None None true None)
         lin (without_deprecated (Dict.remove "offload_meta" d))
       = Ok l.
Proof.
  unfold HQQLinear.__init__, HQQLinear.pbind, HQQLinear.lift.
  destruct (Dict.get "offload_meta" d) as [v|] eqn:Ev; [|discriminate].
  pose proof (set_backend_ok (HQQLinear.backend p) p) as Hb.
  destruct (HQQLinear.set_backend (HQQLinear.backend p) p) as [r p1].
  simpl in Hb. subst r. cbn [fst snd].
  unfold HQQLinear.initialize. cbn [HQQLinear.linear_layer].
  unfold HQQLinear.pbind, HQQLinear.lift, HQQLinear.ret.
  cbn [HQQLinear.quant_config HQQLinear.dict_of].
  set (d1 := Dict.remove "offload_meta" d).
  unfold Dict.item.
  destruct (Dict.get "scale_quant_params" d1) as [sq|] eqn:Es;
    [|discriminate].
  assert (Hdrop : forall q,
             HQQLinear.drop_deprecated d1 q
             = (Ok (without_deprecated d1),
                if HQQLinear.PRINT_ZERO_SCALE_DEPRECATED q
                then warned q else q)).
  { intros q. unfold HQQLinear.drop_deprecated, HQQLinear.pbind,
      HQQLinear.ret.
    destruct (HQQLinear.PRINT_ZERO_SCALE_DEPRECATED q); reflexivity. }
  intros H. exists v. split; [reflexivity|].
  destruct (negb (HQQLinear.is_none sq)) eqn:Esq.
  - rewrite Hdrop in H. exact H.
  - destruct (Dict.get "zero_quant_params" d1) as [zq|] eqn:Ez;
      [|discriminate].
    destruct (negb (HQQLinear.is_none zq)) eqn:Ezq.
    + rewrite Hdrop in H. exact H.
    + cbn [fst] in H. unfold without_deprecated.
      destruct sq; try discriminate. destruct zq; try discriminate.
      rewrite (set_same_value "scale_quant_params" VNone d1 Es).
      rewrite (set_same_value "zero_quant_params" VNone d1 Ez). exact H.
Qed.

Lemma remove_set_same k v (m : dict) :
  Dict.remove k (Dict.set k v m) = Dict.remove k m.
Proof.
  induction m as [|[k0 v0] m IH]; cbn [Dict.set Dict.remove].
  - now rewrite String.eqb_refl.
  - destruct (String.eqb k k0) eqn:E; cbn [Dict.remove].
    + now rewrite String.eqb_refl.
    + now rewrite E, IH.
Qed.

(** The layer after [quantize_linear], from the layer [l1] that
    [HQQLinear.quantize] returned. *)
Lemma quantize_linear_inv opt self lin qc l :
  HQQLinear.quantize_linear opt self lin qc = Ok l ->
  Dict.get "scale_quant_params" qc = Some VNone ->
  Dict.get "zero_quant_params" qc = Some VNone ->
  exists qc' w l1,
    HQQLinear.default_group_size lin qc = Ok qc'
    /\ Dict.get "weight_quant_params" qc' = Some w
    /\ HQQLinear.quantize opt (HQQLinear.with_quant_config (VDict qc') self)
         (HQQLinear.weight lin) w VNone VNone = Ok l1
    /\ HQQLinear.W_q l = HQQLinear.W_q l1
    /\ HQQLinear.meta l = HQQLinear.meta l1
    /\ HQQLinear.ready l = HQQLinear.ready l1.
Proof.
  unfold HQQLinear.quantize_linear, HQQLinear.quantize_kwargs.
  intros H Hs Hz.
  inv_bind H. rename x into qc'. rename E into Eg.
  inv_bind H. rename x into l1.
  destruct (negb _); [discriminate|].
  rewrite (default_group_size_keeps _ _ _ "scale_quant_params" Eg),
    (default_group_size_keeps _ _ _ "zero_quant_params" Eg), Hs, Hz in E
    by discriminate.
  destruct (Dict.get "weight_quant_params" qc') as [w|] eqn:Ew;
    [|discriminate].
  inv_bind H. inv_ok H.
  exists qc', w, l1.
  split; [exact Eg|]. split; [exact Ew|]. split; [exact E|].
  destruct (HQQLinear.del_orig _); cbn; auto.
Qed.

Lemma plain_packing opt tensor a W_q s z pk vd :
  Quantizer.quantize opt tensor a = Ok (W_q, meta_of a tensor s z pk vd) ->
  plain pk = true.
Proof.
  intros H.
  destruct (quantize_inv _ _ _ _ _ H)
    as (codes & s0 & z0 & s' & p & d & _ & _ & _ & _ & Hmeta).
  destruct (Quantizer.bitpack a); destruct Hmeta as [Hm _];
    unfold meta_of in Hm; inversion Hm; reflexivity.
Qed.

Lemma quantize_meta_of opt tensor a W_q meta :
  Quantizer.quantize opt tensor a = Ok (W_q, meta) ->
  exists s z pk vd, meta = meta_of a tensor s z pk vd.
Proof.
  intros H.
  destruct (quantize_inv _ _ _ _ _ H)
    as (codes & s0 & z0 & s' & p & d & _ & _ & _ & _ & Hmeta).
  destruct (Quantizer.bitpack a); destruct Hmeta as [-> _]; eauto.
Qed.

Lemma constructed_meta opt lin d del_orig cd dev p l :
  fst (HQQLinear.__init__ opt (Some lin) (VDict d) del_orig cd dev true p)
  = Ok l ->
  exists v off a wq s z pk vd s1 z1,
    Dict.get "offload_meta" d = Some v
    /\ truthy v = Ok off
    /\ weight_quantization opt lin d cd
       = Ok (a, wq, meta_of a (HQQLinear.weight lin) s z pk vd)
    /\ plain pk = true
    /\ Quantizer.convert cd s = Ok s1
    /\ Quantizer.convert cd z = Ok z1
    /\ HQQLinear.ready l = true
    /\ HQQLinear.W_q l = Some wq
    /\ if off
       then exists z2 s2,
           HQQLinear.stack z1 s1 = Ok (VStack z1 s1)
           /\ Torch.to cd z1 = Ok z2 /\ Torch.to cd s1 = Ok s2
           /\ HQQLinear.meta l
              = Some (offloaded_meta a (HQQLinear.weight lin) z2 s2 pk vd cd)
       else HQQLinear.meta l
            = Some (layer_meta a (HQQLinear.weight lin) s1 z1 pk vd cd).
Proof.
  intros H. destruct (init_inv _ _ _ _ _ _ _ _ H) as (v & Hv & Hq).
  assert (Hwd : Dict.get "scale_quant_params"
                  (without_deprecated (Dict.remove "offload_meta" d))
                = Some VNone
                /\ Dict.get "zero_quant_params"
                     (without_deprecated (Dict.remove "offload_meta" d))
                   = Some VNone).
  { unfold without_deprecated. split.
    - rewrite get_set_other by discriminate. apply get_set_same.
    - apply get_set_same. }
  destruct (quantize_linear_inv _ _ _ _ _ Hq (proj1 Hwd) (proj2 Hwd))
    as (qc' & w & l1 & Eg & Ew & Eq & HW & HM & HR).
  unfold HQQLinear.quantize in Eq. cbn [HQQLinear.is_none negb] in Eq.
  inv_bind Eq. rename x into f.
  inv_bind Eq. rename x into kw. rename E0 into Ekw.
  inv_bind Eq. rename x into a. rename E0 into Ea.
  inv_bind Eq. destruct x as [wq meta0]. rename E0 into EQ.
  cbn [bind] in Eq.
  inv_bind Eq. rename x into l2. rename E0 into Ec. inv_ok Eq.
  cbn in Ea.
  destruct (quantize_meta_of _ _ _ _ _ EQ) as (s & z & pk & vd & ->).
  pose proof (plain_packing _ _ _ _ _ _ _ _ EQ) as Hpk.
  match type of Ec with
  | HQQLinear.cuda ?self ?dev = _ =>
      rewrite (cuda_form self dev a (HQQLinear.weight lin) s z pk vd _
                 eq_refl eq_refl Hpk) in Ec
  end.
  cbn [HQQLinear.compute_dtype HQQLinear.with_quantized
       HQQLinear.with_features HQQLinear.with_quant_config
       HQQLinear.offload_meta HQQLinear.bias HQQLinear.W_q] in Ec.
  inv_bind Ec. rename x into s1. rename E0 into Es1.
  inv_bind Ec. rename x into z1. rename E0 into Ez1.
  inv_bind Ec. rename x into off. rename E0 into Eoff.
  inv_bind Ec. rename x into m. rename E0 into Em.
  cbn [bind] in Ec. inv_ok Ec.
  exists v, off, a, wq, s, z, pk, vd, s1, z1.
  split; [exact Hv|]. split; [exact Eoff|].
  split.
  { unfold weight_quantization. rewrite Eg. cbn [bind]. rewrite Ew.
    cbn [bind]. rewrite Ekw. cbn [bind]. rewrite Ea. cbn [bind].
    rewrite EQ. reflexivity. }
  split; [exact Hpk|]. split; [exact Es1|]. split; [exact Ez1|].
  rewrite HR, HW, HM. cbn.
  split; [reflexivity|]. split; [reflexivity|].
  destruct off.
  - inv_bind Em. rename E0 into Est.
    inv_bind Em. inv_bind Em. inv_ok Em.
    eexists _, _. split; [|split; [eassumption|split; [eassumption|]]];
      [|reflexivity].
    unfold HQQLinear.stack in *.
    destruct (list_eq_dec _ _ _); [reflexivity | discriminate].
  - now inv_ok Em.
Qed.

Lemma cast_floating cd rows :
  is_floating_point cd = true -> map (map (Torch.cast cd)) rows = rows.
Proof.
  intros H. rewrite <- (map_id rows) at 2. apply map_ext. intros r.
  rewrite <- (map_id r) at 2. apply map_ext. intros q.
  destruct cd; try discriminate; reflexivity.
Qed.

Lemma to_fresh d d' sc rows :
  Torch.to d (fresh d' sc rows)
  = Ok (fresh d sc (map (map (Torch.cast d)) rows)).
Proof.
  unfold Torch.to, Torch.values, readable, fresh.
  cbn [t_dtype t_store t_scalar t_rows]. now rewrite dtype_eqb_refl.
Qed.

Lemma to_inv d t r :
  Torch.to d t = Ok r ->
  readable t = true
  /\ r = fresh d (t_scalar t) (map (map (Torch.cast d)) (t_rows t)).
Proof.
  unfold Torch.to, Torch.values. intros H.
  destruct (readable t); [|discriminate]. cbn in H. now inv_ok H.
Qed.

Lemma binary_converted f a b b1 b2 cd :
  is_floating_point cd = true ->
  t_dtype a = cd ->
  Quantizer.convert cd b = Ok b1 ->
  Torch.to cd b1 = Ok b2 ->
  Torch.binary f a b2 = Torch.binary f a b1
  /\ forall r, Torch.binary f a b1 = Ok r -> t_dtype r = cd.
Proof.
  intros Hcd Ha Hb1 Hb2.
  assert (Hr : forall r, Torch.binary f a b1 = Ok r ->
                         t_dtype r = Torch.result_type a b1).
  { intros r H. unfold Torch.binary in H. inv_bind H. inv_bind H.
    destruct (bzip2 f x x0); [|discriminate]. now inv_ok H. }
  unfold Quantizer.convert in Hb1.
  destruct (is_floating_point (t_dtype b)) eqn:Fb.
  - (* already of the compute type *)
    assert (E : b2 = b1).
    { destruct (to_inv _ _ _ Hb1) as [_ ->].
      rewrite to_fresh in Hb2. injection Hb2 as <-.
      now rewrite cast_floating. }
    subst b2. split; [reflexivity|].
    intros r H. rewrite (Hr r H). apply to_dtype in Hb1.
    unfold Torch.result_type. rewrite Ha, Hb1.
    destruct (Bool.eqb _ _); [destruct cd; try discriminate; reflexivity|].
    destruct (t_scalar b1); rewrite Hcd; reflexivity.
  - injection Hb1 as <-.
    assert (Ht : Torch.result_type a b2 = Torch.result_type a b
                 /\ Torch.result_type a b = cd).
    { pose proof (to_dtype _ _ _ Hb2) as Hd2.
      assert (Hs : t_scalar b2 = t_scalar b).
      { destruct (to_inv _ _ _ Hb2) as [_ ->]. reflexivity. }
      unfold Torch.result_type. rewrite Hs, Hd2, Ha.
      destruct (Bool.eqb _ _).
      - destruct cd; try discriminate;
          destruct (t_dtype b); try discriminate; auto.
      - destruct (t_scalar b); rewrite Hcd, ?Fb; cbn; auto. }
    split.
    + destruct Ht as [Ht _]. unfold Torch.binary. rewrite Ht.
      destruct (to_inv _ _ _ Hb2) as [Rb ->].
      unfold Torch.values at 2 4. rewrite Rb.
      unfold readable, fresh. cbn [t_dtype t_store t_scalar t_rows].
      rewrite dtype_eqb_refl, cast_floating by exact Hcd. reflexivity.
    + intros r H. rewrite (Hr r H). apply Ht.
Qed.

Lemma with_quantized_same l w m :
  HQQLinear.W_q l = Some w -> HQQLinear.meta l = Some m ->
  HQQLinear.with_quantized (Some w) (Some m) l = l.
Proof. destruct l. cbn. now intros -> ->. Qed.

Lemma dequantize_not_offloaded l wq a W s z pk vd cd :
  HQQLinear.ready l = true ->
  HQQLinear.W_q l = Some wq ->
  HQQLinear.meta l = Some (layer_meta a W s z pk vd cd) ->
  HQQLinear.dequantize l
  = (Quantizer.dequantize wq (layer_meta a W s z pk vd cd), l).
Proof.
  intros Hr Hw Hm. unfold HQQLinear.dequantize. rewrite Hr, Hw, Hm.
  cbn [negb].
  assert (E : HQQLinear.dequantize_with wq (layer_meta a W s z pk vd cd)
              = (Quantizer.dequantize wq (layer_meta a W s z pk vd cd),
                 layer_meta a W s z pk vd cd)).
  { unfold HQQLinear.dequantize_with.
    change (HQQLinear.unpack_zero_scale (layer_meta a W s z pk vd cd))
      with (Ok (layer_meta a W s z pk vd cd, @nil string)).
    cbv iota beta.
    change (HQQLinear.dequantize_quantized "quant_zero" "zero_q" "meta_zero"
              (layer_meta a W s z pk vd cd))
      with (@Ok (option Tensor) None).
    cbv iota beta.
    change (HQQLinear.dequantize_quantized "quant_scale" "scale_q"
              "meta_scale" (layer_meta a W s z pk vd cd))
      with (@Ok (option Tensor) None).
    cbv iota beta.
    destruct (Quantizer.dequantize wq _); reflexivity. }
  rewrite E. now rewrite with_quantized_same.
Qed.

Lemma quantizer_dequantize_offloaded wq a W z s z1 s1 z2 s2 pk vd cd :
  is_floating_point cd = true ->
  Quantizer.convert cd z = Ok z1 -> Quantizer.convert cd s = Ok s1 ->
  Torch.to cd z1 = Ok z2 -> Torch.to cd s1 = Ok s2 ->
  Quantizer.dequantize wq
    (Dict.set "scale" (VTensor s2)
       (Dict.set "zero" (VTensor z2) (offloaded_meta a W z2 s2 pk vd cd)))
  = Quantizer.dequantize wq (layer_meta a W s1 z1 pk vd cd).
Proof.
  intros Hcd Hz1 Hs1 Hz2 Hs2. unfold Quantizer.dequantize.
  change (Quantizer.unpacked wq
            (Dict.set "scale" (VTensor s2)
               (Dict.set "zero" (VTensor z2)
                  (offloaded_meta a W z2 s2 pk vd cd))))
    with (Quantizer.unpacked wq (layer_meta a W s1 z1 pk vd cd)).
  destruct (Quantizer.unpacked wq (layer_meta a W s1 z1 pk vd cd))
    as [W_r|] eqn:EU; [|reflexivity].
  cbn [bind].
  pose proof (unpacked_dtype _ _ _ cd
                (get_compute_dtype_layer_meta a W s1 z1 pk vd cd) EU) as HW.
  change (Dict.tensor "zero"
            (Dict.set "scale" (VTensor s2)
               (Dict.set "zero" (VTensor z2)
                  (offloaded_meta a W z2 s2 pk vd cd))))
    with (Ok z2).
  change (Dict.tensor "zero" (layer_meta a W s1 z1 pk vd cd)) with (Ok z1).
  cbn [bind].
  destruct (binary_converted Qminus W_r z z1 z2 cd Hcd HW Hz1 Hz2)
    as [Esub Dsub].
  unfold Torch.sub. rewrite Esub.
  destruct (Torch.binary Qminus W_r z1) as [dd|] eqn:Ed; [|reflexivity].
  cbn [bind].
  change (Dict.tensor "scale"
            (Dict.set "scale" (VTensor s2)
               (Dict.set "zero" (VTensor z2)
                  (offloaded_meta a W z2 s2 pk vd cd))))
    with (Ok s2).
  change (Dict.tensor "scale" (layer_meta a W s1 z1 pk vd cd)) with (Ok s1).
  cbn [bind].
  destruct (binary_converted Qmult dd s s1 s2 cd Hcd (Dsub _ eq_refl)
              Hs1 Hs2) as [Emul _].
  unfold Torch.mul. rewrite Emul. reflexivity.
Qed.

Lemma promote_same cd : is_floating_point cd = true -> promote_types cd cd = cd.
Proof. destruct cd; try discriminate; reflexivity. Qed.

Lemma dequantize_offloaded l wq a W z s z1 s1 z2 s2 pk vd cd :
  HQQLinear.ready l = true ->
  HQQLinear.W_q l = Some wq ->
  HQQLinear.meta l = Some (offloaded_meta a W z2 s2 pk vd cd) ->
  is_floating_point cd = true ->
  Quantizer.convert cd z = Ok z1 -> Quantizer.convert cd s = Ok s1 ->
  Torch.to cd z1 = Ok z2 -> Torch.to cd s1 = Ok s2 ->
  fst (HQQLinear.dequantize l)
  = Quantizer.dequantize wq (layer_meta a W s1 z1 pk vd cd)
  /\ (is_ok (fst (HQQLinear.dequantize l)) = true ->
      snd (HQQLinear.dequantize l) = l).
Proof.
  intros Hr Hw Hm Hcd Hz1 Hs1 Hz2 Hs2.
  unfold HQQLinear.dequantize. rewrite Hr, Hw, Hm. cbn [negb].
  set (m' := Dict.set "scale" (VTensor s2)
               (Dict.set "zero" (VTensor z2)
                  (offloaded_meta a W z2 s2 pk vd cd))).
  assert (E : HQQLinear.dequantize_with wq
                (offloaded_meta a W z2 s2 pk vd cd)
              = match Quantizer.dequantize wq m' with
                | Ok W_est =>
                    (Ok W_est, offloaded_meta a W z2 s2 pk vd cd)
                | Raise e => (Raise e, m')
                end).
  { unfold HQQLinear.dequantize_with, HQQLinear.unpack_zero_scale.
    cbn [offloaded_meta Dict.mem Dict.get Dict.item String.eqb Ascii.eqb
         Bool.eqb bind].
    rewrite (to_dtype _ _ _ Hz2), (to_dtype _ _ _ Hs2), promote_same
      by exact Hcd.
    assert (Hne : dtype_eqb cd uint8 = false)
      by (destruct cd; try discriminate; reflexivity).
    rewrite Hne.
    change (HQQLinear.dequantize_quantized "quant_zero" "zero_q" "meta_zero"
              (Dict.set "scale" (VTensor s2)
                 (Dict.set "zero" (VTensor z2)
                    (offloaded_meta a W z2 s2 pk vd cd))))
      with (@Ok (option Tensor) None).
    cbv iota beta.
    change (HQQLinear.dequantize_quantized "quant_scale" "scale_q"
              "meta_scale"
              (Dict.set "scale" (VTensor s2)
                 (Dict.set "zero" (VTensor z2)
                    (offloaded_meta a W z2 s2 pk vd cd))))
      with (@Ok (option Tensor) None).
    cbv iota beta. fold m'.
    destruct (Quantizer.dequantize wq m'); reflexivity. }
  rewrite E. unfold m'.
  rewrite (quantizer_dequantize_offloaded wq a W z s z1 s1 z2 s2 pk vd cd)
    by assumption.
  destruct (Quantizer.dequantize wq (layer_meta a W s1 z1 pk vd cd));
    cbn [fst snd is_ok].
  - split; [reflexivity|]. intros _. now apply with_quantized_same.
  - split; [reflexivity | discriminate].
Qed.

Lemma weight_quantization_offload_meta opt lin d cd v v' :
  weight_quantization opt lin (Dict.set "offload_meta" v d) cd
  = weight_quantization opt lin (Dict.set "offload_meta" v' d) cd.
Proof. unfold weight_quantization. now rewrite !remove_set_same. Qed.

Lemma constructed_dequantize opt lin d del_orig cd dev p l :
  fst (HQQLinear.__init__ opt (Some lin) (VDict d) del_orig cd dev true p)
  = Ok l ->
  is_floating_point cd = true ->
  exists a wq s z pk vd s1 z1,
    weight_quantization opt lin d cd
    = Ok (a, wq, meta_of a (HQQLinear.weight lin) s z pk vd)
    /\ Quantizer.convert cd s = Ok s1
    /\ Quantizer.convert cd z = Ok z1
    /\ fst (HQQLinear.dequantize l)
       = Quantizer.dequantize wq
           (layer_meta a (HQQLinear.weight lin) s1 z1 pk vd cd)
    /\ (is_ok (fst (HQQLinear.dequantize l)) = true ->
        snd (HQQLinear.dequantize l) = l).
Proof.
  intros H Hcd.
  destruct (constructed_meta _ _ _ _ _ _ _ _ H)
    as (v & off & a & wq & s & z & pk & vd & s1 & z1 & _ & _ & HQ & _
        & Hs1 & Hz1 & Hr & Hw & Hm).
  exists a, wq, s, z, pk, vd, s1, z1.
  split; [exact HQ|]. split; [exact Hs1|]. split; [exact Hz1|].
  destruct off.
  - destruct Hm as (z2 & s2 & _ & Hz2 & Hs2 & Hm).
    eapply dequantize_offloaded; eauto.
  - rewrite (dequantize_not_offloaded _ _ _ _ _ _ _ _ _ Hr Hw Hm).
    split; [reflexivity | intros _; reflexivity].
Qed.

(** X4.  [HQQLinear.dequantize] (lines 843-877) on a layer that the
    constructor quantized, with a floating-point compute type: a call that
    returns leaves the layer, and [self.meta] in it, as it found them.  The
    entries ["zero"] and ["scale"] that are written for an offloaded layer
    are deleted again before the method returns. *)
Theorem dequantize_restores_meta opt lin d del_orig cd dev p l :
  fst (HQQLinear.__init__ opt (Some lin) (VDict d) del_orig cd dev true p)
  = Ok l ->
  is_floating_point cd = true ->
  is_ok (fst (HQQLinear.dequantize l)) = true ->
  snd (HQQLinear.dequantize l) = l.
Proof.
  intros H Hcd Hok.
  destruct (constructed_dequantize _ _ _ _ _ _ _ _ H Hcd)
    as (a & wq & s & z & pk & vd & s1 & z1 & _ & _ & _ & _ & Hframe).
  exact (Hframe Hok).
Qed.

Lemma dequantize_restores_meta_witness :
  let l :=
    layer_of
      (HQQLinear.__init__ no_optimizer (Some linear_ones)
         (VDict (config VNone (VBool true))) true float16 "cuda" true
         (HQQLinear.start false)) in
  Dict.mem "zero_scale" (out_of (match HQQLinear.meta l with
                                 | Some m => Ok m
                                 | None => Raise (KeyError "meta")
                                 end) []) = true
  /\ snd (HQQLinear.dequantize l) = l.
Proof.
  cbv zeta. split; [vm_compute; reflexivity|].
  apply (dequantize_restores_meta no_optimizer linear_ones
           (config VNone (VBool true)) true float16 "cuda"
           (HQQLinear.start false)).
  - vm_compute. reflexivity.
  - reflexivity.
  - vm_compute. reflexivity.
Defined.

(** X5.  [offload_meta] does not change what a layer dequantizes to
    ([HQQLinear.cuda], lines 551-566, against [HQQLinear.dequantize], lines
    849-858).  Two layers built from the same linear layer and the same
    configuration up to the value of ["offload_meta"], with a floating-point
    compute type, return the same tensor, or raise the same exception, from
    [dequantize]: zero and scale stacked under ["zero_scale"] are unstacked
    into the values they had. *)
Theorem offload_meta_is_transparent opt lin d del_orig cd dev p q v v' l l' :
  is_floating_point cd = true ->
  fst (HQQLinear.__init__ opt (Some lin)
         (VDict (Dict.set "offload_meta" v d)) del_orig cd dev true p)
  = Ok l ->
  fst (HQQLinear.__init__ opt (Some lin)
         (VDict (Dict.set "offload_meta" v' d)) del_orig cd dev true q)
  = Ok l' ->
  fst (HQQLinear.dequantize l) = fst (HQQLinear.dequantize l').
Proof.
  intros Hcd H H'.
  destruct (constructed_dequantize _ _ _ _ _ _ _ _ H Hcd)
    as (a & wq & s & z & pk & vd & s1 & z1 & HQ & Hs1 & Hz1 & HD & _).
  destruct (constructed_dequantize _ _ _ _ _ _ _ _ H' Hcd)
    as (a' & wq' & s' & z' & pk' & vd' & s1' & z1' & HQ' & Hs1' & Hz1'
        & HD' & _).
  rewrite (weight_quantization_offload_meta opt lin d cd v v') in HQ.
  rewrite HQ' in HQ. injection HQ as Ha Hwq Hmeta. subst a' wq'.
  unfold meta_of in Hmeta. inversion Hmeta. subst s' z' pk' vd'.
  rewrite Hs1' in Hs1. injection Hs1 as <-.
  rewrite Hz1' in Hz1. injection Hz1 as <-.
  now rewrite HD, HD'.
Qed.

Lemma offload_meta_is_transparent_witness :
  let build v :=
    layer_of
      (HQQLinear.__init__ no_optimizer (Some linear_ones)
         (VDict (Dict.set "offload_meta" v (config VNone VNone))) true
         float16 "cuda" true (HQQLinear.start false)) in
  fst (HQQLinear.dequantize (build (VBool true)))
  = fst (HQQLinear.dequantize (build (VBool false))).
Proof.
  cbv zeta.
  apply (offload_meta_is_transparent no_optimizer linear_ones
           (config VNone VNone) true float16 "cuda"
           (HQQLinear.start false) (HQQLinear.start false)
           (VBool true) (VBool false)).
  - reflexivity.
  - vm_compute. reflexivity.
  - vm_compute. reflexivity.
Defined.

(** ** The constructor without weights, and the configuration builder *)

(** X6.  [HQQLinear.__init__] without a linear layer or with
    [initialize = False] (lines 390-425): for every configuration that has
    the ["offload_meta"] entry the constructor returns a layer that is not
    ready and not initialized, holding the configuration without that entry;
    nothing is quantized and the process is changed by [set_backend] only.
    [dequantize] on such a layer fails the assertion of line 844 and leaves
    the layer as it is. *)
Theorem layer_without_weights opt lin d v del_orig cd dev init p :
  Dict.get "offload_meta" d = Some v ->
  lin = None \/ init = false ->
  let r := HQQLinear.__init__ opt lin (VDict d) del_orig cd dev init p in
  exists l,
    fst r = Ok l
    /\ snd r = snd (HQQLinear.set_backend (HQQLinear.backend p) p)
    /\ HQQLinear.ready l = false
    /\ HQQLinear.is_initialized l = false
    /\ HQQLinear.W_q l = None /\ HQQLinear.meta l = None
    /\ HQQLinear.linear_layer l = lin
    /\ HQQLinear.quant_config l = VDict (Dict.remove "offload_meta" d)
    /\ HQQLinear.offload_meta l = v
    /\ HQQLinear.dequantize l
       = (Raise (AssertionError "model was not quantized"), l).
Proof.
  intros Hv Hcase.
  unfold HQQLinear.__init__, HQQLinear.pbind, HQQLinear.lift.
  rewrite Hv.
  pose proof (set_backend_ok (HQQLinear.backend p) p) as Hb.
  destruct (HQQLinear.set_backend (HQQLinear.backend p) p) as [r p1].
  simpl in Hb. subst r. cbn [fst snd].
  assert (Hret : (if init
                  then HQQLinear.initialize opt
                         (HQQLinear.mkLayer false false None dev cd
                            (VDict (Dict.remove "offload_meta" d)) del_orig
                            v lin None None true None)
                  else HQQLinear.ret
                         (HQQLinear.mkLayer false false None dev cd
                            (VDict (Dict.remove "offload_meta" d)) del_orig
                            v lin None None true None)) p1
                 = (Ok (HQQLinear.mkLayer false false None dev cd
                          (VDict (Dict.remove "offload_meta" d)) del_orig v
                          lin None None true None), p1)).
  { destruct Hcase as [-> | ->]; [|reflexivity].
    destruct init; reflexivity. }
  cbv zeta. rewrite Hret. eexists. split; [reflexivity|].
  repeat (split; [reflexivity|]). reflexivity.
Qed.

Lemma layer_without_weights_witness :
  let r :=
    HQQLinear.__init__ no_optimizer None
      (VDict (config VNone (VBool false))) true float16 "cuda" true
      (HQQLinear.start false) in
  exists l,
    fst r = Ok l
    /\ HQQLinear.is_initialized l = false
    /\ HQQLinear.dequantize l
       = (Raise (AssertionError "model was not quantized"), l).
Proof.
  destruct (layer_without_weights no_optimizer None
              (config VNone (VBool false)) (VBool false) true float16 "cuda"
              true (HQQLinear.start false) eq_refl (or_introl eq_refl))
    as (l & H1 & _ & _ & H4 & _ & _ & _ & _ & _ & H10).
  exists l. auto.
Defined.

Lemma init_drops_deprecated opt lin d del_orig cd dev p :
  Dict.mem "scale_quant_params" d = true ->
  Dict.mem "zero_quant_params" d = true ->
  fst (HQQLinear.__init__ opt (Some lin) (VDict d) del_orig cd dev true p)
  = fst (HQQLinear.__init__ opt (Some lin) (VDict (without_deprecated d))
           del_orig cd dev true p).
Proof.
  intros Hs Hz.
  unfold HQQLinear.__init__, HQQLinear.pbind, HQQLinear.lift.
  assert (Hoff : Dict.get "offload_meta" (without_deprecated d)
                 = Dict.get "offload_meta" d).
  { unfold without_deprecated. now rewrite !get_set_other by discriminate. }
  rewrite Hoff.
  destruct (Dict.get "offload_meta" d) as [v|]; [|reflexivity].
  pose proof (set_backend_ok (HQQLinear.backend p) p) as Hb.
  destruct (HQQLinear.set_backend (HQQLinear.backend p) p) as [r p1].
  simpl in Hb. subst r. cbn [fst snd].
  assert (Hrem : Dict.remove "offload_meta" (without_deprecated d)
                 = without_deprecated (Dict.remove "offload_meta" d)).
  { unfold without_deprecated.
    now rewrite !set_remove_comm by discriminate. }
  rewrite Hrem.
  set (self0 := HQQLinear.mkLayer false false None dev cd VNone del_orig v
                  (Some lin) None None true None).
  assert (Hs' : Dict.mem "scale_quant_params"
                  (Dict.remove "offload_meta" d) = true).
  { unfold Dict.mem in *. now rewrite get_remove_other by discriminate. }
  assert (Hz' : Dict.mem "zero_quant_params"
                  (Dict.remove "offload_meta" d) = true).
  { unfold Dict.mem in *. now rewrite get_remove_other by discriminate. }
  destruct (initialize_drops_deprecated opt self0 lin
              (Dict.remove "offload_meta" d) p1 eq_refl Hs' Hz')
    as (H1 & _ & _).
  exact H1.
Qed.

(** X7.  The flags [quant_zero] and [quant_scale] of
    [hqq_base_quant_config] (lines 1075-1150) have no effect on the layer
    that [HQQLinear.__init__] builds from the configuration (lines 433-438):
    whenever the builder returns, the constructor returns for its
    configuration what it returns for the configuration built with both
    flags off, the same layer or the same exception. *)
Theorem quantized_meta_flags_have_no_effect opt nbits group_size quant_zero
  quant_scale offload_meta view_as_float axis lin del_orig cd dev q q0 p
  d d0 :
  fst (hqq_base_quant_config nbits group_size quant_zero quant_scale
         offload_meta view_as_float axis q) = Ok d ->
  fst (hqq_base_quant_config nbits group_size false false offload_meta
         view_as_float axis q0) = Ok d0 ->
  fst (HQQLinear.__init__ opt (Some lin) (VDict d) del_orig cd dev true p)
  = fst (HQQLinear.__init__ opt (Some lin) (VDict d0) del_orig cd dev true
           p).
Proof.
  unfold hqq_base_quant_config, HQQLinear.pbind, HQQLinear.lift.
  destruct (assert _ _); [|discriminate].
  destruct (match group_size with Some _ => _ | None => _ end);
    [|discriminate].
  cbn [orb].
  intros H H0.
  assert (Hd0 : d0 = [ ("weight_quant_params",
                        VDict [ ("nbits", VNum nbits);
                                ("channel_wise", VBool true);
                                ("group_size",
                                 Quantizer.py_opt_nat group_size);
                                ("optimize", VBool true);
                                ("round_zero", VBool (Qeq_bool nbits 4));
                                ("axis", VInt axis);
                                ("view_as_float", VBool view_as_float) ]);
                       ("scale_quant_params", VNone);
                       ("zero_quant_params", VNone);
                       ("offload_meta", VBool offload_meta) ]).
  { destruct offload_meta; cbn in H0; now inv_ok H0. }
  assert (Hd : without_deprecated d = d0
               /\ Dict.mem "scale_quant_params" d = true
               /\ Dict.mem "zero_quant_params" d = true).
  { rewrite Hd0. clear H0 Hd0.
    destruct quant_zero, quant_scale, offload_meta; cbn in H;
      injection H as <-; repeat split; reflexivity. }
  destruct Hd as (<- & Hs & Hz).
  now apply init_drops_deprecated.
Qed.

Lemma quantized_meta_flags_have_no_effect_witness :
  let build qz qs :=
    HQQLinear.__init__ no_optimizer (Some linear_ones)
      (VDict (out_of (fst (hqq_base_quant_config 4 (Some 8%nat) qz qs false
                             false 1%Z (HQQLinear.start false))) []))
      true float16 "cuda" true (HQQLinear.start false) in
  fst (build true true) = fst (build false false).
Proof.
  cbv zeta.
  apply (quantized_meta_flags_have_no_effect no_optimizer 4 (Some 8%nat)
           true true false false 1%Z linear_ones true float16 "cuda"
           (HQQLinear.start false) (HQQLinear.start false)
           (HQQLinear.start false)).
  - reflexivity.
  - reflexivity.
Defined.

(** ** Reconstruction error *)

(** *** The minimum and the maximum bound the group *)

Lemma Forall2_map2_l {A} (R : A -> A -> Prop) (f : A -> A -> A) :
  (forall x y, R (f x y) x) ->
  forall la lb, length la = length lb -> Forall2 R (map2 f la lb) la.
Proof.
  intros Hf. induction la as [|a la IH]; intros [|b lb] Hl; cbn in *;
    try discriminate; constructor; auto.
Qed.

Lemma Forall2_map2_r {A} (R : A -> A -> Prop) (f : A -> A -> A) :
  (forall x y, R (f x y) y) ->
  forall la lb, length la = length lb -> Forall2 R (map2 f la lb) lb.
Proof.
  intros Hf. induction la as [|a la IH]; intros [|b lb] Hl; cbn in *;
    try discriminate; constructor; auto.
Qed.

Lemma Forall2_trans_l {A} (R : A -> A -> Prop) :
  (forall x y z, R x y -> R y z -> R x z) ->
  forall la lb lc, Forall2 R la lb -> Forall2 R lb lc -> Forall2 R la lc.
Proof.
  intros Ht la lb lc H. revert lc.
  induction H; intros lc H'; inversion H'; subst; constructor; eauto.
Qed.

Lemma reduce_cols_bound (R : Q -> Q -> Prop) f c rows r :
  (forall x, R x x) -> (forall x y z, R x y -> R y z -> R x z) ->
  (forall x y, R (f x y) x) -> (forall x y, R (f x y) y) ->
  rect c rows -> Torch.reduce_cols f rows = Some r ->
  Forall (fun row => Forall2 R r row) rows.
Proof.
  intros Hrefl Htrans Hl Hr Hrect. revert r.
  induction Hrect as [|row rows Hrow Hrect IH]; intros r H;
    cbn [Torch.reduce_cols] in H; [discriminate|].
  destruct rows as [|row' rows].
  - injection H as <-. constructor; [|constructor].
    clear - Hrefl. induction row; constructor; auto.
  - destruct (Torch.reduce_cols f (row' :: rows)) as [acc|] eqn:E;
      [|discriminate].
    injection H as <-. specialize (IH acc eq_refl).
    assert (Hlen : length row = length acc).
    { rewrite Hrow. symmetry. eapply reduce_cols_length; eauto. }
    constructor.
    + now apply Forall2_map2_l.
    + eapply Forall_impl; [|exact IH]. intros w Hw.
      eapply Forall2_trans_l; [exact Htrans| |exact Hw].
      now apply Forall2_map2_r.
Qed.

Lemma sequence_reduce1 (P : Q -> Q -> Prop) f rows col :
  (forall l x, Torch.reduce1 f l = Some x -> Forall (P x) l) ->
  sequence (map (Torch.reduce1 f) rows) = Some col ->
  Forall2 (fun x row => Forall (P x) row) col rows.
Proof.
  intros Hf. revert col. induction rows as [|row rows IH]; intros col H;
    cbn [map sequence] in H.
  - inv_ok H. constructor.
  - destruct (Torch.reduce1 f row) as [x|] eqn:E; [|discriminate].
    destruct (sequence _) as [col'|]; [|discriminate]. inv_ok H.
    constructor; eauto.
Qed.

Lemma reduce_axis_computed f axis t r :
  Torch.reduce_axis f axis t = Ok r ->
  t_scalar t = false ->
  readable t = true
  /\ if Z.eqb axis 0
     then exists row, Torch.reduce_cols f (t_rows t) = Some row
                      /\ r = fresh (t_dtype t) false [row]
     else exists col,
         sequence (map (Torch.reduce1 f) (t_rows t)) = Some col
         /\ r = fresh (t_dtype t) false (map (fun x => [x]) col).
Proof.
  unfold Torch.reduce_axis, Torch.values. intros H Hsc.
  destruct (readable t); [|discriminate]. cbn [bind] in H. rewrite Hsc in H.
  split; [reflexivity|].
  destruct (Z.eqb axis 0).
  - destruct (Torch.reduce_cols f (t_rows t)) as [row|]; [|discriminate].
    inv_ok H. eauto.
  - destruct (sequence _) as [col|]; [|discriminate]. inv_ok H. eauto.
Qed.

Lemma bounded_row (w rmin rmax : list Q) :
  Forall2 Qle rmin w -> Forall2 (fun M x => x <= M) rmax w ->
  Forall bounded (map2 pair w (map2 pair rmin rmax)).
Proof.
  intros H. revert rmax. induction H as [|m x rmin w Hm _ IH];
    intros rmax H'; inversion H'; subst; cbn [map2]; constructor.
  - split; assumption.
  - now apply IH.
Qed.

Lemma bounded_columns (rows : list (list Q)) (cmin cmax : list Q) :
  Forall2 (fun m row => Forall (Qle m) row) cmin rows ->
  Forall2 (fun M row => Forall (fun x => x <= M) row) cmax rows ->
  mall bounded
    (map2 (fun w y => map (fun x => (x, y)) w) rows (map2 pair cmin cmax)).
Proof.
  unfold mall. intros H. revert cmax.
  induction H as [|m row cmin rows Hm _ IH]; intros cmax H';
    inversion H' as [|M row' cmax' rows' HM Hrest]; subst; cbn [map2];
    constructor.
  - apply Forall_map. rewrite Forall_forall in Hm, HM |- *.
    intros x Hx. split; cbn; auto.
  - now apply IH.
Qed.

Lemma reduce1_min_le_max l m M :
  Torch.reduce1 Qmin l = Some m -> Torch.reduce1 Qmax l = Some M -> m <= M.
Proof.
  intros Hm HM. pose proof (reduce1_min _ _ Hm) as Bm.
  pose proof (reduce1_max _ _ HM) as BM.
  destruct l as [|x l]; [discriminate|].
  inversion Bm; inversion BM; subst. eapply Qle_trans; eauto.
Qed.

Lemma sequence_min_le_max rows cmin cmax :
  sequence (map (Torch.reduce1 Qmin) rows) = Some cmin ->
  sequence (map (Torch.reduce1 Qmax) rows) = Some cmax ->
  Forall (fun y => fst y <= snd y) (map2 pair cmin cmax).
Proof.
  revert cmin cmax. induction rows as [|row rows IH]; intros cmin cmax Hm HM;
    cbn [map sequence] in Hm, HM.
  - inv_ok Hm. constructor.
  - destruct (Torch.reduce1 Qmin row) as [m|] eqn:Em; [|discriminate].
    destruct (Torch.reduce1 Qmax row) as [M|] eqn:EM; [|discriminate].
    destruct (sequence (map (Torch.reduce1 Qmin) rows)) as [cm|];
      [|discriminate].
    destruct (sequence (map (Torch.reduce1 Qmax) rows)) as [cM|];
      [|discriminate].
    injection Hm as <-. injection HM as <-. cbn [map2].
    constructor; [|now apply IH].
    cbn. eapply reduce1_min_le_max; eauto.
Qed.

Lemma ordered_row (w rmin rmax : list Q) :
  Forall2 Qle rmin w -> Forall2 (fun M x => x <= M) rmax w ->
  Forall (fun y => fst y <= snd y) (map2 pair rmin rmax).
Proof.
  intros H. revert rmax. induction H as [|m x rmin w Hm _ IH];
    intros rmax H'; inversion H'; subst; cbn [map2]; constructor.
  - cbn. eapply Qle_trans; eauto.
  - now apply IH.
Qed.

Lemma reduce_cols_min_le_max c rows rmin rmax :
  rect c rows ->
  Torch.reduce_cols Qmin rows = Some rmin ->
  Torch.reduce_cols Qmax rows = Some rmax ->
  Forall (fun y => fst y <= snd y) (map2 pair rmin rmax).
Proof.
  intros Hrect Emin Emax.
  pose proof (reduce_cols_bound Qle Qmin _ _ _ Qle_refl Qle_trans
                Q.le_min_l Q.le_min_r Hrect Emin) as Bmin.
  pose proof (reduce_cols_bound (fun M x => x <= M) Qmax _ _ _
                Qle_refl
                (fun x y z H1 H2 => Qle_trans _ _ _ H2 H1)
                Q.le_max_l Q.le_max_r Hrect Emax) as Bmax.
  destruct rows as [|row rows]; [discriminate|].
  inversion Bmin; inversion Bmax; subst. eapply ordered_row; eauto.
Qed.

Lemma min_max_ordered a Wg mn mx o :
  Quantizer.min_max a Wg = Ok (mn, mx, o) ->
  t_scalar Wg = false ->
  rect (row_len Wg) (t_rows Wg) ->
  exists (Y : list (list (Q * Q))) Zf,
    img mn Y fst /\ img mx Y snd
    /\ broadcasts (t_rows Wg) Y Zf
    /\ mall bounded Zf
    /\ mall (fun y => fst y <= snd y) Y
    /\ readable Wg = true
    /\ t_dtype mn = t_dtype Wg /\ t_dtype mx = t_dtype Wg
    /\ t_scalar mn = negb (Quantizer.channel_wise a)
    /\ t_scalar mx = negb (Quantizer.channel_wise a)
    /\ (o = true -> Quantizer.optimize a = true
                    /\ Quantizer.channel_wise a = true).
Proof.
  unfold Quantizer.min_max. intros H Hsc Hrect.
  destruct (Quantizer.channel_wise a); cbn [negb] in H.
  - inv_bind H. inv_bind H. inv_ok H.
    destruct (reduce_axis_computed _ _ _ _ E Hsc) as [Hread Hmn].
    destruct (reduce_axis_computed _ _ _ _ E0 Hsc) as [_ Hmx].
    destruct (Z.eqb (Quantizer.axis a) 0).
    + destruct Hmn as (rmin & Emin & ->). destruct Hmx as (rmax & Emax & ->).
      pose proof (reduce_cols_length _ _ _ _ Hrect Emin) as Lmin.
      pose proof (reduce_cols_length _ _ _ _ Hrect Emax) as Lmax.
      exists [map2 pair rmin rmax],
        (map (fun w => map2 pair w (map2 pair rmin rmax)) (t_rows Wg)).
      split; [split; [apply dtype_eqb_refl|]; simpl;
              now rewrite map2_pair_fst by congruence|].
      split; [split; [apply dtype_eqb_refl|]; simpl;
              now rewrite map2_pair_snd by congruence|].
      split.
      { right. left. eexists. split; [reflexivity|]. split; [|reflexivity].
        eapply Forall_impl; [|exact Hrect]. intros row Hrow.
        rewrite length_map2_pair; congruence. }
      split; [|split; [|cbn; auto 10]];
        [|constructor; [|constructor];
          eapply reduce_cols_min_le_max; eauto].
      unfold mall. apply Forall_map.
      pose proof (reduce_cols_bound Qle Qmin _ _ _ Qle_refl Qle_trans
                    Q.le_min_l Q.le_min_r Hrect Emin) as Bmin.
      pose proof (reduce_cols_bound (fun M x => x <= M) Qmax _ _ _
                    Qle_refl
                    (fun x y z H1 H2 => Qle_trans _ _ _ H2 H1)
                    Q.le_max_l Q.le_max_r Hrect Emax) as Bmax.
      rewrite Forall_forall in Bmin, Bmax |- *. intros row Hrow.
      apply bounded_row; auto.
    + destruct Hmn as (cmin & Emin & ->). destruct Hmx as (cmax & Emax & ->).
      pose proof (sequence_length _ _ Emin) as Lmin.
      pose proof (sequence_length _ _ Emax) as Lmax.
      rewrite length_map in Lmin, Lmax.
      exists (map (fun y => [y]) (map2 pair cmin cmax)),
        (map2 (fun w y => map (fun x => (x, y)) w) (t_rows Wg)
           (map2 pair cmin cmax)).
      split; [split; [apply dtype_eqb_refl|]; simpl;
              rewrite map_map; simpl;
              rewrite <- (map2_pair_fst cmin cmax) at 1 by congruence;
              now rewrite map_map|].
      split; [split; [apply dtype_eqb_refl|]; simpl;
              rewrite map_map; simpl;
              rewrite <- (map2_pair_snd cmin cmax) at 1 by congruence;
              now rewrite map_map|].
      split.
      { right. right. eexists. split; [reflexivity|]. split; [|reflexivity].
        rewrite length_map2_pair; congruence. }
      split; [|split; [|cbn; auto 10]].
      { apply bounded_columns.
        - apply (sequence_reduce1 Qle Qmin); [apply reduce1_min | exact Emin].
        - apply (sequence_reduce1 (fun M x => x <= M) Qmax);
            [apply reduce1_max | exact Emax]. }
      unfold mall. apply Forall_map.
      eapply Forall_impl; [|eapply sequence_min_le_max; eauto].
      intros y Hy. constructor; [exact Hy | constructor].
  - inv_bind H. inv_bind H. inv_ok H.
    destruct (reduce_all_computed _ _ _ E) as [Hread (x & Ex & ->)].
    destruct (reduce_all_computed _ _ _ E0) as [_ (x' & Ex' & ->)].
    exists [[(x, x')]], (map (map (fun w => (w, (x, x')))) (t_rows Wg)).
    split; [split; [apply dtype_eqb_refl | reflexivity]|].
    split; [split; [apply dtype_eqb_refl | reflexivity]|].
    split; [left; eexists; split; reflexivity|].
    split; [|split; [|cbn; repeat split; auto; discriminate]];
      [|repeat constructor; cbn; eapply reduce1_min_le_max; eauto].
    pose proof (reduce1_min _ _ Ex) as Bmin.
    pose proof (reduce1_max _ _ Ex') as Bmax.
    unfold mall. apply Forall_map.
    rewrite Forall_forall in Bmin, Bmax |- *. intros row Hrow.
    apply Forall_map. apply Forall_forall. intros w Hw.
    assert (Hin : In w (concat (t_rows Wg)))
      by (apply in_concat; eauto).
    split; cbn; auto.
Qed.

(** *** Quantization followed by dequantization *)

Lemma max_value_pos nbits : 1 <= nbits -> (1 <= Quantizer.max_value nbits)%Z.
Proof.
  intros H. unfold Quantizer.max_value.
  destruct nbits as [p q]. cbn [Qnum Qden].
  assert (Hpq : (Zpos q <= p)%Z).
  { unfold Qle in H. cbn in H. lia. }
  assert (Hc : (1 <= Qceiling (p # q))%Z).
  { rewrite Zle_Qle. eapply Qle_trans; [|apply Qle_ceiling]. exact H. }
  assert (Hfuel : exists f, S (Z.to_nat (2 ^ Qceiling (p # q))) = S (S f)).
  { assert (2 ^ 1 <= 2 ^ Qceiling (p # q))%Z
      by (apply Z.pow_le_mono_r; lia).
    exists (Z.to_nat (2 ^ Qceiling (p # q)) - 1)%nat. lia. }
  destruct Hfuel as [f ->]. cbn [Quantizer.nearest_pow2].
  assert (H1 : ((2 * (0 + 1) - 1) ^ Zpos q <=? 2 ^ (p + Zpos q))%Z = true).
  { apply Z.leb_le. change (2 * (0 + 1) - 1)%Z with 1%Z.
    rewrite Z.pow_1_l by lia.
    assert (0 < 2 ^ (p + Zpos q))%Z by (apply Z.pow_pos_nonneg; lia). lia. }
  rewrite H1.
  assert (H2 : ((2 * (0 + 1 + 1) - 1) ^ Zpos q <=? 2 ^ (p + Zpos q))%Z
               = true).
  { apply Z.leb_le. change (2 * (0 + 1 + 1) - 1)%Z with 3%Z.
    apply Z.le_trans with (4 ^ Zpos q)%Z.
    - apply Z.pow_le_mono_l. lia.
    - change 4%Z with (2 ^ 2)%Z. rewrite <- Z.pow_mul_r by lia.
      apply Z.pow_le_mono_r; lia. }
  rewrite H2.
  pose proof (nearest_pow2_ge f p q (0 + 1 + 1)). lia.
Qed.

Lemma supported_ge_1 nbits :
  existsb (Qeq_bool nbits) Quantizer.SUPPORTED_BITS = true -> 1 <= nbits.
Proof.
  intros H.
  destruct (supported_cases _ H) as [C|[C|[C|[C|[C|[C|[C|C]]]]]]];
    rewrite C; discriminate.
Qed.

Lemma rows_related (R : Q -> Q -> Prop) c rowsA rowsB :
  rect c rowsA -> rect c rowsB -> length rowsA = length rowsB ->
  Forall2 R (concat rowsA) (concat rowsB) ->
  Forall2 (Forall2 R) rowsA rowsB.
Proof.
  intros HA HB Hl H.
  rewrite <- (chunks_of_concat c rowsA HA), <- (chunks_of_concat c rowsB HB).
  rewrite Hl. now apply chunks_Forall2.
Qed.

Lemma concat_map_map {A B} (f : A -> B) (Z : list (list A)) :
  concat (map (map f) Z) = map f (concat Z).
Proof. symmetry. apply concat_map. Qed.

Lemma pointwise_types k t r :
  Torch.pointwise k t = Ok r ->
  t_dtype r = Torch.scalar_dtype (t_dtype t) /\ t_scalar r = t_scalar t.
Proof.
  unfold Torch.pointwise. intros H. inv_bind H. now inv_ok H.
Qed.

Lemma binary_scalar f a b r :
  Torch.binary f a b = Ok r -> t_scalar r = t_scalar a && t_scalar b.
Proof.
  unfold Torch.binary. intros H. inv_bind H. inv_bind H.
  destruct (bzip2 f x x0); [|discriminate]. now inv_ok H.
Qed.

Lemma where_types c a b r :
  Torch.where_ c a b = Ok r ->
  t_dtype r = Torch.result_type a b
  /\ t_scalar r = t_scalar c && t_scalar a && t_scalar b.
Proof.
  unfold Torch.where_. intros H. inv_bind H. inv_bind H. inv_bind H.
  destruct (bzip2 _ x0 x1); [|discriminate].
  destruct (bzip2 _ x l); [|discriminate]. now inv_ok H.
Qed.

Lemma result_type_float32 a b :
  t_dtype a = float32 -> t_dtype b = float32 ->
  Torch.result_type a b = float32.
Proof.
  intros Ha Hb. unfold Torch.result_type. rewrite Ha, Hb.
  destruct (Bool.eqb _ _); [reflexivity|]. destruct (t_scalar b); reflexivity.
Qed.

Lemma scale_zero_types max_v mn mx s z :
  Quantizer.scale_zero max_v mn mx = Ok (s, z) ->
  t_dtype mn = float32 -> t_dtype mx = float32 ->
  t_dtype s = float32 /\ t_dtype z = float32
  /\ t_scalar s = t_scalar mx && t_scalar mn
  /\ t_scalar z = t_scalar mx && t_scalar mn.
Proof.
  unfold Quantizer.scale_zero. intros H Dmn Dmx.
  inv_bind H. rename x into denom. rename E into Ed.
  inv_bind H. rename x into s0. rename E into E0.
  inv_bind H. rename x into ad. rename E into Ea.
  inv_bind H. rename x into small. rename E into Es.
  inv_bind H. rename x into s1. rename E into E1.
  inv_bind H. rename x into s2. rename E into E2.
  inv_bind H. rename x into nmin. rename E into En.
  inv_bind H. rename x into zero. rename E into Ez. inv_ok H.
  pose proof (binary_dtype _ _ _ _ Ed) as Dd.
  rewrite (result_type_float32 _ _ Dmx Dmn) in Dd.
  pose proof (binary_scalar _ _ _ _ Ed) as Sd.
  destruct (pointwise_types _ _ _ E0) as [D0 S0]. rewrite Dd in D0.
  destruct (pointwise_types _ _ _ Ea) as [Da Sa].
  assert (Ssm : t_scalar small = t_scalar ad).
  { unfold Torch.le_scalar in Es. inv_bind Es. now inv_ok Es. }
  destruct (where_types _ _ _ _ E1) as [D1 S1].
  rewrite (result_type_float32 (Torch.full_like s0 1) s0 D0 D0) in D1.
  cbn [Torch.full_like fresh t_scalar] in S1.
  destruct (pointwise_types _ _ _ E2) as [D2 S2]. rewrite D1 in D2.
  destruct (pointwise_types _ _ _ En) as [Dn Sn]. rewrite Dmn in Dn.
  pose proof (binary_dtype _ _ _ _ Ez) as Dz.
  rewrite (result_type_float32 _ _ Dn D2) in Dz.
  pose proof (binary_scalar _ _ _ _ Ez) as Sz.
  split; [exact D2|]. split; [exact Dz|].
  rewrite Sz, Sn, S2, S1, Ssm, Sa, S0, Sd.
  destruct (t_scalar mx), (t_scalar mn); split; reflexivity.
Qed.

Lemma codes_zero opt a max_v W s z0 c s1 z1 :
  Quantizer.codes opt a false max_v W s z0 = Ok (c, s1, z1) ->
  t_dtype z0 = float32 ->
  t_dtype z1 = float32 /\ t_scalar z1 = t_scalar z0.
Proof.
  unfold Quantizer.codes. intros H D.
  inv_bind H. rename x into zr.
  inv_bind H. inv_bind H. inv_bind H. inv_bind H. inv_ok H.
  destruct (Quantizer.round_zero a).
  - destruct (pointwise_types _ _ _ E) as [D' S']. rewrite D in D'. auto.
  - inv_ok E. auto.
Qed.

Lemma quantize_form opt tensor a W_q meta :
  t_scalar tensor = false ->
  rect (row_len tensor) (t_rows tensor) ->
  is_floating_point (t_dtype tensor) = true ->
  Quantizer.bitpack a = false ->
  Quantizer.optimize a = false \/ Quantizer.channel_wise a = false ->
  Quantizer.quantize opt tensor a = Ok (W_q, meta) ->
  let max_v := Quantizer.max_value (Quantizer.nbits a) in
  let rz := Quantizer.round_zero a in
  exists Wg (Y : list (list (Q * Q))) Zf s' z d,
    Quantizer.grouped tensor a = Ok Wg
    /\ broadcasts (t_rows Wg) Y Zf
    /\ mall bounded Zf
    /\ (1 <= max_v)%Z
    /\ meta = meta_of a tensor s' z VNone d
    /\ img s' Y (fun y => 1 / sigma_of max_v y)
    /\ img z Y (zeta_of max_v rz)
    /\ img W_q Zf (code_of max_v rz)
    /\ t_dtype W_q = t_dtype tensor
    /\ t_scalar W_q = false
    /\ t_scalar s' = negb (Quantizer.channel_wise a)
    /\ t_scalar z = negb (Quantizer.channel_wise a)
    /\ t_dtype s' = float32
    /\ t_dtype z = float32
    /\ readable tensor = true
    /\ concat (t_rows Wg) = concat (t_rows tensor)
    /\ exists codes s ws y,
        Quantizer.internal opt tensor a = Ok (codes, s, z)
        /\ Torch.mul Wg s = Ok ws /\ Torch.add ws z = Ok y
        /\ img y Zf (fun zz => fst zz * sigma_of max_v (snd zz)
                               + zeta_of max_v rz (snd zz)).
Proof.
  intros Hsc Hrect Hfl Hbp Hsolver HQ max_v rz.
  destruct (quantize_inv _ _ _ _ _ HQ)
    as (codes & s & z & s' & p & d & HI & Hs' & _ & _ & Hcase).
  rewrite Hbp in Hcase. destruct Hcase as [Hmeta Hto].
  destruct (internal_inv _ _ _ _ HI)
    as (Wg & mn & mx & o & s0 & z0 & HG & HMM & HSZ & HC).
  destruct (grouped_facts _ _ _ HG Hsc Hrect)
    as (WgS & WgR & WgD & WgRect & WgC).
  destruct (min_max_ordered _ _ _ _ _ HMM WgS WgRect)
    as (Y & Zf & Imn & Imx & HB & HBd & _ & _ & Dmn & Dmx & Smn & Smx & Ho).
  assert (o = false) as ->.
  { destruct o; [|reflexivity]. destruct (Ho eq_refl) as [H1 H2].
    destruct Hsolver; congruence. }
  destruct (scale_zero_img max_v mn mx Y fst snd Imn Imx)
    as (s0' & z0' & HSZ' & Is0 & Iz0 & Ss0 & Sz0).
  fold max_v in HSZ, HC. rewrite HSZ in HSZ'. inv_ok HSZ'.
  rewrite WgD in Dmn, Dmx.
  destruct (scale_zero_types _ _ _ _ _ HSZ Dmn Dmx)
    as (Ds0 & Dz0 & _ & Sz0').
  destruct (codes_zero _ _ _ _ _ _ _ _ _ HC Dz0) as [Dz Sz].
  destruct (codes_chain opt a max_v Wg s0' z0' Y Zf _ _ codes s z WgR HB
              Is0 Iz0 HC)
    as (-> & Iz & ws & y & Ews & Ey & Iy & Icodes & Scodes).
  destruct (pointwise_img (fun x => 1 / x) _ _ _ Is0) as (r & Er & Ir & Sr).
  unfold Torch.rdiv in Hs'. rewrite Er in Hs'. inv_ok Hs'.
  exists Wg, Y, Zf, s', z, d.
  split; [exact HG|]. split; [exact HB|]. split; [exact HBd|].
  split.
  { apply max_value_pos, supported_ge_1.
    apply internal_checked in HI. now apply check_args_inv in HI. }
  split; [first [exact Hmeta | reflexivity]|].
  split; [exact Ir|]. split; [exact Iz|].
  destruct (to_inv _ _ _ Hto) as [Rc ->].
  destruct Icodes as [_ Hrows].
  split.
  { split; [apply dtype_eqb_refl|]. cbn [t_rows fresh].
    rewrite cast_floating by exact Hfl. exact Hrows. }
  split; [reflexivity|].
  split.
  { cbn [t_scalar fresh]. rewrite Scodes, WgS. reflexivity. }
  destruct (pointwise_types _ _ _ Er) as [Dr Sr'].
  split.
  { rewrite Sr', Ss0, Smn, Smx. now destruct (Quantizer.channel_wise a). }
  split.
  { rewrite Sz, Sz0', Smn, Smx. now destruct (Quantizer.channel_wise a). }
  split; [now rewrite Dr, Ds0|]. split; [exact Dz|].
  split.
  { destruct (grouped_inv _ _ _ HG) as (W0 & _ & F & _).
    now destruct (float_inv _ _ F). }
  split; [exact WgC|].
  exists codes, s0', ws, y.
  split; [exact HI|]. split; [exact Ews|]. split; [exact Ey | exact Iy].
Qed.

Lemma dequantize_form a tensor Wg (Y : list (list (Q * Q))) Zf W_q s' z d
  (kappa : Q * (Q * Q) -> Q) (sinv zeta : Q * Q -> Q) :
  t_scalar tensor = false ->
  readable tensor = true ->
  rect (row_len tensor) (t_rows tensor) ->
  concat (t_rows Wg) = concat (t_rows tensor) ->
  broadcasts (t_rows Wg) Y Zf ->
  img s' Y sinv -> img z Y zeta -> img W_q Zf kappa ->
  t_scalar W_q = false ->
  t_scalar s' = negb (Quantizer.channel_wise a) ->
  t_scalar z = negb (Quantizer.channel_wise a) ->
  t_dtype s' = float32 -> t_dtype z = float32 ->
  exists W',
    Quantizer.dequantize W_q (meta_of a tensor s' z VNone d) = Ok W'
    /\ t_scalar W' = false
    /\ readable W' = true
    /\ t_dtype W' = (if Quantizer.channel_wise a then float32 else float16)
    /\ n_rows W' = n_rows tensor
    /\ rect (row_len tensor) (t_rows W')
    /\ concat (t_rows W')
       = map (fun zz => (kappa zz - zeta (snd zz)) * sinv (snd zz))
           (concat Zf)
    /\ concat (t_rows tensor) = map fst (concat Zf).
Proof.
  intros Hsc Hread Hrect HC HB Is Iz Iw Sw Ss Sz Ds Dz.
  unfold Quantizer.dequantize.
  rewrite unpacked_without_packing by reflexivity.
  change (Quantizer.get_compute_dtype (meta_of a tensor s' z VNone d))
    with (Ok float16).
  cbn [bind].
  assert (Ito : exists W_r, Torch.to float16 W_q = Ok W_r
                            /\ img W_r Zf kappa
                            /\ t_scalar W_r = false
                            /\ t_dtype W_r = float16).
  { destruct Iw as [Rw Hrows]. unfold Torch.to, Torch.values.
    rewrite Rw. cbn [bind]. eexists. split; [reflexivity|].
    split; [|split; [exact Sw | reflexivity]].
    split; [apply dtype_eqb_refl|]. cbn [t_rows fresh].
    rewrite cast_floating by reflexivity. exact Hrows. }
  destruct Ito as (W_r & -> & Ir & Sr & Dr). cbn [bind].
  change (Dict.tensor "zero" (meta_of a tensor s' z VNone d)) with (Ok z).
  cbn [bind].
  destruct (binary_broadcast _ _ _ HB Qminus W_r z kappa zeta Ir Iz)
    as (dd & Ed & Id & Sd & Dd).
  unfold Torch.sub. rewrite Ed. cbn [bind].
  change (Dict.tensor "scale" (meta_of a tensor s' z VNone d)) with (Ok s').
  cbn [bind].
  destruct (binary_broadcast _ _ _ HB Qmult dd s' _ sinv Id Is)
    as (m & Em & Im & Sm & Dm).
  unfold Torch.mul. rewrite Em. cbn [bind].
  change (Dict.item "shape" (meta_of a tensor s' z VNone d))
    with (Ok (VShape (shape tensor))).
  cbn [bind Quantizer.shape_of].
  assert (Hshape : shape tensor = [n_rows tensor; row_len tensor]).
  { unfold shape. rewrite Hsc. unfold readable in Hread.
    apply dtype_eqb_eq in Hread. rewrite Hread.
    rewrite Nat.div_mul; [reflexivity|].
    pose proof (bit_width_pos (t_store tensor)). lia. }
  rewrite Hshape. cbn [Torch.reshape].
  assert (Hcat : concat (t_rows tensor) = map fst (concat Zf)).
  { rewrite <- HC, <- (broadcast_fst _ _ _ HB). apply concat_map_map. }
  destruct Im as [Rm Hm].
  assert (Hnumel : numel m = (n_rows tensor * row_len tensor)%nat).
  { unfold numel. rewrite Hm, concat_map_map, length_map.
    rewrite <- (length_map fst), <- Hcat.
    apply rect_concat_length. exact Hrect. }
  unfold Torch.reshape2. rewrite Hnumel, Nat.eqb_refl.
  eexists. split; [reflexivity|].
  cbn [t_scalar t_dtype t_store t_rows readable n_rows].
  split; [reflexivity|]. split; [exact Rm|].
  split.
  { rewrite Dm. unfold Torch.result_type. rewrite Dd, Sd, Sr, Ds, Ss.
    unfold Torch.result_type. rewrite Sr, Sz, Dr, Dz.
    destruct (Quantizer.channel_wise a); reflexivity. }
  assert (Hlen : length (concat (t_rows m))
                 = (n_rows tensor * row_len tensor)%nat) by exact Hnumel.
  split; [apply chunks_length|].
  split; [apply chunks_rect; exact Hlen|].
  split; [|exact Hcat].
  rewrite chunks_concat by exact Hlen.
  rewrite Hm. apply concat_map_map.
Qed.

Lemma shape_of_rect A B :
  t_scalar A = false -> t_scalar B = false ->
  readable A = true -> readable B = true ->
  n_rows A = n_rows B -> rect (row_len B) (t_rows A) ->
  shape A = shape B.
Proof.
  unfold shape, readable, n_rows, row_len, rect.
  intros SA SB RA RB Hn Hrect. rewrite SA, SB, Hn.
  apply dtype_eqb_eq in RA, RB. rewrite RA, RB.
  rewrite !Nat.div_mul
    by (pose proof (bit_width_pos (t_store A));
        pose proof (bit_width_pos (t_store B)); lia).
  f_equal. f_equal.
  destruct (t_rows A) as [|ra rowsA]; destruct (t_rows B) as [|rb rowsB];
    cbn in *; try discriminate; [reflexivity|].
  now inversion Hrect.
Qed.

(** What [quantize] followed by [dequantize] gives without bit-packing and
    without the solver. *)
Lemma round_trip_form opt tensor a W_q meta :
  t_scalar tensor = false ->
  rect (row_len tensor) (t_rows tensor) ->
  is_floating_point (t_dtype tensor) = true ->
  Quantizer.bitpack a = false ->
  Quantizer.optimize a = false \/ Quantizer.channel_wise a = false ->
  Quantizer.quantize opt tensor a = Ok (W_q, meta) ->
  let max_v := Quantizer.max_value (Quantizer.nbits a) in
  let rz := Quantizer.round_zero a in
  exists Wg (Y : list (list (Q * Q))) Zf scale zero W',
    Quantizer.grouped tensor a = Ok Wg
    /\ broadcasts (t_rows Wg) Y Zf
    /\ mall bounded Zf
    /\ (1 <= max_v)%Z
    /\ Dict.get "scale" meta = Some (VTensor scale)
    /\ Dict.get "zero" meta = Some (VTensor zero)
    /\ img scale Y (fun y => 1 / sigma_of max_v y)
    /\ img zero Y (zeta_of max_v rz)
    /\ Quantizer.dequantize W_q meta = Ok W'
    /\ shape W' = shape tensor
    /\ t_dtype W' = (if Quantizer.channel_wise a then float32 else float16)
    /\ (forall R : Q -> Q -> Prop,
           mall (fun zz => R (decoded max_v rz zz) (fst zz)) Zf ->
           Forall2 (Forall2 R) (t_rows W') (t_rows tensor))
    /\ exists codes s ws y,
        Quantizer.internal opt tensor a = Ok (codes, s, zero)
        /\ Torch.mul Wg s = Ok ws /\ Torch.add ws zero = Ok y
        /\ img y Zf (fun zz => fst zz * sigma_of max_v (snd zz)
                               + zeta_of max_v rz (snd zz)).
Proof.
  intros Hsc Hrect Hfl Hbp Hsolver HQ max_v rz.
  destruct (quantize_form _ _ _ _ _ Hsc Hrect Hfl Hbp Hsolver HQ)
    as (Wg & Y & Zf & s' & z & d & HG & HB & HBd & HM & -> & Is & Iz & Iw
        & Dw & Sw & Ss & Sz & Ds & Dz & Hread & HC & Hy).
  fold max_v rz in HM, Is, Iz, Iw, Hy.
  destruct (dequantize_form a tensor Wg Y Zf W_q s' z d _ _ _ Hsc Hread
              Hrect HC HB Is Iz Iw Sw Ss Sz Ds Dz)
    as (W' & HD & SW' & RW' & DW' & NW' & RectW' & CW' & Ct).
  exists Wg, Y, Zf, s', z, W'.
  repeat (split; [first [assumption | reflexivity]|]).
  split; [now apply shape_of_rect|].
  split; [exact DW'|].
  split; [|exact Hy].
  intros R HR.
  apply (rows_related R (row_len tensor)); try assumption.
  rewrite CW', Ct. apply Forall2_map_same. apply mall_concat. exact HR.
Qed.

(** X10.  The element type of the reconstruction (lines 184-197 on what
    lines 101-179 return), without bit-packing and without the solver:
    [Quantizer.quantize] stores no ["compute_dtype"], so [dequantize] works
    in float16, and the result is float16 when [channel_wise] is off (scale
    and zero are 0-dim and do not take part in the promotion) and float32
    when it is on (scale and zero are float32 tensors with dimensions). *)
Theorem reconstruction_dtype opt tensor a W_q meta :
  t_scalar tensor = false ->
  rect (row_len tensor) (t_rows tensor) ->
  is_floating_point (t_dtype tensor) = true ->
  Quantizer.bitpack a = false ->
  Quantizer.optimize a = false \/ Quantizer.channel_wise a = false ->
  Quantizer.quantize opt tensor a = Ok (W_q, meta) ->
  Quantizer.get_compute_dtype meta = Ok float16
  /\ exists W',
      Quantizer.dequantize W_q meta = Ok W'
      /\ t_dtype W'
         = (if Quantizer.channel_wise a then float32 else float16).
Proof.
  intros Hsc Hrect Hfl Hbp Hsolver HQ.
  destruct (round_trip_form _ _ _ _ _ Hsc Hrect Hfl Hbp Hsolver HQ)
    as (Wg & Y & Zf & scale & zero & W' & _ & _ & _ & _ & _ & _ & _
        & _ & HD & _ & HT & _).
  split; [|eauto].
  destruct (quantize_meta_of _ _ _ _ _ HQ) as (s & z & pk & vd & ->).
  reflexivity.
Qed.

Lemma reconstruction_dtype_witness :
  Quantizer.get_compute_dtype (snd ones_4x8_unpacked) = Ok float16
  /\ exists W',
      Quantizer.dequantize (fst ones_4x8_unpacked) (snd ones_4x8_unpacked)
      = Ok W'
      /\ t_dtype W' = float32.
Proof.
  apply (reconstruction_dtype no_optimizer ones_4x8 args_unpacked).
  - reflexivity.
  - repeat constructor.
  - reflexivity.
  - reflexivity.
  - left. reflexivity.
  - vm_compute. reflexivity.
Defined.

(** ** The stored scale *)

(** ** Validation, and what passes it *)

Lemma check_args_valid tensor a :
  if valid_args tensor a
  then Quantizer.check_args tensor a = Ok tt
  else exists msg, Quantizer.check_args tensor a = Raise (AssertionError msg).
Proof.
  unfold valid_args, Quantizer.check_args, assert.
  destruct (existsb _ _); cbn [andb bind]; [|eauto].
  destruct (_ || _); cbn [andb bind]; [|eauto].
  destruct (Quantizer.group_size a) as [g|]; [|reflexivity].
  destruct (is_divisible _ g); eauto.
Qed.

Lemma reduce_cols_some f rows :
  rows <> [] -> exists r, Torch.reduce_cols f rows = Some r.
Proof.
  induction rows as [|row rows IH]; [congruence|]. intros _.
  cbn [Torch.reduce_cols]. destruct rows as [|row' rows]; [eauto|].
  destruct IH as [acc ->]; [discriminate|]. eauto.
Qed.

Lemma sequence_reduce1_some f rows :
  Forall (fun r => r <> []) rows ->
  exists col, sequence (map (Torch.reduce1 f) rows) = Some col.
Proof.
  induction 1 as [|row rows Hrow _ [col IH]]; cbn [map sequence];
    [eauto|].
  destruct row as [|x row]; [congruence|]. cbn [Torch.reduce1].
  rewrite IH. eauto.
Qed.

Lemma min_max_total a Wg :
  populated Wg ->
  Quantizer.axis a = 0%Z \/ Quantizer.axis a = 1%Z ->
  exists mn mx,
    Quantizer.min_max a Wg
    = Ok (mn, mx, Quantizer.channel_wise a && Quantizer.optimize a).
Proof.
  intros (Hsc & Hread & Hrect & Hn & Hc) Hax.
  unfold Quantizer.min_max, Torch.min_all, Torch.max_all, Torch.min_axis,
    Torch.max_axis, Torch.reduce_all, Torch.reduce_axis, Torch.values.
  rewrite Hread, Hsc. cbn [bind].
  assert (Hne : t_rows Wg <> []).
  { unfold n_rows in Hn. destruct (t_rows Wg); [cbn in Hn; lia | discriminate]. }
  destruct (Quantizer.channel_wise a); cbn [negb andb].
  - destruct (Z.eqb (Quantizer.axis a) 0).
    + destruct (reduce_cols_some Qmin _ Hne) as [rmin ->].
      destruct (reduce_cols_some Qmax _ Hne) as [rmax ->].
      cbn [bind]. eauto.
    + assert (Hrows : Forall (fun r => r <> []) (t_rows Wg)).
      { eapply Forall_impl; [|exact Hrect]. intros r Hr ->.
        cbv beta in Hr. rewrite <- Hr in Hc. cbn in Hc. lia. }
      destruct (sequence_reduce1_some Qmin _ Hrows) as [cmin ->].
      destruct (sequence_reduce1_some Qmax _ Hrows) as [cmax ->].
      cbn [bind]. eauto.
  - assert (Hcat : concat (t_rows Wg) <> []).
    { unfold row_len in Hc. clear - Hc Hne.
      destruct (t_rows Wg) as [|r rows]; [congruence|].
      cbn in Hc. destruct r; [cbn in Hc; lia | discriminate]. }
    destruct (concat (t_rows Wg)) as [|x l]; [congruence|].
    cbn [Torch.reduce1 bind]. eauto.
Qed.

Lemma chunks_hd r c (l : list Q) :
  (0 < r)%nat -> (c <= length l)%nat -> length (hd [] (chunks r c l)) = c.
Proof.
  intros Hr Hc. destruct r; [lia|]. cbn [chunks hd].
  rewrite length_firstn. lia.
Qed.

Lemma reshape2_populated r c t :
  readable t = true -> (0 < r)%nat -> (0 < c)%nat ->
  numel t = (r * c)%nat ->
  exists t', Torch.reshape2 r c t = Ok t' /\ populated t'.
Proof.
  intros Hread Hr Hc Hn. unfold Torch.reshape2. rewrite Hn, Nat.eqb_refl.
  eexists. split; [reflexivity|]. unfold populated, readable, n_rows, row_len.
  cbn [t_scalar t_dtype t_store t_rows].
  unfold numel in Hn.
  assert (Hhd : length (hd [] (chunks r c (concat (t_rows t)))) = c).
  { apply chunks_hd; [exact Hr|]. rewrite Hn. nia. }
  rewrite Hhd, chunks_length.
  split; [reflexivity|]. split; [exact Hread|].
  split; [now apply chunks_rect|]. split; assumption.
Qed.

Lemma regroup_total a W :
  populated W ->
  match Quantizer.group_size a with
  | Some g => (0 < g)%nat /\ is_divisible (numel W) g = true
  | None => True
  end ->
  exists Wg, Quantizer.regroup a W = Ok Wg /\ populated Wg.
Proof.
  intros HW Hg. unfold Quantizer.regroup.
  destruct (Quantizer.group_size a) as [g|]; [|eauto].
  destruct (Quantizer.channel_wise a); [|eauto].
  destruct Hg as [Hpos Hdiv]. unfold is_divisible in Hdiv.
  apply Nat.eqb_eq in Hdiv.
  destruct HW as (Hsc & Hread & Hrect & Hn & Hc).
  assert (Hnumel : (0 < numel W)%nat).
  { unfold numel. rewrite (rect_concat_length _ _ Hrect).
    unfold n_rows in Hn. nia. }
  assert (Hq : (0 < numel W / g)%nat /\ numel W = (numel W / g * g)%nat).
  { pose proof (Nat.div_mod_eq (numel W) g) as E. rewrite Hdiv in E.
    split; [|lia]. destruct (numel W / g)%nat; lia. }
  destruct Hq as [Hq1 Hq2].
  unfold Torch.reshape_rows_of, Torch.reshape_cols_of.
  assert (Eg : Nat.eqb g 0 = false) by (apply Nat.eqb_neq; lia).
  rewrite Eg, Hdiv. cbn [Nat.eqb].
  destruct (Z.eqb (Quantizer.axis a) 1).
  - apply reshape2_populated; auto.
  - apply reshape2_populated; auto. lia.
Qed.

Lemma packing_known nbits :
  existsb (Qeq_bool nbits) Quantizer.SUPPORTED_BITS = true ->
  exists p d,
    Quantizer.lookup_num nbits Quantizer.bit_to_packing = Some p
    /\ Quantizer.lookup_str p Quantizer.unpack_view_dtype = Some d.
Proof.
  intros H.
  destruct (supported_cases _ H) as [C|[C|[C|[C|[C|[C|[C|C]]]]]]];
    rewrite (lookup_num_proper _ _ _ C); eexists _, _;
    (split; [vm_compute; reflexivity | vm_compute; reflexivity]).
Qed.

Lemma codes_total opt a max_v Wg s z0 (Y : list (list (Q * Q))) Zf
  sigma zeta0 :
  readable Wg = true ->
  broadcasts (t_rows Wg) Y Zf ->
  img s Y sigma -> img z0 Y zeta0 ->
  exists codes z1,
    Quantizer.codes opt a false max_v Wg s z0 = Ok (codes, s, z1)
    /\ readable codes = true.
Proof.
  intros Hread HB Is Iz0.
  assert (IW : img Wg Zf fst).
  { split; [exact Hread|]. symmetry. eapply broadcast_fst; eauto. }
  assert (Hz : exists z1' zeta,
             (if Quantizer.round_zero a then Torch.round z0 else Ok z0)
             = Ok z1' /\ img z1' Y zeta).
  { destruct (Quantizer.round_zero a).
    - destruct (pointwise_img
                  (fun x => inject_Z (Torch.round_half_even x)) _ _ _ Iz0)
        as (r & E & I & _).
      exists r. eexists. split; [exact E | exact I].
    - exists z0, zeta0. split; [reflexivity | exact Iz0]. }
  destruct Hz as (z1' & zeta & Ez & Iz).
  unfold Quantizer.codes. rewrite Ez. cbn [bind].
  destruct (binary_broadcast _ _ _ HB Qmult Wg s fst sigma IW Is)
    as (ws & Ews & Iws & _).
  unfold Torch.mul. rewrite Ews. cbn [bind].
  destruct (binary_broadcast _ _ _ HB Qplus ws z1' _ zeta Iws Iz)
    as (y & Ey & Iy & _).
  unfold Torch.add. rewrite Ey. cbn [bind].
  destruct (pointwise_img (fun x => inject_Z (Torch.round_half_even x))
              _ _ _ Iy) as (r & Er & Ir & _).
  unfold Torch.round. rewrite Er. cbn [bind].
  destruct (pointwise_img (fun x => Qmin (Qmax x 0) (inject_Z max_v))
              _ _ _ Ir) as (c & Ec & Ic & _).
  unfold Torch.clamp. rewrite Ec. cbn [bind].
  exists c, z1'. split; [reflexivity|]. apply Ic.
Qed.

(** X11.  [Quantizer.quantize] (lines 89-179) on a matrix with elements,
    without bit-packing and without the solver, for a positive [group_size]
    or none: the call returns a result exactly when the three assertions of
    lines 89-99 hold ([nbits] is supported, [axis] is 0 or 1 and
    [group_size] divides the number of elements), and raises
    [AssertionError] when one of them fails.  No later step of the function
    can fail on such an input. *)
Theorem quantize_returns_iff_valid opt tensor a :
  populated tensor ->
  Quantizer.bitpack a = false ->
  Quantizer.optimize a = false \/ Quantizer.channel_wise a = false ->
  match Quantizer.group_size a with
  | Some g => (0 < g)%nat
  | None => True
  end ->
  if valid_args tensor a
  then exists W_q meta, Quantizer.quantize opt tensor a = Ok (W_q, meta)
  else exists msg,
      Quantizer.quantize opt tensor a = Raise (AssertionError msg).
Proof.
  intros HT Hbp Hsolver Hg.
  pose proof (check_args_valid tensor a) as Hcheck.
  destruct (valid_args tensor a) eqn:Hvalid.
  - pose proof (check_args_inv _ _ Hcheck) as (Hnb & Hax & Hdiv).
    destruct HT as (Hsc & Hread & Hrect & Hn & Hc).
    assert (HW : populated (fresh float32 (t_scalar tensor)
                              (t_rows tensor))).
    { rewrite Hsc. repeat split; auto. }
    assert (Hg' : match Quantizer.group_size a with
                  | Some g =>
                      (0 < g)%nat
                      /\ is_divisible
                           (numel (fresh float32 (t_scalar tensor)
                                     (t_rows tensor))) g = true
                  | None => True
                  end).
    { destruct (Quantizer.group_size a); [split; assumption | exact I]. }
    destruct (regroup_total a _ HW Hg') as (Wg & ER & HWg).
    assert (HG : Quantizer.grouped tensor a = Ok Wg).
    { unfold Quantizer.grouped. rewrite Hcheck. cbn [bind].
      unfold Torch.float, Torch.to, Torch.values. rewrite Hread.
      cbn [bind]. rewrite cast_floating by reflexivity. exact ER. }
    destruct (min_max_total a Wg HWg Hax) as (mn & mx & EMM).
    assert (Ho : Quantizer.channel_wise a && Quantizer.optimize a = false).
    { destruct Hsolver as [-> | ->]; [apply andb_false_r | reflexivity]. }
    rewrite Ho in EMM.
    destruct HWg as (WgS & WgR & WgRect & _ & _).
    destruct (min_max_ordered _ _ _ _ _ EMM WgS WgRect)
      as (Y & Zf & Imn & Imx & HB & _).
    destruct (scale_zero_img (Quantizer.max_value (Quantizer.nbits a))
                mn mx Y fst snd Imn Imx)
      as (s & z0 & ESZ & Is & Iz0 & _).
    destruct (codes_total opt a (Quantizer.max_value (Quantizer.nbits a))
                Wg s z0 Y Zf _ _ WgR HB Is Iz0)
      as (codes & z & EC & Rc).
    destruct (pointwise_img (fun x => 1 / x) _ _ _ Is) as (s' & Es' & _).
    destruct (packing_known _ Hnb) as (p & d & Ep & Ed).
    unfold Quantizer.quantize, Quantizer.internal.
    rewrite HG. cbn [bind]. rewrite EMM. cbn [bind].
    rewrite ESZ. cbn [bind]. rewrite EC. cbn [bind].
    unfold Torch.rdiv. rewrite Es'. cbn [bind].
    unfold Quantizer.table_num, Quantizer.table_str.
    rewrite Ep. cbn [bind]. rewrite Ed. cbn [bind].
    rewrite Hbp. unfold Torch.to, Torch.values. rewrite Rc. cbn [bind].
    eauto.
  - destruct Hcheck as [msg Hmsg]. exists msg.
    unfold Quantizer.quantize, Quantizer.internal, Quantizer.grouped.
    rewrite Hmsg. reflexivity.
Qed.

Lemma quantize_returns_iff_valid_witness :
  (exists W_q meta,
      Quantizer.quantize no_optimizer row_0124 args_2bit_global
      = Ok (W_q, meta))
  /\ (exists msg,
         Quantizer.quantize no_optimizer row_0124
           (Quantizer.mkArgs 2 false (Some 3%nat) false false 0%Z false None
              false)
         = Raise (AssertionError msg)).
Proof.
  assert (HT : populated row_0124).
  { unfold populated. cbn. repeat split; try lia. repeat constructor. }
  split.
  - exact (quantize_returns_iff_valid no_optimizer row_0124 args_2bit_global
             HT eq_refl (or_introl eq_refl) I).
  - exact (quantize_returns_iff_valid no_optimizer row_0124
             (Quantizer.mkArgs 2 false (Some 3%nat) false false 0%Z false
                None false)
             HT eq_refl (or_introl eq_refl) (Nat.lt_0_succ 2)).
Defined.

(** ** Moving the meta between devices *)

Lemma convert_retyped cd t t' :
  Quantizer.convert cd t = Ok t' -> retyped cd t t'.
Proof.
  unfold Quantizer.convert, retyped.
  destruct (is_floating_point (t_dtype t)); intros H.
  - destruct (to_inv _ _ _ H). auto.
  - now inv_ok H.
Qed.

Lemma cast_idem cd q : Torch.cast cd (Torch.cast cd q) = Torch.cast cd q.
Proof.
  destruct cd; cbn [Torch.cast]; try reflexivity.
  - (* uint8 *) f_equal. unfold Torch.truncate. cbn.
    rewrite Z.quot_1_r. unfold Torch.wrap. apply Z.mod_mod. lia.
  - f_equal. unfold Torch.truncate. cbn. rewrite Z.quot_1_r.
    unfold Torch.wrap.
    pose proof (Z.mod_pos_bound
                  (Z.quot (Qnum q) (Zpos (Qden q)) + 128) 256 ltac:(lia)).
    rewrite (Z.mod_small (_ - 128 + 128)) by lia. lia.
  - f_equal. unfold Torch.truncate. cbn. rewrite Z.quot_1_r.
    unfold Torch.wrap.
    pose proof (Z.mod_pos_bound
                  (Z.quot (Qnum q) (Zpos (Qden q)) + 32768) 65536
                  ltac:(lia)).
    rewrite (Z.mod_small (_ - 32768 + 32768)) by lia. lia.
  - f_equal. unfold Torch.truncate. cbn. rewrite Z.quot_1_r.
    unfold Torch.wrap.
    pose proof (Z.mod_pos_bound
                  (Z.quot (Qnum q) (Zpos (Qden q)) + 2147483648) 4294967296
                  ltac:(lia)).
    rewrite (Z.mod_small (_ - 2147483648 + 2147483648)) by lia. lia.
  - destruct (Qeq_bool q 0); reflexivity.
Qed.

Lemma convert_idem cd t t' :
  Quantizer.convert cd t = Ok t' -> Quantizer.convert cd t' = Ok t'.
Proof.
  unfold Quantizer.convert.
  destruct (is_floating_point (t_dtype t)) eqn:F; intros H.
  - destruct (to_inv _ _ _ H) as [_ ->]. cbn [t_dtype fresh].
    destruct (is_floating_point cd); [|reflexivity].
    rewrite to_fresh. f_equal. unfold fresh. f_equal.
    rewrite map_map. apply map_ext. intros r. rewrite map_map.
    apply map_ext. intros q. apply cast_idem.
  - inv_ok H. now rewrite F.
Qed.

Lemma convert_all_moved cd meta meta' :
  Quantizer.convert_all cd meta = Ok meta' ->
  Forall2 (moved cd) meta meta'
  /\ Quantizer.convert_all cd meta' = Ok meta'.
Proof.
  revert meta'. induction meta as [|[k v] meta IH]; intros meta' H;
    cbn [Quantizer.convert_all] in H.
  - inv_ok H. split; [constructor | reflexivity].
  - inv_bind H. rename x into v'. inv_bind H. rename x into rest.
    inv_ok H. destruct (IH _ E0) as [IH1 IH2].
    assert (Hv : moved cd (k, v) (k, v')
                 /\ match v' with
                    | VTensor t =>
                        (t' <- Quantizer.convert cd t ;; Ok (VTensor t'))
                    | VStack a b =>
                        (a' <- Quantizer.convert cd a ;;
                         b' <- Quantizer.convert cd b ;;
                         Ok (VStack a' b'))
                    | _ => Ok v'
                    end%result = Ok v').
    { unfold moved. cbn [fst snd].
      destruct v; try (inv_ok E; split; [split|]; reflexivity).
      - inv_bind E. inv_ok E. split.
        + split; [reflexivity|]. eexists. split; [reflexivity|].
          now apply convert_retyped.
        + now rewrite (convert_idem _ _ _ E1).
      - inv_bind E. inv_bind E. inv_ok E. split.
        + split; [reflexivity|]. eexists _, _. split; [reflexivity|].
          split; now apply convert_retyped.
        + now rewrite (convert_idem _ _ _ E1), (convert_idem _ _ _ E2). }
    destruct Hv as [Hv1 Hv2]. split; [constructor; assumption|].
    cbn [Quantizer.convert_all]. rewrite Hv2. cbn [bind].
    now rewrite IH2.
Qed.

Lemma convert_all_compute_dtype cd meta meta' :
  Quantizer.convert_all cd meta = Ok meta' ->
  Quantizer.get_compute_dtype meta = Ok cd ->
  Quantizer.get_compute_dtype meta' = Ok cd.
Proof.
  intros H. unfold Quantizer.get_compute_dtype, Dict.item.
  rewrite (convert_all_mem _ _ _ "compute_dtype" H). unfold Dict.mem.
  destruct (Dict.get "compute_dtype" meta) as [v|] eqn:G.
  - cbn [bind]. intros Hd.
    assert (Hp : plain v = true) by (destruct v; try discriminate; reflexivity).
    now rewrite (convert_all_get _ _ _ _ _ H G Hp).
  - assert (Hn : Dict.mem "compute_dtype" meta' = false).
    { rewrite (convert_all_mem _ _ _ "compute_dtype" H). unfold Dict.mem.
      now rewrite G. }
    unfold Dict.mem in Hn.
    destruct (Dict.get "compute_dtype" meta'); [discriminate|]. auto.
Qed.

(** X12.  [Quantizer.to_ooplace] and [Quantizer.to_inplace] (lines
    200-247, behind [Quantizer.cpu] and [Quantizer.cuda]): a call that
    returns hands back [W_q] as it was and a [meta] with the same keys in the
    same order, in which every floating-point tensor was converted to
    [meta["compute_dtype"]] (float16 when the key is missing) and every other
    entry, tensors of integers included, is unchanged.  The two functions
    return the same values, and applying them to their own result changes
    nothing. *)
Theorem device_transfer_retypes_floats W_q meta W' meta' :
  Quantizer.to_ooplace W_q meta = Ok (W', meta') ->
  exists cd,
    Quantizer.get_compute_dtype meta = Ok cd
    /\ W' = W_q
    /\ Forall2 (moved cd) meta meta'
    /\ Quantizer.to_inplace W_q meta = Ok (W', meta')
    /\ Quantizer.to_ooplace W' meta' = Ok (W', meta')
    /\ Quantizer.cpu W_q meta = Ok (W', meta')
    /\ Quantizer.cuda W_q meta = Ok (W', meta').
Proof.
  unfold Quantizer.cpu, Quantizer.cuda, Quantizer.to_ooplace,
    Quantizer.to_inplace.
  intros H. inv_bind H. rename x into cd. inv_bind H. inv_ok H.
  destruct (convert_all_moved _ _ _ E0) as [Hm Hi].
  exists cd. split; [exact E|]. split; [reflexivity|].
  split; [exact Hm|].
  rewrite E. cbn [bind]. rewrite E0. cbn [bind]. split; [reflexivity|].
  rewrite (convert_all_compute_dtype _ _ _ E0 E). cbn [bind].
  rewrite Hi. auto.
Qed.

Lemma device_transfer_retypes_floats_witness :
  exists cd,
    Quantizer.get_compute_dtype (snd ones_4x8_quantized) = Ok cd
    /\ fst (out_of (Quantizer.to_ooplace (Some (fst ones_4x8_quantized))
                      (snd ones_4x8_quantized)) (None, []))
       = Some (fst ones_4x8_quantized)
    /\ Forall2 (moved cd) (snd ones_4x8_quantized)
         (snd (out_of (Quantizer.to_ooplace (Some (fst ones_4x8_quantized))
                         (snd ones_4x8_quantized)) (None, []))).
Proof.
  destruct (device_transfer_retypes_floats
              (Some (fst ones_4x8_quantized)) (snd ones_4x8_quantized)
              (fst (out_of (Quantizer.to_ooplace
                              (Some (fst ones_4x8_quantized))
                              (snd ones_4x8_quantized)) (None, [])))
              (snd (out_of (Quantizer.to_ooplace
                              (Some (fst ones_4x8_quantized))
                              (snd ones_4x8_quantized)) (None, []))))
    as (cd & H1 & H2 & H3 & _).
  - vm_compute. reflexivity.
  - exists cd. auto.
Defined.

(** ** The axis of a configuration *)

Lemma construct_with_axis opt nbits g axis vf s z om lin del_orig cd dev p
  r c :
  existsb (Qeq_bool nbits) Quantizer.SUPPORTED_BITS = true ->
  axis <> 0%Z -> axis <> 1%Z ->
  shape (HQQLinear.weight lin) = [r; c] ->
  fst (HQQLinear.__init__ opt (Some lin)
         (VDict [ ("weight_quant_params",
                   VDict [ ("nbits", VNum nbits);
                           ("channel_wise", VBool true);
                           ("group_size", Quantizer.py_opt_nat g);
                           ("optimize", VBool true);
                           ("round_zero", VBool (Qeq_bool nbits 4));
                           ("axis", VInt axis);
                           ("view_as_float", VBool vf) ]);
                  ("scale_quant_params", s);
                  ("zero_quant_params", z);
                  ("offload_meta", VBool om) ])
         del_orig cd dev true p)
  = Raise (AssertionError "axis should be either 0 or 1").
Proof.
  intros Hn H0 H1 Hs.
  rewrite init_drops_deprecated by reflexivity.
  unfold without_deprecated.
  change (Dict.set "zero_quant_params" VNone
            (Dict.set "scale_quant_params" VNone _))
    with [ ("weight_quant_params",
            VDict [ ("nbits", VNum nbits);
                    ("channel_wise", VBool true);
                    ("group_size", Quantizer.py_opt_nat g);
                    ("optimize", VBool true);
                    ("round_zero", VBool (Qeq_bool nbits 4));
                    ("axis", VInt axis);
                    ("view_as_float", VBool vf) ]);
           ("scale_quant_params", VNone);
           ("zero_quant_params", VNone);
           ("offload_meta", VBool om) ].
  unfold HQQLinear.__init__, HQQLinear.pbind, HQQLinear.lift.
  change (Dict.get "offload_meta" _) with (Some (VBool om)).
  cbn [fst snd].
  pose proof (set_backend_ok (HQQLinear.backend p) p) as Hb.
  destruct (HQQLinear.set_backend (HQQLinear.backend p) p) as [u p1].
  simpl in Hb. subst u. cbn [fst snd].
  unfold HQQLinear.initialize, HQQLinear.pbind, HQQLinear.lift,
    HQQLinear.ret.
  cbn [HQQLinear.linear_layer HQQLinear.quant_config HQQLinear.dict_of fst snd].
  change (Dict.remove "offload_meta" _)
    with [ ("weight_quant_params",
            VDict [ ("nbits", VNum nbits);
                    ("channel_wise", VBool true);
                    ("group_size", Quantizer.py_opt_nat g);
                    ("optimize", VBool true);
                    ("round_zero", VBool (Qeq_bool nbits 4));
                    ("axis", VInt axis);
                    ("view_as_float", VBool vf) ]);
           ("scale_quant_params", VNone);
           ("zero_quant_params", VNone) ].
  change (Dict.item "scale_quant_params" _) with (Ok VNone).
  change (Dict.item "zero_quant_params" _) with (Ok VNone).
  cbn [HQQLinear.is_none negb fst snd].
  unfold HQQLinear.quantize_linear, HQQLinear.default_group_size.
  change (Dict.item "weight_quant_params" _)
    with (Ok (VDict [ ("nbits", VNum nbits);
                    ("channel_wise", VBool true);
                    ("group_size", Quantizer.py_opt_nat g);
                    ("optimize", VBool true);
                    ("round_zero", VBool (Qeq_bool nbits 4));
                    ("axis", VInt axis);
                    ("view_as_float", VBool vf) ])).
  cbn [bind HQQLinear.dict_of].
  change (Dict.item "group_size" _) with (Ok (Quantizer.py_opt_nat g)).
  cbn [bind].
  assert (Hq : forall self gs,
             HQQLinear.quantize opt self (HQQLinear.weight lin)
               (VDict [ ("nbits", VNum nbits);
                        ("channel_wise", VBool true);
                        ("group_size", VInt (Z.of_nat gs));
                        ("optimize", VBool true);
                        ("round_zero", VBool (Qeq_bool nbits 4));
                        ("axis", VInt axis);
                        ("view_as_float", VBool vf) ]) VNone VNone
             = Raise (AssertionError "axis should be either 0 or 1")).
  { intros self gs. unfold HQQLinear.quantize, HQQLinear.transposed_shape.
    rewrite Hs. cbn [bind HQQLinear.dict_of].
    cbn [HQQLinear.with_kwargs existsb String.eqb Ascii.eqb Bool.eqb orb
           HQQLinear.with_arg bind].
    assert (Hz : (0 <=? Z.of_nat gs)%Z = true) by (apply Z.leb_le; lia).
    rewrite Hz.
    cbn [HQQLinear.with_kwargs existsb String.eqb Ascii.eqb Bool.eqb orb
           HQQLinear.with_arg bind].
    unfold Quantizer.quantize, Quantizer.internal, Quantizer.grouped,
      Quantizer.check_args.
    cbn [Quantizer.nbits Quantizer.axis].
    rewrite Hn.
    assert (Ha : (axis =? 0)%Z || (axis =? 1)%Z = false).
    { apply orb_false_iff. split; apply Z.eqb_neq; assumption. }
    rewrite Ha. reflexivity. }
  destruct g as [gs|]; cbn [Quantizer.py_opt_nat HQQLinear.is_none].
  - cbn [bind]. unfold HQQLinear.quantize_kwargs.
    cbn [forallb existsb fst String.eqb Ascii.eqb Bool.eqb orb andb negb].
    change (Dict.get "weight_quant_params" _)
      with (Some (VDict [ ("nbits", VNum nbits);
                        ("channel_wise", VBool true);
                        ("group_size", VInt (Z.of_nat gs));
                        ("optimize", VBool true);
                        ("round_zero", VBool (Qeq_bool nbits 4));
                        ("axis", VInt axis);
                        ("view_as_float", VBool vf) ])).
    change (Dict.get "scale_quant_params" _) with (Some VNone).
    change (Dict.get "zero_quant_params" _) with (Some VNone).
    cbv beta iota. rewrite Hq. reflexivity.
  - change (Dict.item "axis" _) with (Ok (VInt axis)).
    cbn [bind].
    set (n := if eq_num (VInt axis) 1 then _ else _).
    cbn [bind Dict.set String.eqb Ascii.eqb Bool.eqb].
    unfold HQQLinear.quantize_kwargs.
    cbn [forallb existsb fst String.eqb Ascii.eqb Bool.eqb orb andb negb
           Dict.set].
    change (Dict.get "weight_quant_params" _)
      with (Some (VDict [ ("nbits", VNum nbits);
                        ("channel_wise", VBool true);
                        ("group_size", VInt (Z.of_nat n));
                        ("optimize", VBool true);
                        ("round_zero", VBool (Qeq_bool nbits 4));
                        ("axis", VInt axis);
                        ("view_as_float", VBool vf) ])).
    change (Dict.get "scale_quant_params" _) with (Some VNone).
    change (Dict.get "zero_quant_params" _) with (Some VNone).
    cbv beta iota. rewrite Hq. reflexivity.
Qed.

(** X13.  [hqq_base_quant_config] (lines 1075-1150) checks [nbits] and
    [group_size] but not [axis]: for every [axis] it returns a configuration
    when the two are valid.  An [axis] other than 0 and 1 is rejected only
    when a layer is built from the configuration: [HQQLinear.__init__] (lines
    390-462) then raises the [AssertionError] of [Quantizer.quantize] (line
    92), whatever the weight matrix and the other settings are. *)
Theorem axis_is_checked_by_the_quantizer_only opt nbits group_size quant_zero
  quant_scale offload_meta view_as_float axis lin del_orig cd dev q p r c :
  existsb (Qeq_bool nbits) Quantizer.SUPPORTED_BITS = true ->
  match group_size with
  | Some g => is_divisible g 8 = true
  | None => True
  end ->
  axis <> 0%Z -> axis <> 1%Z ->
  shape (HQQLinear.weight lin) = [r; c] ->
  exists d,
    fst (hqq_base_quant_config nbits group_size quant_zero quant_scale
           offload_meta view_as_float axis q) = Ok d
    /\ fst (HQQLinear.__init__ opt (Some lin) (VDict d) del_orig cd dev true
              p)
       = Raise (AssertionError "axis should be either 0 or 1").
Proof.
  intros Hn Hg H0 H1 Hs.
  unfold hqq_base_quant_config, HQQLinear.pbind, HQQLinear.lift.
  rewrite Hn. cbn [assert fst snd].
  assert (Hg' : match group_size with
                | Some g =>
                    assert (is_divisible g 8)
                      "Invalid group_size param: the value should be a multiple of 8."
                | None => Ok tt
                end = Ok tt).
  { destruct group_size; [rewrite Hg|]; reflexivity. }
  rewrite Hg'. cbn [fst snd].
  destruct (quant_zero || quant_scale), offload_meta;
    cbn [HQQLinear.print HQQLinear.ret fst snd];
    (eexists; split; [reflexivity|]);
    apply (construct_with_axis opt nbits group_size axis view_as_float _ _ _
             lin del_orig cd dev p r c Hn H0 H1 Hs).
Qed.

Lemma axis_is_checked_by_the_quantizer_only_witness :
  exists d,
    fst (hqq_base_quant_config 4 (Some 8%nat) false false false false 2%Z
           (HQQLinear.start false)) = Ok d
    /\ fst (HQQLinear.__init__ no_optimizer (Some linear_ones) (VDict d) true
              float16 "cuda" true (HQQLinear.start false))
       = Raise (AssertionError "axis should be either 0 or 1").
Proof.
  apply (axis_is_checked_by_the_quantizer_only no_optimizer 4 (Some 8%nat)
           false false false false 2%Z linear_ones true float16
           "cuda"%string (HQQLinear.start false) (HQQLinear.start false)
           4%nat 8%nat).
  - reflexivity.
  - vm_compute. reflexivity.
  - discriminate.
  - discriminate.
  - reflexivity.
Defined.

(** * Trimming the padding of the three-bit packing (C2) *)

Lemma Qcompare_inject a b : (inject_Z a ?= inject_Z b) = (a ?= b)%Z.
Proof. unfold Qcompare. simpl. now rewrite !Z.mul_1_r. Qed.

Lemma clamp_inject k m :
  (0 <= m)%Z ->
  Qmin (Qmax (inject_Z k) 0) (inject_Z m) = inject_Z (Z.min (Z.max k 0) m).
Proof.
  intros Hm. change 0 with (inject_Z 0).
  unfold Qmax, GenericMinMax.gmax. rewrite Qcompare_inject.
  destruct (Z.compare_spec k 0);
    unfold Qmin, GenericMinMax.gmin; rewrite Qcompare_inject;
    match goal with
    | |- context [(?x ?= ?y)%Z] => destruct (Z.compare_spec x y)
    end; f_equal; lia.
Qed.

Lemma map_map_lengths {A B} (f : A -> B) (g : A -> Q) (Zf : list (list A)) :
  Forall2 (fun r w => length r = length w)
    (map (map f) Zf) (map (map g) Zf).
Proof.
  induction Zf as [|row Zf IH]; cbn [map]; constructor; [|exact IH].
  now rewrite !length_map.
Qed.

(** The codes of lines 145-146 without the solver: integers between 0 and
    [max_v], in the shape of the grouped tensor. *)
Lemma internal_code_rows opt tensor a codes s z b :
  t_scalar tensor = false ->
  rect (row_len tensor) (t_rows tensor) ->
  Quantizer.optimize a = false \/ Quantizer.channel_wise a = false ->
  Quantizer.internal opt tensor a = Ok (codes, s, z) ->
  (0 <= Quantizer.max_value (Quantizer.nbits a) < 2 ^ Z.of_nat b)%Z ->
  exists Wg,
    Quantizer.grouped tensor a = Ok Wg
    /\ t_scalar codes = false
    /\ readable codes = true
    /\ Forall2 (fun r w => length r = length w) (t_rows codes) (t_rows Wg)
    /\ code_rows b (t_rows codes).
Proof.
  intros Hsc Hrect Hsolver HI Hmax.
  destruct (internal_inv _ _ _ _ HI)
    as (Wg & mn & mx & o & s0 & z0 & HG & HMM & HSZ & HC).
  destruct (grouped_facts _ _ _ HG Hsc Hrect)
    as (WgS & WgR & WgD & WgRect & WgC).
  destruct (min_max_ordered _ _ _ _ _ HMM WgS WgRect)
    as (Y & Zf & Imn & Imx & HB & _ & _ & _ & _ & _ & _ & _ & Ho).
  assert (o = false) as ->.
  { destruct o; [|reflexivity]. destruct (Ho eq_refl) as [H1 H2].
    destruct Hsolver; congruence. }
  destruct (scale_zero_img (Quantizer.max_value (Quantizer.nbits a)) mn mx Y
              fst snd Imn Imx) as (s0' & z0' & HSZ' & Is0 & Iz0 & _).
  rewrite HSZ in HSZ'. inv_ok HSZ'.
  destruct (codes_chain opt a _ Wg s0' z0' Y Zf _ _ codes s z WgR HB
              Is0 Iz0 HC)
    as (_ & _ & ws & y & _ & _ & _ & [Rc Hrows] & Scodes).
  exists Wg. split; [exact HG|].
  split; [rewrite Scodes, WgS; reflexivity|].
  split; [exact Rc|].
  split.
  - rewrite Hrows, <- (broadcast_fst _ _ _ HB). apply map_map_lengths.
  - rewrite Hrows. unfold code_rows, mall.
    apply Forall_map, Forall_forall. intros row _.
    apply Forall_map, Forall_forall. intros zz _.
    rewrite clamp_inject by lia.
    eexists. split; [reflexivity|]. unfold is_digit. lia.
Qed.

Lemma Forall2_lengths_rect {A B} (X : list (list A)) (Wl : list (list B)) c :
  Forall2 (fun r w => length r = length w) X Wl ->
  Forall (fun w => length w = c) Wl ->
  length X = length Wl /\ Forall (fun r => length r = c) X.
Proof.
  induction 1 as [|r w X Wl Hrw _ IH]; intros HW.
  - split; [reflexivity | constructor].
  - inversion HW; subst. destruct (IH H2) as [IH1 IH2]. split.
    + cbn. now rewrite IH1.
    + constructor; [congruence | exact IH2].
Qed.

Lemma firstn_padded r t :
  firstn (n_rows t) (padded r t) = t_rows t.
Proof.
  unfold padded, n_rows. rewrite firstn_app, Nat.sub_diag, firstn_all.
  cbn [firstn]. apply app_nil_r.
Qed.

(** The shape that [quantize] records is the one of a matrix: the bound of
    line 193 divides the number of its elements. *)
Lemma trim_bound_meta a tensor s z pk d g :
  t_scalar tensor = false ->
  readable tensor = true ->
  Quantizer.group_size a = Some g ->
  (0 < g)%nat ->
  Quantizer.trim_bound (meta_of a tensor s z pk d)
  = Ok (Some (if Z.eqb (Quantizer.axis a) 0 then Z.of_nat g
              else (Z.of_nat (n_rows tensor) * Z.of_nat (row_len tensor)
                    / Z.of_nat g)%Z)).
Proof.
  intros Hsc Hread Hg Hpos.
  unfold Quantizer.trim_bound, meta_of.
  change (Dict.item "axis" _) with (Ok (VInt (Quantizer.axis a))).
  cbn [bind eq_num].
  change (Dict.item "group_size" _)
    with (Ok (Quantizer.py_opt_nat (Quantizer.group_size a))).
  change (Dict.item "shape" _) with (Ok (VShape (shape tensor))).
  rewrite Hg. cbn [Quantizer.py_opt_nat bind Quantizer.shape_of].
  assert (Hax : Qeq_bool (inject_Z (Quantizer.axis a)) 0
                = Z.eqb (Quantizer.axis a) 0).
  { unfold Qeq_bool. simpl. rewrite Z.mul_1_r.
    destruct (Quantizer.axis a); reflexivity. }
  rewrite Hax. destruct (Z.eqb (Quantizer.axis a) 0); [reflexivity|].
  unfold shape. rewrite Hsc.
  assert (E : t_dtype tensor = t_store tensor).
  { unfold readable in Hread.
    destruct (t_dtype tensor), (t_store tensor); try discriminate;
      reflexivity. }
  rewrite E, Nat.div_mul
    by (destruct (t_store tensor); cbn; discriminate).
  cbn [Quantizer.dim nth_error bind].
  assert (Hz : (Z.of_nat g =? 0)%Z = false) by (apply Z.eqb_neq; lia).
  rewrite Hz. reflexivity.
Qed.

(** Lines 184-194 on what [quantize] returned with bit-packing and without
    the solver: the unpacker gives the codes back, followed by the rows of
    padding, and only the three-bit branch cuts rows off. *)
Lemma unpacked_packed opt tensor a W_q meta :
  t_scalar tensor = false ->
  rect (row_len tensor) (t_rows tensor) ->
  In (Quantizer.nbits a) Quantizer.SUPPORTED_BITS ->
  Quantizer.bitpack a = true ->
  Quantizer.optimize a = false \/ Quantizer.channel_wise a = false ->
  Quantizer.quantize opt tensor a = Ok (W_q, meta) ->
  exists codes s z s' p b r d Wg,
    Quantizer.internal opt tensor a = Ok (codes, s, z)
    /\ meta = meta_of a tensor s' z (VStr p) d
    /\ Quantizer.lookup_num (Quantizer.nbits a) Quantizer.bit_to_packing
       = Some p
    /\ Quantizer.lookup_str p layout = Some (b, r)
    /\ Quantizer.grouped tensor a = Ok Wg
    /\ t_scalar codes = false
    /\ Forall2 (fun r w => length r = length w) (t_rows codes) (t_rows Wg)
    /\ Quantizer.unpacked W_q meta
       = (if Qeq_bool (Quantizer.nbits a) 3
          then (bound <- Quantizer.trim_bound meta ;;
                Torch.take_rows bound
                  (fresh float16 false (padded r codes)))
          else Ok (fresh float16 false (padded r codes)))%result.
Proof.
  intros Hsc Hrect Hin Hbp Hsolver HQ.
  destruct (quantize_inv _ _ _ _ _ HQ)
    as (codes & s & z & s' & p & d & HI & _ & Hp & Hd & Hcase).
  rewrite Hbp in Hcase.
  destruct Hcase as (Hmeta & packer & P & Lp & HP & Hview).
  destruct (supported_layout _ Hin)
    as (p' & b & r & d' & packer' & unpacker & Hp' & Hl & Lp' & Lu & _
        & Hmax & Hne).
  rewrite Hp in Hp'. injection Hp' as <-.
  rewrite Lp in Lp'. injection Lp' as <-.
  destruct (internal_code_rows opt tensor a codes s z b Hsc Hrect Hsolver HI
              ltac:(lia)) as (Wg & HG & Sc & Rc & Hdims & Hcodes).
  assert (WgRect : rect (row_len Wg) (t_rows Wg)).
  { now destruct (grouped_facts _ _ _ HG Hsc Hrect) as (_ & _ & _ & H & _). }
  destruct (Forall2_lengths_rect _ _ _ Hdims WgRect) as [Hlen Hcrect].
  assert (Hcr : rect (row_len codes) (t_rows codes)).
  { apply rect_hd with (c := row_len Wg). exact Hcrect. }
  destruct (codec_roundtrip p b r packer unpacker codes float16 Hl Lp Lu
              eq_refl Sc Rc Hcr Hcodes) as (P' & HP' & HfP & HU).
  rewrite HP in HP'. injection HP' as <-.
  destruct (packer_fresh _ _ _ _ _ Lp Hd HP) as [HdP HsP].
  exists codes, s, z, s', p, b, r, d, Wg.
  repeat (split; [assumption|]).
  subst meta. unfold Quantizer.unpacked, Quantizer.get_compute_dtype, meta_of.
  change (Dict.mem "compute_dtype" _) with false. cbn [bind].
  change (Dict.item "packing" _) with (Ok (VStr p)).
  cbn [bind truthy]. rewrite Hne. cbn [negb].
  change (Dict.item "view_as_float" _)
    with (Ok (VBool (Quantizer.view_as_float a))).
  cbn [bind truthy].
  change (Dict.item "unpack_view_dtype" _) with (Ok (VDtype d)).
  change (Dict.item "nbits" _) with (Ok (VNum (Quantizer.nbits a))).
  assert (Hback : (if Quantizer.view_as_float a
                   then (v <- Ok (VDtype d) ;;
                         d0 <- Quantizer.dtype_of v ;;
                         Torch.view_dtype d0 W_q)
                   else Ok W_q)%result = Ok P).
  { destruct (Quantizer.view_as_float a).
    - cbn [bind Quantizer.dtype_of]. rewrite <- HsP.
      now apply view_dtype_back with (d := float_view a).
    - now subst W_q. }
  rewrite Hback. cbn [bind].
  unfold Quantizer.table_str. rewrite Lu. cbn [bind]. rewrite HU.
  cbn [bind eq_num]. reflexivity.
Qed.

Lemma Forall2_lengths_concat {A B} (X : list (list A)) (Wl : list (list B)) :
  Forall2 (fun r w => length r = length w) X Wl ->
  length (concat X) = length (concat Wl).
Proof.
  induction 1 as [|r w X Wl Hrw _ IH]; cbn [concat]; [reflexivity|].
  now rewrite !length_app, Hrw, IH.
Qed.



